(** * piicatcher/scanner.py: the PII detectors and the two scan drivers

    A shallow embedding of [src/piicatcher/scanner.py]:
    - [Re]: the fragment of Python's [re] the column-name table is written in
      (literals, [.], [*], [|], grouping, [^], [$], flag IGNORECASE), run by a
      backtracking matcher;
    - [ColumnNameRegexDetector] and [DatumRegexDetector];
    - [metadata_scan] and [data_scan], in a state-and-exception monad over the
      objects the drivers touch: the catalog, the three loggers and the
      detectors they call.

    How the program's surroundings are taken:
    - strings are [string]s of 8-bit characters; on these Python's
      case-insensitive comparison of a pattern letter is ASCII case folding;
    - a generator is the finite list of the items it yields; the two
      generators of a scan are separate objects, the first one is only
      counted;
    - the catalog (dbcat) and the recognisers of crim are parameters; so are
      [SMALL_TABLE_MAX] and [_filter_text_columns] of piicatcher.generators;
    - a detector is its [name] and a [detect] function that may raise;
    - a logger is the list of the records handed to it, and the calls that
      reach the catalog and the detectors are recorded the same way. *)

From Stdlib Require Import String Ascii List Bool Arith ZArith Lia.
From Stdlib Require Import DecimalString.
Import ListNotations.

Local Open Scope string_scope.
Local Open Scope list_scope.

(* ===================================================================== *)
(** ** The PII types imported at the top of scanner.py *)
(* ===================================================================== *)

(** [from piicatcher import SSN, Address, ..., KTP]: one class per category;
    [pii_type()] builds an instance, and instances are compared by class. *)
Inductive PiiType : Type :=
| SSN | Address | BirthDate | CreditCard | Email | Gender | Nationality
| Password | Person | Phone | PoBox | UserName | ZipCode | KTP.

Definition PiiType_eqb (a b : PiiType) : bool :=
  match a, b with
  | SSN, SSN | Address, Address | BirthDate, BirthDate
  | CreditCard, CreditCard | Email, Email | Gender, Gender
  | Nationality, Nationality | Password, Password | Person, Person
  | Phone, Phone | PoBox, PoBox | UserName, UserName
  | ZipCode, ZipCode | KTP, KTP => true
  | _, _ => false
  end.

(** [CatColumn] of dbcat, as far as scanner.py reads it: [column.name] and
    [column.fqdn]. *)
Module CatColumn.
Record t : Type := make {
  name : string;
  fqdn : string
}.
End CatColumn.

(* ===================================================================== *)
(** ** Python's [re], as far as the pattern table uses it *)
(* ===================================================================== *)

Module Re.

Inductive regex : Type :=
| Lit (c : ascii)            (* an ordinary character *)
| Dot                        (* [.]: any character except a line feed *)
| Eps                        (* the empty branch of [(id|name|)] *)
| Seq (r1 r2 : regex)        (* r1 r2 *)
| Alt (r1 r2 : regex)        (* r1|r2 *)
| Star (r : regex)           (* r*, greedy *)
| Bol                        (* [^] *)
| Eol.                       (* [$] *)

Definition LF : ascii := "010"%char.

(** ASCII lower-casing: [A]..[Z] to [a]..[z], everything else unchanged. *)
Definition lower (c : ascii) : ascii :=
  let n := nat_of_ascii c in
  if ((65 <=? n) && (n <=? 90))%nat then ascii_of_nat (n + 32) else c.

(** Comparison of a pattern character with a subject character; [ic] is
    the IGNORECASE flag. *)
Definition chr_eq (ic : bool) (c x : ascii) : bool :=
  if ic then Ascii.eqb (lower c) (lower x) else Ascii.eqb c x.

(** A matcher state: the position reached and the text still ahead. *)
Definition state : Type := nat * list ascii.

(** [r*]: as many rounds of [step] as possible first, then fewer.  A round
    that consumes nothing is dropped, as the engine does to stay finite;
    [fuel] is the length of the text ahead. *)
Fixpoint star_run (step : state -> list state) (fuel : nat) (st : state)
  : list state :=
  match fuel with
  | O => [st]
  | S n =>
      flat_map
        (fun st' =>
           if (length (snd st') <? length (snd st))%nat
           then star_run step n st' else [])
        (step st)
      ++ [st]
  end.

(** All the ways [r] matches at [st], in the engine's order of preference;
    each result is the state after the match. *)
Fixpoint run (ic : bool) (r : regex) (st : state) : list state :=
  match r with
  | Lit c =>
      match snd st with
      | x :: rest => if chr_eq ic c x then [(S (fst st), rest)] else []
      | [] => []
      end
  | Dot =>
      match snd st with
      | x :: rest => if Ascii.eqb x LF then [] else [(S (fst st), rest)]
      | [] => []
      end
  | Eps => [st]
  | Seq r1 r2 => flat_map (run ic r2) (run ic r1 st)
  | Alt r1 r2 => run ic r1 st ++ run ic r2 st
  | Star r1 => star_run (run ic r1) (length (snd st)) st
  | Bol => if (fst st =? 0)%nat then [st] else []
  | Eol =>
      match snd st with
      | [] => [st]
      | [x] => if Ascii.eqb x LF then [st] else []
      | _ => []
      end
  end.

(** A compiled pattern: [re.compile(pattern, flags)]. *)
Inductive flag : Type := NOFLAG | IGNORECASE.

Record Pattern : Type := compile {
  pattern : regex;
  flags : flag
}.

Definition ignorecase (p : Pattern) : bool :=
  match flags p with IGNORECASE => true | NOFLAG => false end.

(** [ex.match(s)]: match at the beginning of [s]; the result is the end of
    the preferred match ([m.end()]), or [None]. *)
Definition match_ (ex : Pattern) (s : string) : option nat :=
  match run (ignorecase ex) (pattern ex) (0, list_ascii_of_string s) with
  | [] => None
  | st :: _ => Some (fst st)
  end.

(** Pattern syntax helpers: a literal word, and a group [(a|b|...)]. *)
Fixpoint lit (s : string) : regex :=
  match s with
  | EmptyString => Eps
  | String c s' => Seq (Lit c) (lit s')
  end.

Fixpoint group (r : regex) (rs : list regex) : regex :=
  match rs with
  | [] => r
  | r' :: rs' => Alt r (group r' rs')
  end.

(** [(w1|w2|...)] for words. *)
Definition words (w : string) (ws : list string) : regex :=
  group (lit w) (map lit ws).

(** [^.*body.*$] *)
Definition wild (body : regex) : regex :=
  Seq Bol (Seq (Star Dot) (Seq body (Seq (Star Dot) Eol))).

(** The scan of [ex.search]: the first position from [pos] on where the
    pattern matches, with the end of the preferred match there. *)
Fixpoint search_from (ic : bool) (r : regex) (pos : nat)
  (text : list ascii) : option (nat * nat) :=
  match run ic r (pos, text) with
  | st :: _ => Some (pos, fst st)
  | [] =>
      match text with
      | [] => None
      | _ :: text' => search_from ic r (S pos) text'
      end
  end.

(** [ex.findall(s)]: the matches found left to right, without overlap; an
    empty match moves the scan one character on. *)
Fixpoint findall_from (fuel : nat) (ic : bool) (r : regex) (pos : nat)
  (text : list ascii) : list string :=
  match fuel with
  | O => []
  | S fuel' =>
      match search_from ic r pos text with
      | None => []
      | Some (b, e) =>
          let next := if (e =? b)%nat then S e else e in
          string_of_list_ascii (firstn (e - b) (skipn (b - pos) text))
            :: findall_from fuel' ic r next (skipn (next - pos) text)
      end
  end.

Definition findall (ex : Pattern) (s : string) : list string :=
  findall_from (S (String.length s)) (ignorecase ex) (pattern ex) 0
    (list_ascii_of_string s).

End Re.

(* ===================================================================== *)
(** ** ColumnNameRegexDetector *)
(* ===================================================================== *)

Module ColumnNameRegexDetector.
Import Re.

(** The class attribute [regex]: a dict, iterated in insertion order. *)
Definition regex : list (PiiType * Pattern) :=
  [ (Person,
     compile (wild (words "firstname"
                      ["fname"; "lastname"; "lname";
                       "fullname"; "maidenname"; "_name";
                       "nickname"; "name_suffix"; "name"; "person"; "nama";
                       "nama_lengkap"; "nama_panjang"]))
             IGNORECASE);
    (Email, compile (wild (words "email" ["e-mail"; "mail"])) IGNORECASE);
    (BirthDate,
     compile (wild (words "date_of_birth"
                      ["dateofbirth"; "dob";
                       "birthday"; "date_of_death"; "dateofdeath";
                       "birthdate"; "tanggal_lahir"]))
             IGNORECASE);
    (Gender, compile (wild (words "gender" ["jenis_kelamin"])) IGNORECASE);
    (Nationality, compile (wild (words "nationality" [])) IGNORECASE);
    (Address,
     compile (wild (words "address"
                      ["city"; "state"; "county"; "country"; "zone";
                       "borough";
                       "alamat"; "provinsi"; "kota"; "kabupaten";
                       "kecamatan"; "kelurahan"; "desa"; "nomor_rumah"]))
             IGNORECASE);
    (ZipCode,
     compile (wild (words "zipcode"
                      ["zip_code"; "postal"; "postal_code"; "zip";
                       "kode_pos"; "pos"]))
             IGNORECASE);
    (UserName,
     compile (wild (Seq (lit "user") (words "id" ["name"; ""])))
             IGNORECASE);
    (Password, compile (wild (lit "pass")) IGNORECASE);
    (SSN,
     compile (wild (words "ssn"
                      ["social_number"; "social_security";
                       "social_security_number"; "social_security_no"]))
             IGNORECASE);
    (PoBox, compile (wild (words "po_box" ["pobox"])) IGNORECASE);
    (CreditCard,
     compile (wild (words "credit_card"
                      ["cc_number"; "cc_num"; "creditcard";
                       "credit_card_num"; "creditcardnumber";
                       "kartu_kredit"; "nomor_rekening"; "rekening"]))
             IGNORECASE);
    (Phone,
     compile (wild (words "phone"
                      ["phone_number"; "phone_no"; "phone_num";
                       "telephone"; "telephone_num"; "telephone_no";
                       "telp"; "nomor_telepon"; "nomor_handphone";
                       "handphone"; "telepon"; "no_telepon";
                       "no_handphone"]))
             IGNORECASE);
    (KTP,
     compile (wild (words "ktp"
                      ["ktp_name"; "ktp_number"; "nama_ktp";
                       "nomor_ktp"; "ktp_nama"; "ktp_nomor"; "ktp_no"]))
             IGNORECASE) ].

Definition name : string := "ColumnNameRegexDetector".

(** [for pii_type, ex in self.regex.items(): if ex.match(column.name) is
    not None: return pii_type()] and [return None] after the loop. *)
Fixpoint detect_in (table : list (PiiType * Pattern)) (column : CatColumn.t)
  : option PiiType :=
  match table with
  | [] => None
  | (pii_type, ex) :: table' =>
      match match_ ex (CatColumn.name column) with
      | Some _ => Some pii_type
      | None => detect_in table' column
      end
  end.

Definition detect (column : CatColumn.t) : option PiiType :=
  detect_in regex column.

End ColumnNameRegexDetector.

(* ===================================================================== *)
(** ** Sampled values and DatumRegexDetector *)
(* ===================================================================== *)

(** A sampled cell value, when there is one ([None] is [option]'s [None]):
    text, or another scalar a row can hold. *)
Inductive pyval : Type :=
| PyStr (s : string)
| PyInt (z : Z)
| PyBool (b : bool).

(** Python's [str(datum)]. *)
Definition str (datum : pyval) : string :=
  match datum with
  | PyStr s => s
  | PyInt z => NilZero.string_of_int (Z.to_int z)
  | PyBool true => "True"
  | PyBool false => "False"
  end.

(** The package [crim], imported as [CommonRegex]: a third-party library of
    recognisers.  Each takes a text and returns the list of the matches of its
    pattern found in it. *)
Record crim : Type := {
  phones : string -> list string;
  emails : string -> list string;
  credit_cards : string -> list string;
  street_addresses : string -> list string;
  ssn_numbers : string -> list string;
  zip_codes : string -> list string;
  po_boxes : string -> list string;
  ktp : string -> list string
}.

(** Truth value of a Python list: non-empty. *)
Definition truthy {A : Type} (l : list A) : bool :=
  match l with [] => false | _ :: _ => true end.

Module DatumRegexDetector.
Section WithCrim.
Variable CommonRegex : crim.

Definition name : string := "DatumRegexDetector".

Definition detect (column : CatColumn.t) (datum : pyval)
  : option PiiType :=
  let data := str datum in
  if truthy (phones CommonRegex data) then Some Phone
  else if truthy (emails CommonRegex data) then Some Email
  else if truthy (credit_cards CommonRegex data) then Some CreditCard
  else if truthy (street_addresses CommonRegex data) then Some Address
  else if truthy (ssn_numbers CommonRegex data) then Some SSN
  else if truthy (zip_codes CommonRegex data) then Some ZipCode
  else if truthy (po_boxes CommonRegex data) then Some PoBox
  else if truthy (ktp CommonRegex data) then Some KTP
  else None.
End WithCrim.
End DatumRegexDetector.

(* ===================================================================== *)
(** ** What the scan drivers act on *)
(* ===================================================================== *)

(** [CatSchema] and [CatTable] of dbcat: the drivers only pass them along. *)
Module CatSchema.
Record t : Type := make { name : string }.
End CatSchema.

Module CatTable.
Record t : Type := make { name : string }.
End CatTable.

(** A raised Python exception. *)
Inductive exn : Type := Exception (cls msg : string).

(** A call either returns a value or raises. *)
Inductive result (A : Type) : Type :=
| Ok (a : A)
| Raise (e : exn).
Arguments Ok {A} a.
Arguments Raise {A} e.

(** A registered detector: its [name] attribute and its [detect] method.
    Detectors keep no state; a [detect] may raise. *)
Module MetadataDetector.
Record t : Type := make {
  name : string;
  detect : CatColumn.t -> result (option PiiType)
}.
End MetadataDetector.

Module DatumDetector.
Record t : Type := make {
  name : string;
  detect : CatColumn.t -> pyval -> result (option PiiType)
}.
End DatumDetector.

(** A record handed to a [logging] logger: level, message template, the
    positional arguments and the [extra] dict. *)
Inductive level : Type := DEBUG | INFO.

Inductive logval : Type :=
| LStr (s : string)
| LInt (z : Z)
| LPii (t : PiiType)
| LVal (v : pyval).

Record LogRecord : Type := mkLog {
  levelno : level;
  msg : string;
  args : list logval;
  extra : list (string * logval)
}.

(** Lookup of a key in an [extra] dict. *)
Fixpoint get (k : string) (d : list (string * logval)) : option logval :=
  match d with
  | [] => None
  | (k', v) :: d' => if String.eqb k k' then Some v else get k d'
  end.

(** One call of [catalog.set_column_pii_type(column=, pii_type=, pii_plugin=)]. *)
Definition catalog_call : Type := (CatColumn.t * PiiType * string)%type.

(** One call of a detector's [detect]: the detector's name, the column and,
    for a datum detector, the datum. *)
Definition detect_call : Type := (string * CatColumn.t * option pyval)%type.

(** [tqdm(iterable, total=, desc=, unit=)] yields the items of [iterable]. *)
Definition tqdm {A : Type} (iterable : list A) (total : Z)
  (desc unit_ : string) : list A := iterable.

Section Scan.

(** The catalog collaborator (dbcat's [Catalog]): its state, and its method
    [set_column_pii_type], which updates the state and may raise. *)
Variable Catalog : Type.
Variable set_column_pii_type :
  Catalog -> CatColumn.t -> PiiType -> string -> result unit * Catalog.

(** [from piicatcher.generators import SMALL_TABLE_MAX, _filter_text_columns] *)
Variable SMALL_TABLE_MAX : Z.
Variable _filter_text_columns : list CatColumn.t -> list CatColumn.t.

(** The state a scan runs in: the catalog, the module's three loggers (each
    the list of records it was handed, oldest first), and the calls that
    reached the catalog and the detectors. *)
Record World : Type := mkWorld {
  catalog : Catalog;
  catalog_calls : list catalog_call;
  detect_calls : list detect_call;
  LOGGER : list LogRecord;
  scan_logger : list LogRecord;
  data_logger : list LogRecord
}.

(** Computations: state passing, with the state kept when a call raises. *)
Definition M (A : Type) : Type := World -> result A * World.

Definition ret {A : Type} (a : A) : M A := fun w => (Ok a, w).

Definition bind {A B : Type} (m : M A) (k : A -> M B) : M B :=
  fun w =>
    match m w with
    | (Ok a, w') => k a w'
    | (Raise e, w') => (Raise e, w')
    end.

Notation "x <- c1 ;; c2" := (bind c1 (fun x => c2))
  (at level 61, c1 at next level, right associativity).
Notation "c1 ;; c2" := (bind c1 (fun _ => c2))
  (at level 61, right associativity).

(** [LOGGER.debug(msg, *args)] and [LOGGER.info(msg, *args)] *)
Definition LOGGER_log (lv : level) (m : string) (a : list logval) : M unit :=
  fun w =>
    (Ok tt,
     mkWorld (catalog w) (catalog_calls w) (detect_calls w)
       (LOGGER w ++ [mkLog lv m a []]) (scan_logger w) (data_logger w)).

(** [scan_logger.info(msg, extra=)] *)
Definition scan_logger_info (m : string) (x : list (string * logval))
  : M unit :=
  fun w =>
    (Ok tt,
     mkWorld (catalog w) (catalog_calls w) (detect_calls w)
       (LOGGER w) (scan_logger w ++ [mkLog INFO m [] x]) (data_logger w)).

(** [data_logger.info(msg, extra=)] *)
Definition data_logger_info (m : string) (x : list (string * logval))
  : M unit :=
  fun w =>
    (Ok tt,
     mkWorld (catalog w) (catalog_calls w) (detect_calls w)
       (LOGGER w) (scan_logger w) (data_logger w ++ [mkLog INFO m [] x])).

(** [catalog.set_column_pii_type(column=, pii_type=, pii_plugin=)] *)
Definition catalog_set_column_pii_type (column : CatColumn.t)
  (pii_type : PiiType) (pii_plugin : string) : M unit :=
  fun w =>
    let (r, cat') :=
      set_column_pii_type (catalog w) column pii_type pii_plugin in
    (r,
     mkWorld cat' (catalog_calls w ++ [(column, pii_type, pii_plugin)])
       (detect_calls w) (LOGGER w) (scan_logger w) (data_logger w)).

(** [detector.detect(column)] *)
Definition call_detect (detector : MetadataDetector.t)
  (column : CatColumn.t) : M (option PiiType) :=
  fun w =>
    (MetadataDetector.detect detector column,
     mkWorld (catalog w) (catalog_calls w)
       (detect_calls w ++ [(MetadataDetector.name detector, column, None)])
       (LOGGER w) (scan_logger w) (data_logger w)).

(** [detector.detect(column=column, datum=val)] *)
Definition call_detect_datum (detector : DatumDetector.t)
  (column : CatColumn.t) (val : pyval) : M (option PiiType) :=
  fun w =>
    (DatumDetector.detect detector column val,
     mkWorld (catalog w) (catalog_calls w)
       (detect_calls w ++ [(DatumDetector.name detector, column, Some val)])
       (LOGGER w) (scan_logger w) (data_logger w)).

(* ------------------------------------------------------------------- *)
(** *** metadata_scan *)
(* ------------------------------------------------------------------- *)

(** [for detector in detectors: ...] of [metadata_scan]; the result is the
    new [set_number].  Returning from the [Some] branch is the [break]. *)
Fixpoint metadata_detectors (detectors : list MetadataDetector.t)
  (column : CatColumn.t) (set_number : Z) : M Z :=
  match detectors with
  | [] => ret set_number
  | detector :: detectors' =>
      type <- call_detect detector column ;;
      match type with
      | Some ty =>
          let set_number := (set_number + 1)%Z in
          catalog_set_column_pii_type column ty
            (MetadataDetector.name detector) ;;
          ret set_number
      | None => metadata_detectors detectors' column set_number
      end
  end.

(** The body of [for schema, table, column in tqdm(generator, ...)]. *)
Definition metadata_item (detectors : list MetadataDetector.t)
  (item : CatSchema.t * CatTable.t * CatColumn.t)
  (counter set_number : Z) : M (Z * Z) :=
  let '(schema, table, column) := item in
  let counter := (counter + 1)%Z in
  LOGGER_log DEBUG "Scanning column name %s"
    [LStr (CatColumn.fqdn column)] ;;
  set_number <- metadata_detectors detectors column set_number ;;
  ret (counter, set_number).

Fixpoint metadata_loop (detectors : list MetadataDetector.t)
  (generator : list (CatSchema.t * CatTable.t * CatColumn.t))
  (counter set_number : Z) : M (Z * Z) :=
  match generator with
  | [] => ret (counter, set_number)
  | item :: generator' =>
      cs <- metadata_item detectors item counter set_number ;;
      metadata_loop detectors generator' (fst cs) (snd cs)
  end.

(** [metadata_scan(catalog, detectors, work_generator, generator)]; the
    catalog argument is the [catalog] of the world.  A generator is given by
    the items it yields. *)
Definition metadata_scan (detectors : list MetadataDetector.t)
  (work_generator generator : list (CatSchema.t * CatTable.t * CatColumn.t))
  : M unit :=
  let total_columns :=
    Z.of_nat (length (map (fun '(s, t, c) => c) work_generator)) in
  cs <- metadata_loop detectors
          (tqdm generator total_columns "columns" "columns") 0 0 ;;
  LOGGER_log INFO "Columns Scanned: %d, Columns Labeled: %d"
    [LInt (fst cs); LInt (snd cs)].

(* ------------------------------------------------------------------- *)
(** *** data_scan *)
(* ------------------------------------------------------------------- *)

Fixpoint data_detectors (detectors : list DatumDetector.t)
  (column : CatColumn.t) (val : pyval) (set_number : Z) : M Z :=
  match detectors with
  | [] => ret set_number
  | detector :: detectors' =>
      type <- call_detect_datum detector column val ;;
      match type with
      | Some ty =>
          let set_number := (set_number + 1)%Z in
          catalog_set_column_pii_type column ty
            (DatumDetector.name detector) ;;
          LOGGER_log DEBUG "{} has {}"
            [LStr (CatColumn.fqdn column); LPii ty] ;;
          scan_logger_info "deep_scan"
            [("column", LStr (CatColumn.fqdn column)); ("pii_types", LPii ty)] ;;
          data_logger_info "deep_scan"
            [("column", LStr (CatColumn.fqdn column)); ("data", LVal val);
             ("pii_types", LPii ty)] ;;
          ret set_number
      | None => data_detectors detectors' column val set_number
      end
  end.

(** The body of [for schema, table, column, val in tqdm(generator, ...)];
    [val] is [None] for Python's [None]. *)
Definition data_item (detectors : list DatumDetector.t)
  (item : CatSchema.t * CatTable.t * CatColumn.t * option pyval)
  (counter set_number : Z) : M (Z * Z) :=
  let '(schema, table, column, val) := item in
  let counter := (counter + 1)%Z in
  LOGGER_log DEBUG "Scanning column name %s"
    [LStr (CatColumn.fqdn column)] ;;
  set_number <-
    match val with
    | Some v => data_detectors detectors column v set_number
    | None => ret set_number
    end ;;
  ret (counter, set_number).

Fixpoint data_loop (detectors : list DatumDetector.t)
  (generator : list (CatSchema.t * CatTable.t * CatColumn.t * option pyval))
  (counter set_number : Z) : M (Z * Z) :=
  match generator with
  | [] => ret (counter, set_number)
  | item :: generator' =>
      cs <- data_item detectors item counter set_number ;;
      data_loop detectors generator' (fst cs) (snd cs)
  end.

(** [data_scan(catalog, detectors, work_generator, generator, sample_size)];
    [sample_size] is [None] when the caller leaves it to its default. *)
Definition data_scan (detectors : list DatumDetector.t)
  (work_generator : list (CatSchema.t * CatTable.t * CatColumn.t))
  (generator : list (CatSchema.t * CatTable.t * CatColumn.t * option pyval))
  (sample_size : option Z) : M unit :=
  let sample_size :=
    match sample_size with Some n => n | None => SMALL_TABLE_MAX end in
  let total_columns :=
    _filter_text_columns (map (fun '(s, t, c) => c) work_generator) in
  let total_work := (Z.of_nat (length total_columns) * sample_size)%Z in
  cs <- data_loop detectors (tqdm generator total_work "datum" "datum") 0 0 ;;
  LOGGER_log INFO "Columns Scanned: %d, Columns Labeled: %d"
    [LInt (fst cs); LInt (snd cs)].

End Scan.

Arguments mkWorld {Catalog}.
Arguments catalog {Catalog}.
Arguments catalog_calls {Catalog}.
Arguments detect_calls {Catalog}.
Arguments LOGGER {Catalog}.
Arguments scan_logger {Catalog}.
Arguments data_logger {Catalog}.

(** The two built-in detectors, as the drivers receive them. *)
Definition column_name_regex_detector : MetadataDetector.t :=
  MetadataDetector.make ColumnNameRegexDetector.name
    (fun column => Ok (ColumnNameRegexDetector.detect column)).

Definition datum_regex_detector (CommonRegex : crim) : DatumDetector.t :=
  DatumDetector.make DatumRegexDetector.name
    (fun column datum => Ok (DatumRegexDetector.detect CommonRegex column datum)).

(* ===================================================================== *)
(** ** Vocabulary of the properties *)
(* ===================================================================== *)

Section FirstMatch.
Context {D : Type}.
(** What a detector answers on the item at hand. *)
Variable probe : D -> result (option PiiType).

(** The detector returns a non-empty result. *)
Definition hits (d : D) : bool :=
  match probe d with Ok (Some _) => true | _ => false end.

(** The first detector, in list order, with a non-empty result. *)
Fixpoint first_match (ds : list D) : option (D * PiiType) :=
  match ds with
  | [] => None
  | d :: ds' =>
      match probe d with
      | Ok (Some ty) => Some (d, ty)
      | _ => first_match ds'
      end
  end.

(** The detectors up to and including the first one with a non-empty
    result; all of them when there is none. *)
Fixpoint upto_first_match (ds : list D) : list D :=
  match ds with
  | [] => []
  | d :: ds' => d :: (if hits d then [] else upto_first_match ds')
  end.

(** Some detector of the list has a non-empty result. *)
Definition matched (ds : list D) : bool := existsb hits ds.
End FirstMatch.

Definition md_item : Type := (CatSchema.t * CatTable.t * CatColumn.t)%type.
Definition dd_item : Type :=
  (CatSchema.t * CatTable.t * CatColumn.t * option pyval)%type.

Definition md_column (it : md_item) : CatColumn.t := snd it.
Definition dd_column (it : dd_item) : CatColumn.t := snd (fst it).
Definition dd_value (it : dd_item) : option pyval := snd it.

Definition md_probe (column : CatColumn.t) (d : MetadataDetector.t)
  : result (option PiiType) := MetadataDetector.detect d column.

Definition dd_probe (column : CatColumn.t) (val : pyval) (d : DatumDetector.t)
  : result (option PiiType) := DatumDetector.detect d column val.

(** The classification a metadata item gets: none, or the one of the first
    matching detector. *)
Definition md_writes (ds : list MetadataDetector.t) (it : md_item)
  : list catalog_call :=
  match first_match (md_probe (md_column it)) ds with
  | Some (d, ty) => [(md_column it, ty, MetadataDetector.name d)]
  | None => []
  end.

(** The detector calls a metadata item causes. *)
Definition md_probes (ds : list MetadataDetector.t) (it : md_item)
  : list detect_call :=
  map (fun d => (MetadataDetector.name d, md_column it, None))
    (upto_first_match (md_probe (md_column it)) ds).

Definition md_matched (ds : list MetadataDetector.t) (it : md_item) : bool :=
  matched (md_probe (md_column it)) ds.

(** The same for a data item; an item without a value gets nothing. *)
Definition dd_hit (ds : list DatumDetector.t) (it : dd_item)
  : option (DatumDetector.t * PiiType * pyval) :=
  match dd_value it with
  | Some v =>
      match first_match (dd_probe (dd_column it) v) ds with
      | Some (d, ty) => Some (d, ty, v)
      | None => None
      end
  | None => None
  end.

Definition dd_writes (ds : list DatumDetector.t) (it : dd_item)
  : list catalog_call :=
  match dd_hit ds it with
  | Some (d, ty, _) => [(dd_column it, ty, DatumDetector.name d)]
  | None => []
  end.

Definition dd_probes (ds : list DatumDetector.t) (it : dd_item)
  : list detect_call :=
  match dd_value it with
  | Some v =>
      map (fun d => (DatumDetector.name d, dd_column it, Some v))
        (upto_first_match (dd_probe (dd_column it) v) ds)
  | None => []
  end.

Definition dd_matched (ds : list DatumDetector.t) (it : dd_item) : bool :=
  match dd_value it with
  | Some v => matched (dd_probe (dd_column it) v) ds
  | None => false
  end.

(** The records a scan hands to its loggers. *)
Definition scanning_record (column : CatColumn.t) : LogRecord :=
  mkLog DEBUG "Scanning column name %s" [LStr (CatColumn.fqdn column)] [].

Definition summary_record (counter set_number : Z) : LogRecord :=
  mkLog INFO "Columns Scanned: %d, Columns Labeled: %d"
    [LInt counter; LInt set_number] [].

Definition has_record (column : CatColumn.t) (ty : PiiType) : LogRecord :=
  mkLog DEBUG "{} has {}" [LStr (CatColumn.fqdn column); LPii ty] [].

Definition safe_record (column : CatColumn.t) (ty : PiiType) : LogRecord :=
  mkLog INFO "deep_scan" []
    [("column", LStr (CatColumn.fqdn column)); ("pii_types", LPii ty)].

Definition raw_record (column : CatColumn.t) (val : pyval) (ty : PiiType)
  : LogRecord :=
  mkLog INFO "deep_scan" []
    [("column", LStr (CatColumn.fqdn column)); ("data", LVal val);
     ("pii_types", LPii ty)].

Definition dd_LOGGER (ds : list DatumDetector.t) (it : dd_item)
  : list LogRecord :=
  scanning_record (dd_column it)
    :: match dd_hit ds it with
       | Some (_, ty, _) => [has_record (dd_column it) ty]
       | None => []
       end.

Definition dd_safe (ds : list DatumDetector.t) (it : dd_item)
  : list LogRecord :=
  match dd_hit ds it with
  | Some (_, ty, _) => [safe_record (dd_column it) ty]
  | None => []
  end.

Definition dd_raw (ds : list DatumDetector.t) (it : dd_item)
  : list LogRecord :=
  match dd_hit ds it with
  | Some (_, ty, v) => [raw_record (dd_column it) v ty]
  | None => []
  end.

Arguments ret {Catalog A} a _.
Arguments bind {Catalog A B} m k _.
Arguments LOGGER_log {Catalog} lv m a _.
Arguments scan_logger_info {Catalog} m x _.
Arguments data_logger_info {Catalog} m x _.
Arguments call_detect {Catalog} detector column _.
Arguments call_detect_datum {Catalog} detector column val _.

(** The catalog after a sequence of successful writes. *)
Definition apply_writes {Catalog : Type}
  (set_column_pii_type :
     Catalog -> CatColumn.t -> PiiType -> string -> result unit * Catalog)
  (cat : Catalog) (calls : list catalog_call) : Catalog :=
  fold_left
    (fun cat (call : catalog_call) =>
       let '(column, ty, plugin) := call in
       snd (set_column_pii_type cat column ty plugin))
    calls cat.

(** Number of items a predicate holds of, as a Python [int]. *)
Definition count {A : Type} (p : A -> bool) (l : list A) : Z :=
  Z.of_nat (length (filter p l)).

(** A call that does not raise. *)
Definition never_raises {A : Type} (r : result A) : Prop :=
  forall e, r <> Raise e.

(** The world [w] with the records and calls of [h] put before its own:
    [w] as it is when the loggers and the call traces already hold what [h]
    holds. *)
Definition after_history {Catalog : Type} (h w : World Catalog)
  : World Catalog :=
  mkWorld (catalog w)
    (catalog_calls h ++ catalog_calls w)
    (detect_calls h ++ detect_calls w)
    (LOGGER h ++ LOGGER w)
    (scan_logger h ++ scan_logger w)
    (data_logger h ++ data_logger w).

(** A world with the given catalog and nothing logged or called yet. *)
Definition fresh {Catalog : Type} (cat : Catalog) : World Catalog :=
  mkWorld cat [] [] [] [] [].

(** A computation that only reads the catalog and only appends to the
    loggers and the call traces. *)
Definition framed {Catalog A : Type} (m : M Catalog A) : Prop :=
  forall h w, m (after_history h w) = (fst (m w), after_history h (snd (m w))).

(** A text begins with the word [w], letters compared without regard to
    case. *)
Fixpoint starts_with_ci (w l : list ascii) : bool :=
  match w, l with
  | [], _ => true
  | c :: w', x :: l' =>
      Ascii.eqb (Re.lower c) (Re.lower x) && starts_with_ci w' l'
  | _ :: _, [] => false
  end.

(** A text contains the word [w], letters compared without regard to case. *)
Fixpoint contains_ci (w l : list ascii) : bool :=
  starts_with_ci w l
  || match l with
     | [] => false
     | _ :: l' => contains_ci w l'
     end.

(** A text of one line: no line feed, except possibly as its last
    character. *)
Fixpoint one_line (l : list ascii) : bool :=
  match l with
  | [] => true
  | x :: l' =>
      match l' with
      | [] => true
      | _ :: _ => negb (Ascii.eqb x Re.LF) && one_line l'
      end
  end.

(** The pattern of an entry matches a column name. *)
Definition entry_matches (column : CatColumn.t) (e : PiiType * Re.Pattern)
  : bool :=
  match Re.match_ (snd e) (CatColumn.name column) with
  | Some _ => true
  | None => false
  end.

(** Two columns are the same column. *)
Definition column_eqb (c1 c2 : CatColumn.t) : bool :=
  String.eqb (CatColumn.name c1) (CatColumn.name c2)
  && String.eqb (CatColumn.fqdn c1) (CatColumn.fqdn c2).

(** The catalog calls made for a column. *)
Definition calls_for (column : CatColumn.t) (calls : list catalog_call)
  : list catalog_call :=
  filter (fun call => column_eqb (fst (fst call)) column) calls.

(** A sampled value that is absent ([None]) or empty (the empty text). *)
Definition empty_or_absent (val : option pyval) : bool :=
  match val with
  | None => true
  | Some (PyStr s) => String.eqb s ""
  | Some _ => false
  end.

(** The recognisers in the order phone, e-mail, credit card, street
    address, SSN, ZIP code, PO box, KTP, each with the type it stands for. *)
Definition recognizers (CommonRegex : crim)
  : list ((string -> list string) * PiiType) :=
  [ (phones CommonRegex, Phone);
    (emails CommonRegex, Email);
    (credit_cards CommonRegex, CreditCard);
    (street_addresses CommonRegex, Address);
    (ssn_numbers CommonRegex, SSN);
    (zip_codes CommonRegex, ZipCode);
    (po_boxes CommonRegex, PoBox);
    (ktp CommonRegex, KTP) ].

(** The entries of the name-pattern table listed before the entry of [t]. *)
Fixpoint entries_before (t : PiiType) (table : list (PiiType * Re.Pattern))
  : list (PiiType * Re.Pattern) :=
  match table with
  | [] => []
  | e :: table' =>
      if PiiType_eqb (fst e) t then [] else e :: entries_before t table'
  end.

(** A text of 8-bit characters, as the list of its characters. *)
Definition chars (s : string) : list ascii := list_ascii_of_string s.

(** A text with its letters in lower case, and a matcher state on it. *)
Definition lowercase (l : list ascii) : list ascii := map Re.lower l.

Definition lower_state (st : Re.state) : Re.state :=
  (fst st, lowercase (snd st)).

(** A log record holds a raw sampled value, among its arguments or in its
    [extra] dict. *)
Definition is_raw (v : logval) : bool :=
  match v with LVal _ => true | _ => false end.

Definition carries_raw (rec : LogRecord) : bool :=
  existsb is_raw (args rec) || existsb (fun kv => is_raw (snd kv)) (extra rec).

(** The sampled value a record carries under the key ["data"]. *)
Definition raw_of (rec : LogRecord) : option pyval :=
  match get "data" (extra rec) with
  | Some (LVal v) => Some v
  | _ => None
  end.

(** A text without line feed. *)
Definition no_LF (l : list ascii) : bool :=
  forallb (fun x => negb (Ascii.eqb x Re.LF)) l.

(** A pattern made of literals, sequence and alternation only, as the part
    of a table entry between [^.*] and [.*$] is. *)
Fixpoint simple (r : Re.regex) : bool :=
  match r with
  | Re.Lit _ | Re.Eps => true
  | Re.Seq r1 r2 | Re.Alt r1 r2 => simple r1 && simple r2
  | _ => false
  end.

(** The words such a pattern spells, in the order of its alternatives. *)
Fixpoint lang (r : Re.regex) : list (list ascii) :=
  match r with
  | Re.Lit c => [[c]]
  | Re.Eps => [[]]
  | Re.Seq r1 r2 => flat_map (fun w1 => map (app w1) (lang r2)) (lang r1)
  | Re.Alt r1 r2 => lang r1 ++ lang r2
  | _ => []
  end.

(** The part of a table entry between [^.*] and [.*$], and its words. *)
Definition entry_body (e : PiiType * Re.Pattern) : Re.regex :=
  match Re.pattern (snd e) with
  | Re.Seq Re.Bol (Re.Seq (Re.Star Re.Dot) (Re.Seq body _)) => body
  | r => r
  end.

Definition entry_words (e : PiiType * Re.Pattern) : list (list ascii) :=
  lang (entry_body e).

(** A column name holds one of the words of an entry, on one line. *)
Definition holds_word (column : CatColumn.t) (e : PiiType * Re.Pattern)
  : bool :=
  one_line (chars (CatColumn.name column))
  && existsb (fun w => contains_ci w (chars (CatColumn.name column)))
       (entry_words e).

(** The place of a type in the table: the number of entries before its
    own. *)
Definition rank (t : PiiType) : nat :=
  length (entries_before t ColumnNameRegexDetector.regex).

(* ===================================================================== *)
(** ** Sample collaborators, to run the drivers on *)
(* ===================================================================== *)

Module Sample.
Import Re.

(** A catalog that keeps, per column fqdn, the last label written, and
    refuses a column without fqdn. *)
Definition Catalog : Type := list (string * (PiiType * string)).

Fixpoint label (cat : Catalog) (k : string) (v : PiiType * string)
  : Catalog :=
  match cat with
  | [] => [(k, v)]
  | (k', v') :: cat' =>
      if String.eqb k k' then (k, v) :: cat' else (k', v') :: label cat' k v
  end.

Definition set_column_pii_type (cat : Catalog) (column : CatColumn.t)
  (pii_type : PiiType) (pii_plugin : string) : result unit * Catalog :=
  if String.eqb (CatColumn.fqdn column) ""
  then (Raise (Exception "ValueError" "column without fqdn"), cat)
  else (Ok tt, label cat (CatColumn.fqdn column) (pii_type, pii_plugin)).

Definition SMALL_TABLE_MAX : Z := 100.

Definition _filter_text_columns (columns : list CatColumn.t)
  : list CatColumn.t := columns.

(** Stand-ins for crim's patterns: [\d], [[a-z]] and a few shapes. *)
Definition digit : regex :=
  group (Lit "0") (map Lit ["1"; "2"; "3"; "4"; "5"; "6"; "7"; "8"; "9"]%char).

Definition letter : regex :=
  group (Lit "a")
    (map Lit ["b"; "c"; "d"; "e"; "f"; "g"; "h"; "i"; "j"; "k"; "l"; "m";
              "n"; "o"; "p"; "q"; "r"; "s"; "t"; "u"; "v"; "w"; "x"; "y";
              "z"]%char).

Fixpoint times (n : nat) (r : regex) : regex :=
  match n with
  | O => Eps
  | S n' => Seq r (times n' r)
  end.

Definition dash : regex := Lit "-".

(** ddd-ddd-dddd *)
Definition phone_shape : Pattern :=
  compile (Seq (times 3 digit) (Seq dash (Seq (times 3 digit)
            (Seq dash (times 4 digit))))) NOFLAG.

(** letters@letters *)
Definition email_shape : Pattern :=
  compile (Seq letter (Seq (Star letter) (Seq (Lit "@")
            (Seq letter (Star letter))))) IGNORECASE.

(** ddd-dd-dddd *)
Definition ssn_shape : Pattern :=
  compile (Seq (times 3 digit) (Seq dash (Seq (times 2 digit)
            (Seq dash (times 4 digit))))) NOFLAG.

(** ddddd *)
Definition zip_shape : Pattern := compile (times 5 digit) NOFLAG.

Definition CommonRegex : crim :=
  {| phones := findall phone_shape;
     emails := findall email_shape;
     credit_cards := fun _ => [];
     street_addresses := fun _ => [];
     ssn_numbers := findall ssn_shape;
     zip_codes := findall zip_shape;
     po_boxes := fun _ => [];
     ktp := fun _ => [] |}.

(** A third-party datum detector that labels every value it is shown. *)
Definition AnyValueDetector : DatumDetector.t :=
  DatumDetector.make "AnyValueDetector" (fun _ _ => Ok (Some Person)).

(** A third-party metadata detector that raises on a column without name
    and has nothing to say of the others. *)
Definition FragileDetector : MetadataDetector.t :=
  MetadataDetector.make "FragileDetector"
    (fun column =>
       if String.eqb (CatColumn.name column) ""
       then Raise (Exception "IndexError" "string index out of range")
       else Ok None).

(** A third-party datum detector that raises on a value that is not text
    and has nothing to say of the others. *)
Definition TextOnlyDetector : DatumDetector.t :=
  DatumDetector.make "TextOnlyDetector"
    (fun _ val =>
       match val with
       | PyStr _ => Ok None
       | _ => Raise (Exception "TypeError" "expected str")
       end).

(** A metadata detector that never matches. *)
Definition SilentDetector : MetadataDetector.t :=
  MetadataDetector.make "SilentDetector" (fun _ => Ok None).

Definition public : CatSchema.t := CatSchema.make "public".
Definition users : CatTable.t := CatTable.make "users".

Definition column (n : string) : CatColumn.t :=
  CatColumn.make n ("public.users." ++ n).

(** A column the sample catalog refuses. *)
Definition orphan : CatColumn.t := CatColumn.make "email" "".

Definition md (n : string) : md_item := (public, users, column n).

Definition dd (n : string) (val : option pyval) : dd_item :=
  (public, users, column n, val).

End Sample.

(** The drivers on the sample catalog. *)
Abbreviation sample_metadata_scan :=
  (metadata_scan Sample.Catalog Sample.set_column_pii_type).

Abbreviation sample_data_scan :=
  (data_scan Sample.Catalog Sample.set_column_pii_type
     Sample.SMALL_TABLE_MAX Sample._filter_text_columns).

(* ===================================================================== *)
(** ** The scan drivers: what a run does *)
(* ===================================================================== *)

Section ScanFacts.

Variable Catalog : Type.
Variable set_column_pii_type :
  Catalog -> CatColumn.t -> PiiType -> string -> result unit * Catalog.
Variable SMALL_TABLE_MAX : Z.
Variable _filter_text_columns : list CatColumn.t -> list CatColumn.t.

Local Abbreviation World := (World Catalog).
Local Abbreviation metadata_detectors :=
  (metadata_detectors Catalog set_column_pii_type).
Local Abbreviation metadata_item := (metadata_item Catalog set_column_pii_type).
Local Abbreviation metadata_loop := (metadata_loop Catalog set_column_pii_type).
Local Abbreviation metadata_scan := (metadata_scan Catalog set_column_pii_type).
Local Abbreviation data_detectors := (data_detectors Catalog set_column_pii_type).
Local Abbreviation data_item := (data_item Catalog set_column_pii_type).
Local Abbreviation data_loop := (data_loop Catalog set_column_pii_type).
Local Abbreviation data_scan :=
  (data_scan Catalog set_column_pii_type SMALL_TABLE_MAX _filter_text_columns).
Local Abbreviation apply_writes := (apply_writes set_column_pii_type).

Ltac step :=
  unfold bind, ret, call_detect, call_detect_datum,
    catalog_set_column_pii_type, LOGGER_log, scan_logger_info,
    data_logger_info in *;
  simpl in *.

(** A completed walk over the detectors of a metadata item. *)
Lemma metadata_detectors_ok ds column n (w : World) n' w' :
  metadata_detectors ds column n w = (Ok n', w') ->
  detect_calls w' =
    detect_calls w
      ++ map (fun d => (MetadataDetector.name d, column, None))
           (upto_first_match (md_probe column) ds)
  /\ LOGGER w' = LOGGER w
  /\ scan_logger w' = scan_logger w
  /\ data_logger w' = data_logger w
  /\ match first_match (md_probe column) ds with
     | Some (d, ty) =>
         matched (md_probe column) ds = true
         /\ n' = (n + 1)%Z
         /\ catalog_calls w' =
              catalog_calls w ++ [(column, ty, MetadataDetector.name d)]
         /\ set_column_pii_type (catalog w) column ty
              (MetadataDetector.name d) = (Ok tt, catalog w')
     | None =>
         matched (md_probe column) ds = false
         /\ n' = n
         /\ catalog_calls w' = catalog_calls w
         /\ catalog w' = catalog w
     end.
Proof.
  revert w.
  induction ds as [|d ds IH]; intros w H.
  - step. inversion H; subst; simpl.
    rewrite app_nil_r. repeat split; reflexivity.
  - simpl in H. unfold bind at 1 in H. unfold call_detect in H.
    change (MetadataDetector.detect d column) with (md_probe column d) in H.
    cbn [first_match upto_first_match matched existsb map]. unfold hits.
    destruct (md_probe column d) as [[ty|]|e] eqn:E.
    + step.
      destruct (set_column_pii_type (catalog w) column ty
                  (MetadataDetector.name d)) as [[[]|e] cat'] eqn:S;
        inversion H; subst; simpl.
      repeat split; reflexivity.
    + apply IH in H. simpl in H.
      destruct H as (Hd & HL & Hs & Hdl & Hm).
      rewrite Hd, <- app_assoc. simpl.
      repeat split; assumption.
    + discriminate H.
Qed.

Lemma metadata_loop_ok ds g : forall c n (w : World) c' n' w',
  metadata_loop ds g c n w = (Ok (c', n'), w') ->
  c' = (c + Z.of_nat (length g))%Z
  /\ n' = (n + count (md_matched ds) g)%Z
  /\ catalog_calls w' = catalog_calls w ++ flat_map (md_writes ds) g
  /\ detect_calls w' = detect_calls w ++ flat_map (md_probes ds) g
  /\ LOGGER w' =
       LOGGER w ++ map (fun it => scanning_record (md_column it)) g
  /\ scan_logger w' = scan_logger w
  /\ data_logger w' = data_logger w
  /\ catalog w' = apply_writes (catalog w) (flat_map (md_writes ds) g).
Proof.
  induction g as [|[[s t] column] g IH]; intros c n w c' n' w' H.
  - step. inversion H; subst. unfold count. simpl.
    rewrite !app_nil_r. repeat split; lia.
  - simpl in H. unfold bind at 1 in H.
    unfold metadata_item in H. unfold bind at 1 in H.
    unfold LOGGER_log at 1 in H. unfold bind at 1 in H.
    match type of H with
    | context [metadata_detectors ds column n ?w0] =>
        destruct (metadata_detectors ds column n w0) as [[n1|e] w1] eqn:D
    end; [|discriminate H].
    apply metadata_detectors_ok in D. simpl in D.
    destruct D as (Hd & HL & Hs & Hdl & Hm).
    unfold ret in H. simpl in H.
    apply IH in H.
    destruct H as (Hc & Hn & Hcc & Hdc & HLL & Hsl & Hdd & Hcat).
    unfold md_writes, md_probes, md_matched, count, md_column in *.
    simpl.
    rewrite Hdc, Hd, HLL, HL, Hsl, Hs, Hdd, Hdl, Hcc, Hcat.
    rewrite <- !app_assoc. simpl.
    destruct (first_match (md_probe column) ds) as [[d ty]|];
      destruct Hm as (Hmt & Hn1 & Hc1 & Hcat1);
      rewrite Hmt, Hc1; simpl.
    + rewrite Hcat1. simpl. rewrite <- app_assoc. simpl.
      repeat split; try reflexivity; lia.
    + rewrite Hcat1, ?app_nil_r.
      repeat split; try reflexivity; lia.
Qed.

(** A completed walk over the detectors of a data item with a value. *)
Lemma data_detectors_ok ds column val n (w : World) n' w' :
  data_detectors ds column val n w = (Ok n', w') ->
  detect_calls w' =
    detect_calls w
      ++ map (fun d => (DatumDetector.name d, column, Some val))
           (upto_first_match (dd_probe column val) ds)
  /\ match first_match (dd_probe column val) ds with
     | Some (d, ty) =>
         matched (dd_probe column val) ds = true
         /\ n' = (n + 1)%Z
         /\ catalog_calls w' =
              catalog_calls w ++ [(column, ty, DatumDetector.name d)]
         /\ set_column_pii_type (catalog w) column ty
              (DatumDetector.name d) = (Ok tt, catalog w')
         /\ LOGGER w' = LOGGER w ++ [has_record column ty]
         /\ scan_logger w' = scan_logger w ++ [safe_record column ty]
         /\ data_logger w' = data_logger w ++ [raw_record column val ty]
     | None =>
         matched (dd_probe column val) ds = false
         /\ n' = n
         /\ catalog_calls w' = catalog_calls w
         /\ catalog w' = catalog w
         /\ LOGGER w' = LOGGER w
         /\ scan_logger w' = scan_logger w
         /\ data_logger w' = data_logger w
     end.
Proof.
  revert w.
  induction ds as [|d ds IH]; intros w H.
  - step. inversion H; subst; simpl.
    rewrite app_nil_r. repeat split; reflexivity.
  - simpl in H. unfold bind at 1 in H. unfold call_detect_datum in H.
    change (DatumDetector.detect d column val)
      with (dd_probe column val d) in H.
    cbn [first_match upto_first_match matched existsb map]. unfold hits.
    destruct (dd_probe column val d) as [[ty|]|e] eqn:E.
    + step.
      destruct (set_column_pii_type (catalog w) column ty
                  (DatumDetector.name d)) as [[[]|e] cat'] eqn:S;
        inversion H; subst; simpl.
      repeat split; reflexivity.
    + apply IH in H. simpl in H.
      destruct H as (Hd & Hm).
      rewrite Hd, <- app_assoc. simpl.
      split; [reflexivity | assumption].
    + discriminate H.
Qed.

Lemma data_loop_ok ds g : forall c n (w : World) c' n' w',
  data_loop ds g c n w = (Ok (c', n'), w') ->
  c' = (c + Z.of_nat (length g))%Z
  /\ n' = (n + count (dd_matched ds) g)%Z
  /\ catalog_calls w' = catalog_calls w ++ flat_map (dd_writes ds) g
  /\ detect_calls w' = detect_calls w ++ flat_map (dd_probes ds) g
  /\ LOGGER w' = LOGGER w ++ flat_map (dd_LOGGER ds) g
  /\ scan_logger w' = scan_logger w ++ flat_map (dd_safe ds) g
  /\ data_logger w' = data_logger w ++ flat_map (dd_raw ds) g
  /\ catalog w' = apply_writes (catalog w) (flat_map (dd_writes ds) g).
Proof.
  induction g as [|[[[s t] column] val] g IH]; intros c n w c' n' w' H.
  - step. inversion H; subst. unfold count. simpl.
    rewrite !app_nil_r. repeat split; lia.
  - simpl in H. unfold bind at 1 in H.
    unfold data_item in H. unfold bind at 1 in H.
    unfold LOGGER_log at 1 in H. unfold bind at 1 in H.
    unfold dd_writes, dd_probes, dd_matched, dd_LOGGER, dd_safe, dd_raw,
      dd_hit, count, dd_column, dd_value in *.
    cbn [flat_map filter fst snd].
    destruct val as [v|].
    + match type of H with
      | context [data_detectors ds column v n ?w0] =>
          destruct (data_detectors ds column v n w0) as [[n1|e] w1] eqn:D
      end; [|discriminate H].
      apply data_detectors_ok in D. simpl in D.
      destruct D as (Hd & Hm).
      unfold ret in H. simpl in H.
      apply IH in H.
      destruct H as (Hc & Hn & Hcc & Hdc & HLL & Hsl & Hdd & Hcat).
      rewrite Hdc, Hd, HLL, Hsl, Hdd, Hcc, Hcat.
      destruct (first_match (dd_probe column v) ds) as [[d ty]|];
        destruct Hm as (Hmt & Hn1 & Hc1 & Hcat1 & HL1 & Hs1 & Hd1);
        rewrite Hmt, Hc1, HL1, Hs1, Hd1; simpl;
        rewrite <- ?app_assoc; simpl.
      * rewrite Hcat1. simpl. rewrite <- ?app_assoc. simpl.
        repeat split; try reflexivity; lia.
      * rewrite Hcat1, ?app_nil_r.
        repeat split; try reflexivity; lia.
    + unfold ret in H. simpl in H.
      apply IH in H.
      destruct H as (Hc & Hn & Hcc & Hdc & HLL & Hsl & Hdd & Hcat).
      simpl in *.
      rewrite Hdc, HLL, Hsl, Hdd, Hcc, Hcat.
      rewrite <- ?app_assoc. simpl.
      repeat split; try reflexivity; lia.
Qed.

(** A loop over [pre ++ post] is the loop over [pre], then the one over
    [post] from the counters and the world it left. *)
Lemma metadata_loop_app ds pre post : forall c n (w : World),
  metadata_loop ds (pre ++ post) c n w =
    match metadata_loop ds pre c n w with
    | (Ok cs, w1) => metadata_loop ds post (fst cs) (snd cs) w1
    | (Raise e, w1) => (Raise e, w1)
    end.
Proof.
  induction pre as [|item pre IH]; intros c n w.
  - reflexivity.
  - simpl. unfold bind.
    destruct (metadata_item ds item c n w) as [[cs|e] w1].
    + apply IH.
    + reflexivity.
Qed.

(** A walk over the detectors in which the first detector that does not
    answer [None] raises, or matches and makes the catalog raise. *)
Lemma metadata_detectors_fault ds1 d ds2 column n (w : World) e :
  Forall (fun d' => md_probe column d' = Ok None) ds1 ->
  (md_probe column d = Raise e
   \/ exists ty, md_probe column d = Ok (Some ty)
        /\ fst (set_column_pii_type (catalog w) column ty
                  (MetadataDetector.name d)) = Raise e) ->
  exists w',
    metadata_detectors (ds1 ++ d :: ds2) column n w = (Raise e, w')
    /\ detect_calls w' =
         detect_calls w
           ++ map (fun d => (MetadataDetector.name d, column, None))
                (ds1 ++ [d])
    /\ LOGGER w' = LOGGER w
    /\ scan_logger w' = scan_logger w
    /\ data_logger w' = data_logger w
    /\ (md_probe column d = Raise e ->
        catalog w' = catalog w /\ catalog_calls w' = catalog_calls w)
    /\ (forall ty, md_probe column d = Ok (Some ty) ->
        catalog_calls w' =
          catalog_calls w ++ [(column, ty, MetadataDetector.name d)]
        /\ catalog w' =
             snd (set_column_pii_type (catalog w) column ty
                    (MetadataDetector.name d))).
Proof.
  intros Hnone Hd. revert w Hd.
  induction Hnone as [|d' ds1 Hd' Hnone IH]; intros w Hd.
  - simpl. unfold bind at 1. unfold call_detect.
    change (MetadataDetector.detect d column) with (md_probe column d).
    destruct Hd as [Hr | (ty & Hs & Hc)].
    + rewrite Hr. eexists. split; [reflexivity|]. simpl.
      repeat split; try reflexivity; intros; congruence.
    + rewrite Hs. step.
      destruct (set_column_pii_type (catalog w) column ty
                  (MetadataDetector.name d)) as [r cat'] eqn:S.
      simpl in Hc. subst r.
      eexists. split; [reflexivity|]. simpl.
      repeat split; try reflexivity; intros; try congruence;
        match goal with
        | H : Ok (Some _) = Ok (Some _) |- _ => inversion H; subst
        end; rewrite ?S; reflexivity.
  - simpl. unfold bind at 1. unfold call_detect.
    change (MetadataDetector.detect d' column) with (md_probe column d').
    rewrite Hd'.
    match goal with
    | |- context [metadata_detectors _ column n ?w0] =>
        destruct (IH w0 Hd) as (w' & Hrun & Hdc & HL & Hs & Hdl & Hr & Hm)
    end.
    exists w'. simpl in *.
    split; [exact Hrun|].
    rewrite Hdc, <- app_assoc. simpl.
    repeat split; try assumption; try apply Hr; try apply Hm; assumption.
Qed.

(** Whatever its outcome, a walk over the detectors hands nothing to
    [LOGGER] and only adds to the catalog's calls. *)
Lemma metadata_detectors_any ds column n : forall (w : World) r w',
  metadata_detectors ds column n w = (r, w') ->
  LOGGER w' = LOGGER w
  /\ exists calls, catalog_calls w' = catalog_calls w ++ calls.
Proof.
  induction ds as [|d ds IH]; intros w r w' H.
  - step. inversion H; subst. split; [reflexivity|].
    exists []. now rewrite app_nil_r.
  - simpl in H. unfold bind at 1 in H. unfold call_detect in H.
    destruct (MetadataDetector.detect d column) as [[ty|]|e].
    + step.
      destruct (set_column_pii_type (catalog w) column ty
                  (MetadataDetector.name d)) as [[[]|e] cat'];
        inversion H; subst; simpl;
        (split; [reflexivity | eexists; reflexivity]).
    + apply IH in H. exact H.
    + inversion H; subst; simpl. split; [reflexivity|].
      exists []. now rewrite app_nil_r.
Qed.

Lemma metadata_loop_any ds g : forall c n (w : World) r w',
  metadata_loop ds g c n w = (r, w') ->
  exists recs calls,
    LOGGER w' = LOGGER w ++ recs
    /\ Forall (fun rec => levelno rec = DEBUG) recs
    /\ catalog_calls w' = catalog_calls w ++ calls.
Proof.
  induction g as [|[[s t] column] g IH]; intros c n w r w' H.
  - step. inversion H; subst. exists [], [].
    rewrite !app_nil_r. repeat split. constructor.
  - simpl in H. unfold bind at 1 in H.
    unfold metadata_item in H. unfold bind at 1 in H.
    unfold LOGGER_log at 1 in H. unfold bind at 1 in H.
    match type of H with
    | context [metadata_detectors ds column n ?w0] =>
        destruct (metadata_detectors ds column n w0) as [[n1|e] w1] eqn:D
    end; apply metadata_detectors_any in D; simpl in D;
      destruct D as (HL & calls1 & Hc1).
    + unfold ret in H. simpl in H. apply IH in H.
      destruct H as (recs & calls & HL2 & Hall & Hc2).
      exists (scanning_record column :: recs), (calls1 ++ calls).
      rewrite HL2, HL, Hc2, Hc1, <- !app_assoc. simpl.
      repeat split. constructor; [reflexivity | assumption].
    + inversion H; subst.
      exists [scanning_record column], calls1.
      rewrite HL, Hc1. repeat split.
      constructor; [reflexivity | constructor].
Qed.

Lemma data_loop_app ds pre post : forall c n (w : World),
  data_loop ds (pre ++ post) c n w =
    match data_loop ds pre c n w with
    | (Ok cs, w1) => data_loop ds post (fst cs) (snd cs) w1
    | (Raise e, w1) => (Raise e, w1)
    end.
Proof.
  induction pre as [|item pre IH]; intros c n w.
  - reflexivity.
  - simpl. unfold bind.
    destruct (data_item ds item c n w) as [[cs|e] w1].
    + apply IH.
    + reflexivity.
Qed.

(** The same fault, in the walk over the detectors of a data item: nothing
    is handed to the loggers once a call has raised. *)
Lemma data_detectors_fault ds1 d ds2 column val n (w : World) e :
  Forall (fun d' => dd_probe column val d' = Ok None) ds1 ->
  (dd_probe column val d = Raise e
   \/ exists ty, dd_probe column val d = Ok (Some ty)
        /\ fst (set_column_pii_type (catalog w) column ty
                  (DatumDetector.name d)) = Raise e) ->
  exists w',
    data_detectors (ds1 ++ d :: ds2) column val n w = (Raise e, w')
    /\ detect_calls w' =
         detect_calls w
           ++ map (fun d => (DatumDetector.name d, column, Some val))
                (ds1 ++ [d])
    /\ LOGGER w' = LOGGER w
    /\ scan_logger w' = scan_logger w
    /\ data_logger w' = data_logger w
    /\ (dd_probe column val d = Raise e ->
        catalog w' = catalog w /\ catalog_calls w' = catalog_calls w)
    /\ (forall ty, dd_probe column val d = Ok (Some ty) ->
        catalog_calls w' =
          catalog_calls w ++ [(column, ty, DatumDetector.name d)]
        /\ catalog w' =
             snd (set_column_pii_type (catalog w) column ty
                    (DatumDetector.name d))).
Proof.
  intros Hnone Hd. revert w Hd.
  induction Hnone as [|d' ds1 Hd' Hnone IH]; intros w Hd.
  - simpl. unfold bind at 1. unfold call_detect_datum.
    change (DatumDetector.detect d column val) with (dd_probe column val d).
    destruct Hd as [Hr | (ty & Hs & Hc)].
    + rewrite Hr. eexists. split; [reflexivity|]. simpl.
      repeat split; try reflexivity; intros; congruence.
    + rewrite Hs. step.
      destruct (set_column_pii_type (catalog w) column ty
                  (DatumDetector.name d)) as [r cat'] eqn:S.
      simpl in Hc. subst r.
      eexists. split; [reflexivity|]. simpl.
      repeat split; try reflexivity; intros; try congruence;
        match goal with
        | H : Ok (Some _) = Ok (Some _) |- _ => inversion H; subst
        end; rewrite ?S; reflexivity.
  - simpl. unfold bind at 1. unfold call_detect_datum.
    change (DatumDetector.detect d' column val)
      with (dd_probe column val d').
    rewrite Hd'.
    match goal with
    | |- context [data_detectors _ column val n ?w0] =>
        destruct (IH w0 Hd) as (w' & Hrun & Hdc & HL & Hs & Hdl & Hr & Hm)
    end.
    exists w'. simpl in *.
    split; [exact Hrun|].
    rewrite Hdc, <- app_assoc. simpl.
    repeat split; try assumption; try apply Hr; try apply Hm; assumption.
Qed.

Lemma data_detectors_any ds column val n : forall (w : World) r w',
  data_detectors ds column val n w = (r, w') ->
  (exists recs, LOGGER w' = LOGGER w ++ recs
     /\ Forall (fun rec => levelno rec = DEBUG) recs)
  /\ exists calls, catalog_calls w' = catalog_calls w ++ calls.
Proof.
  induction ds as [|d ds IH]; intros w r w' H.
  - step. inversion H; subst. split.
    + exists []. rewrite app_nil_r. split; [reflexivity | constructor].
    + exists []. now rewrite app_nil_r.
  - simpl in H. unfold bind at 1 in H. unfold call_detect_datum in H.
    destruct (DatumDetector.detect d column val) as [[ty|]|e].
    + step.
      destruct (set_column_pii_type (catalog w) column ty
                  (DatumDetector.name d)) as [[[]|e] cat'];
        inversion H; subst; simpl.
      * split; [|eexists; reflexivity].
        eexists. split; [reflexivity|].
        constructor; [reflexivity | constructor].
      * split; [|eexists; reflexivity].
        exists []. rewrite app_nil_r. split; [reflexivity | constructor].
    + apply IH in H. exact H.
    + inversion H; subst; simpl. split.
      * exists []. rewrite app_nil_r. split; [reflexivity | constructor].
      * exists []. now rewrite app_nil_r.
Qed.

Lemma data_loop_any ds g : forall c n (w : World) r w',
  data_loop ds g c n w = (r, w') ->
  exists recs calls,
    LOGGER w' = LOGGER w ++ recs
    /\ Forall (fun rec => levelno rec = DEBUG) recs
    /\ catalog_calls w' = catalog_calls w ++ calls.
Proof.
  induction g as [|[[[s t] column] val] g IH]; intros c n w r w' H.
  - step. inversion H; subst. exists [], [].
    rewrite !app_nil_r. repeat split. constructor.
  - simpl in H. unfold bind at 1 in H.
    unfold data_item in H. unfold bind at 1 in H.
    unfold LOGGER_log at 1 in H. unfold bind at 1 in H.
    destruct val as [v|].
    + match type of H with
      | context [data_detectors ds column v n ?w0] =>
          destruct (data_detectors ds column v n w0) as [[n1|e] w1] eqn:D
      end; apply data_detectors_any in D; simpl in D;
        destruct D as ((recs1 & HL & Hall1) & calls1 & Hc1).
      * unfold ret in H. simpl in H. apply IH in H.
        destruct H as (recs & calls & HL2 & Hall & Hc2).
        exists (scanning_record column :: recs1 ++ recs), (calls1 ++ calls).
        rewrite HL2, HL, Hc2, Hc1, <- !app_assoc. simpl.
        repeat split. constructor; [reflexivity|].
        apply Forall_app; split; assumption.
      * inversion H; subst.
        exists (scanning_record column :: recs1), calls1.
        rewrite HL, Hc1, <- app_assoc. repeat split.
        constructor; [reflexivity | assumption].
    + unfold ret in H. simpl in H. apply IH in H.
      destruct H as (recs & calls & HL2 & Hall & Hc2).
      exists (scanning_record column :: recs), calls.
      simpl in *. rewrite HL2, Hc2, <- !app_assoc. simpl.
      repeat split. constructor; [reflexivity | assumption].
Qed.

(** *** Scans without faults complete *)

Lemma metadata_detectors_total ds column n (w : World) :
  (forall cat c ty plugin,
     never_raises (fst (set_column_pii_type cat c ty plugin))) ->
  Forall (fun d => never_raises (md_probe column d)) ds ->
  exists n' w', metadata_detectors ds column n w = (Ok n', w').
Proof.
  intros Hcat Hds. revert w.
  induction Hds as [|d ds Hd _ IH]; intros w.
  - eexists. eexists. reflexivity.
  - simpl. unfold bind at 1. unfold call_detect.
    change (MetadataDetector.detect d column) with (md_probe column d).
    destruct (md_probe column d) as [[ty|]|e] eqn:E.
    + step. pose proof (Hcat (catalog w) column ty
                          (MetadataDetector.name d)) as Hc.
      destruct (set_column_pii_type (catalog w) column ty
                  (MetadataDetector.name d)) as [[[]|e] cat'].
      * eexists. eexists. reflexivity.
      * exfalso. apply (Hc e). reflexivity.
    + apply IH.
    + exfalso. apply (Hd e). reflexivity.
Qed.

Lemma metadata_loop_total ds g :
  (forall cat c ty plugin,
     never_raises (fst (set_column_pii_type cat c ty plugin))) ->
  Forall (fun it => Forall (fun d => never_raises (md_probe (md_column it) d))
                      ds) g ->
  forall c n (w : World),
    exists cs w', metadata_loop ds g c n w = (Ok cs, w').
Proof.
  intros Hcat Hg.
  induction Hg as [|[[s t] column] g Hit _ IH]; intros c n w.
  - eexists. eexists. reflexivity.
  - simpl. unfold bind at 1. unfold metadata_item. unfold bind at 1.
    unfold LOGGER_log at 1. unfold bind at 1.
    match goal with
    | |- context [metadata_detectors ds column n ?w0] =>
        destruct (metadata_detectors_total ds column n w0 Hcat Hit)
          as (n' & w' & ->)
    end.
    unfold ret. cbn [fst snd]. apply IH.
Qed.

Lemma data_detectors_total ds column val n (w : World) :
  (forall cat c ty plugin,
     never_raises (fst (set_column_pii_type cat c ty plugin))) ->
  Forall (fun d => never_raises (dd_probe column val d)) ds ->
  exists n' w', data_detectors ds column val n w = (Ok n', w').
Proof.
  intros Hcat Hds. revert w.
  induction Hds as [|d ds Hd _ IH]; intros w.
  - eexists. eexists. reflexivity.
  - simpl. unfold bind at 1. unfold call_detect_datum.
    change (DatumDetector.detect d column val) with (dd_probe column val d).
    destruct (dd_probe column val d) as [[ty|]|e] eqn:E.
    + step. pose proof (Hcat (catalog w) column ty
                          (DatumDetector.name d)) as Hc.
      destruct (set_column_pii_type (catalog w) column ty
                  (DatumDetector.name d)) as [[[]|e] cat'].
      * eexists. eexists. reflexivity.
      * exfalso. apply (Hc e). reflexivity.
    + apply IH.
    + exfalso. apply (Hd e). reflexivity.
Qed.

Lemma data_loop_total ds g :
  (forall cat c ty plugin,
     never_raises (fst (set_column_pii_type cat c ty plugin))) ->
  Forall (fun it =>
            forall v, dd_value it = Some v ->
              Forall (fun d => never_raises (dd_probe (dd_column it) v d)) ds)
    g ->
  forall c n (w : World),
    exists cs w', data_loop ds g c n w = (Ok cs, w').
Proof.
  intros Hcat Hg.
  induction Hg as [|[[[s t] column] val] g Hit _ IH]; intros c n w.
  - eexists. eexists. reflexivity.
  - simpl. unfold bind at 1. unfold data_item. unfold bind at 1.
    unfold LOGGER_log at 1. unfold bind at 1.
    destruct val as [v|].
    + match goal with
      | |- context [data_detectors ds column v n ?w0] =>
          destruct (data_detectors_total ds column v n w0 Hcat
                      (Hit v eq_refl))
            as (n' & w' & ->)
      end.
      unfold ret. cbn [fst snd]. apply IH.
    + unfold ret. cbn [fst snd]. apply IH.
Qed.

(** With detectors and a catalog that do not raise, both scans complete. *)
Lemma metadata_scan_total ds wg g (w : World) :
  (forall cat c ty plugin,
     never_raises (fst (set_column_pii_type cat c ty plugin))) ->
  Forall (fun it => Forall (fun d => never_raises (md_probe (md_column it) d))
                      ds) g ->
  exists w', metadata_scan ds wg g w = (Ok tt, w').
Proof.
  intros Hcat Hg. unfold metadata_scan, tqdm. unfold bind at 1.
  destruct (metadata_loop_total ds g Hcat Hg 0%Z 0%Z w) as (cs & w' & ->).
  eexists. reflexivity.
Qed.

Lemma data_scan_total ds wg g size (w : World) :
  (forall cat c ty plugin,
     never_raises (fst (set_column_pii_type cat c ty plugin))) ->
  Forall (fun it =>
            forall v, dd_value it = Some v ->
              Forall (fun d => never_raises (dd_probe (dd_column it) v d)) ds)
    g ->
  exists w', data_scan ds wg g size w = (Ok tt, w').
Proof.
  intros Hcat Hg. unfold data_scan, tqdm. unfold bind at 1.
  destruct (data_loop_total ds g Hcat Hg 0%Z 0%Z w) as (cs & w' & ->).
  eexists. reflexivity.
Qed.

(** *** Runs do not depend on what was logged before *)

Lemma framed_ret {A : Type} (a : A) : framed (Catalog := Catalog) (ret a).
Proof. intros h w. reflexivity. Qed.

Lemma framed_bind {A B : Type} (m : M Catalog A) (k : A -> M Catalog B) :
  framed m -> (forall a, framed (k a)) -> framed (bind m k).
Proof.
  intros Hm Hk h w. unfold bind. rewrite Hm.
  destruct (m w) as [[a|e] w1]; simpl.
  - apply Hk.
  - reflexivity.
Qed.

Lemma framed_LOGGER_log lv m a :
  framed (Catalog := Catalog) (LOGGER_log lv m a).
Proof.
  intros h w. unfold LOGGER_log, after_history. simpl.
  now rewrite app_assoc.
Qed.

Lemma framed_scan_logger_info m x :
  framed (Catalog := Catalog) (scan_logger_info m x).
Proof.
  intros h w. unfold scan_logger_info, after_history. simpl.
  now rewrite app_assoc.
Qed.

Lemma framed_data_logger_info m x :
  framed (Catalog := Catalog) (data_logger_info m x).
Proof.
  intros h w. unfold data_logger_info, after_history. simpl.
  now rewrite app_assoc.
Qed.

Lemma framed_catalog_set_column_pii_type column ty plugin :
  framed (catalog_set_column_pii_type Catalog set_column_pii_type
            column ty plugin).
Proof.
  intros h w. unfold catalog_set_column_pii_type, after_history. simpl.
  destruct (set_column_pii_type (catalog w) column ty plugin) as [r cat'].
  simpl. now rewrite app_assoc.
Qed.

Lemma framed_call_detect d column :
  framed (Catalog := Catalog) (call_detect d column).
Proof.
  intros h w. unfold call_detect, after_history. simpl.
  now rewrite app_assoc.
Qed.

Lemma framed_call_detect_datum d column val :
  framed (Catalog := Catalog) (call_detect_datum d column val).
Proof.
  intros h w. unfold call_detect_datum, after_history. simpl.
  now rewrite app_assoc.
Qed.

Create HintDb framed.
#[local] Hint Resolve framed_ret framed_LOGGER_log framed_scan_logger_info
  framed_data_logger_info framed_catalog_set_column_pii_type
  framed_call_detect framed_call_detect_datum : framed.

Ltac framed_tac :=
  repeat first
    [ apply framed_bind; [|intros ?]
    | solve [auto with framed]
    | match goal with
      | |- framed (match ?x with _ => _ end) => destruct x
      end ].

Lemma framed_metadata_detectors ds column : forall n,
  framed (metadata_detectors ds column n).
Proof.
  induction ds as [|d ds IH]; intros n; simpl; framed_tac.
Qed.

Lemma framed_metadata_loop ds g : forall c n,
  framed (metadata_loop ds g c n).
Proof.
  induction g as [|[[s t] column] g IH]; intros c n; simpl.
  - framed_tac.
  - apply framed_bind; [|intros cs; apply IH].
    unfold metadata_item. framed_tac; apply framed_metadata_detectors.
Qed.

Lemma framed_metadata_scan ds wg g : framed (metadata_scan ds wg g).
Proof.
  unfold metadata_scan. framed_tac; apply framed_metadata_loop.
Qed.

Lemma framed_data_detectors ds column val : forall n,
  framed (data_detectors ds column val n).
Proof.
  induction ds as [|d ds IH]; intros n; simpl; framed_tac.
Qed.

Lemma framed_data_loop ds g : forall c n,
  framed (data_loop ds g c n).
Proof.
  induction g as [|[[[s t] column] val] g IH]; intros c n; simpl.
  - framed_tac.
  - apply framed_bind; [|intros cs; apply IH].
    unfold data_item. framed_tac; apply framed_data_detectors.
Qed.

Lemma framed_data_scan ds wg g size : framed (data_scan ds wg g size).
Proof.
  unfold data_scan. framed_tac; apply framed_data_loop.
Qed.

(** A world is its own history followed by a fresh world on its catalog. *)
Lemma after_history_fresh (w : World) :
  after_history w (fresh (catalog w)) = w.
Proof.
  destruct w. unfold after_history, fresh. simpl.
  now rewrite !app_nil_r.
Qed.

(** A framed computation does, in any world, what it does in the fresh world
    on the same catalog, after the world's own history. *)
Lemma framed_from_fresh {A : Type} (m : M Catalog A) (w : World) :
  framed m ->
  m w = (fst (m (fresh (catalog w))),
         after_history w (snd (m (fresh (catalog w))))).
Proof.
  intros Hm. rewrite <- (after_history_fresh w) at 1. apply Hm.
Qed.

End ScanFacts.

(* ===================================================================== *)
(** ** The matcher on the patterns of the table *)
(* ===================================================================== *)

Section ReFacts.
Import Re.

Variable ic : bool.

Lemma run_seq r1 r2 st st1 st2 :
  In st1 (run ic r1 st) -> In st2 (run ic r2 st1) ->
  In st2 (run ic (Seq r1 r2) st).
Proof.
  intros H1 H2. simpl. apply in_flat_map. exists st1. split; assumption.
Qed.

(** [.*] may stop where it stands. *)
Lemma star_run_here step fuel st : In st (star_run step fuel st).
Proof.
  destruct fuel; simpl.
  - now left.
  - apply in_or_app. right. now left.
Qed.

(** [.*] may take a character that is not a line feed and go on. *)
Lemma star_dot_next x l pos st :
  Ascii.eqb x LF = false ->
  In st (run ic (Star Dot) (S pos, l)) ->
  In st (run ic (Star Dot) (pos, x :: l)).
Proof.
  intros Hx H. simpl in *. rewrite Hx. simpl.
  assert (E : (length l <? S (length l))%nat = true)
    by (apply Nat.ltb_lt; lia).
  rewrite E, app_nil_r. apply in_or_app. now left.
Qed.

Lemma run_seq_inv r1 r2 st st2 :
  In st2 (run ic (Seq r1 r2) st) ->
  exists st1, In st1 (run ic r1 st) /\ In st2 (run ic r2 st1).
Proof. simpl. intros H. apply in_flat_map in H. exact H. Qed.

Lemma one_line_tail x l : one_line (x :: l) = true -> one_line l = true.
Proof.
  destruct l as [|y l]; [reflexivity|].
  cbn [one_line]. intros H. apply andb_true_iff in H. apply H.
Qed.

(** [.*$] matches at the start of a text of one line. *)
Lemma run_to_eol : forall l pos,
  one_line l = true ->
  exists st, In st (run ic (Seq (Star Dot) Eol) (pos, l)).
Proof.
  induction l as [|x l IH]; intros pos Hl.
  - exists (pos, []). simpl. now left.
  - destruct l as [|y l].
    + destruct (Ascii.eqb x LF) eqn:Hx.
      * exists (pos, [x]).
        apply run_seq with (st1 := (pos, [x])).
        -- apply star_run_here.
        -- simpl. rewrite Hx. now left.
      * exists (S pos, []).
        apply run_seq with (st1 := (S pos, [])).
        -- apply star_dot_next; [exact Hx | apply star_run_here].
        -- simpl. now left.
    + cbn [one_line] in Hl. apply andb_true_iff in Hl.
      destruct Hl as [Hx Hl]. apply negb_true_iff in Hx.
      destruct (IH (S pos) Hl) as (st & Hst).
      apply run_seq_inv in Hst. destruct Hst as (mid & Hmid & Hst).
      exists st. apply run_seq with (st1 := mid); [|exact Hst].
      apply star_dot_next; assumption.
Qed.

End ReFacts.

(** A word of the pattern matches, under IGNORECASE, where the text begins
    with it; the rest of [^.*word.*$] follows on a text of one line. *)
Lemma run_word_to_eol w : forall l pos,
  starts_with_ci (list_ascii_of_string w) l = true ->
  one_line l = true ->
  exists st,
    In st (Re.run true (Re.Seq (Re.lit w) (Re.Seq (Re.Star Re.Dot) Re.Eol))
             (pos, l)).
Proof.
  induction w as [|c w IH]; intros l pos Hw Hl.
  - destruct (run_to_eol true l pos Hl) as (st & Hst).
    exists st. apply run_seq with (st1 := (pos, l)); [|exact Hst].
    simpl. now left.
  - destruct l as [|x l]; [discriminate Hw|].
    cbn [list_ascii_of_string starts_with_ci] in Hw.
    apply andb_true_iff in Hw. destruct Hw as [Hc Hw].
    apply one_line_tail in Hl.
    destruct (IH l (S pos) Hw Hl) as (st & Hst).
    apply run_seq_inv in Hst. destruct Hst as (mid & Hmid & Hst).
    exists st. apply run_seq with (st1 := mid); [|exact Hst].
    cbn [Re.lit]. apply run_seq with (st1 := (S pos, l)); [|exact Hmid].
    simpl. unfold Re.chr_eq. rewrite Hc. now left.
Qed.

Lemma run_contains_to_eol w : forall l pos,
  contains_ci (list_ascii_of_string w) l = true ->
  one_line l = true ->
  exists st,
    In st (Re.run true
             (Re.Seq (Re.Star Re.Dot)
                (Re.Seq (Re.lit w) (Re.Seq (Re.Star Re.Dot) Re.Eol)))
             (pos, l)).
Proof.
  induction l as [|x l IH]; intros pos Hw Hl.
  - simpl in Hw. rewrite orb_false_r in Hw.
    destruct (run_word_to_eol w [] pos Hw Hl) as (st & Hst).
    exists st. apply run_seq with (st1 := (pos, [])); [|exact Hst].
    apply star_run_here.
  - cbn [contains_ci] in Hw. apply orb_true_iff in Hw.
    destruct Hw as [Hw | Hw].
    + destruct (run_word_to_eol w (x :: l) pos Hw Hl) as (st & Hst).
      exists st. apply run_seq with (st1 := (pos, x :: l)); [|exact Hst].
      apply star_run_here.
    + destruct l as [|y l].
      * simpl in Hw. rewrite orb_false_r in Hw.
        assert (Hw' : starts_with_ci (list_ascii_of_string w) [x] = true).
        { destruct (list_ascii_of_string w); [reflexivity | discriminate]. }
        destruct (run_word_to_eol w [x] pos Hw' Hl) as (st & Hst).
        exists st. apply run_seq with (st1 := (pos, [x])); [|exact Hst].
        apply star_run_here.
      * cbn [one_line] in Hl. apply andb_true_iff in Hl.
        destruct Hl as [Hx Hl]. apply negb_true_iff in Hx.
        destruct (IH (S pos) Hw Hl) as (st & Hst).
        apply run_seq_inv in Hst. destruct Hst as (mid & Hmid & Hst).
        exists st. apply run_seq with (st1 := mid); [|exact Hst].
        apply star_dot_next; assumption.
Qed.

(** [^.*word.*$] with IGNORECASE matches every text of one line that
    contains the word. *)
Lemma wild_word_matches w s :
  contains_ci (list_ascii_of_string w) (list_ascii_of_string s) = true ->
  one_line (list_ascii_of_string s) = true ->
  Re.match_ (Re.compile (Re.wild (Re.lit w)) Re.IGNORECASE) s <> None.
Proof.
  intros Hw Hl.
  destruct (run_contains_to_eol w _ 0 Hw Hl) as (st & Hst).
  unfold Re.match_, Re.wild. cbn [Re.ignorecase Re.flags Re.pattern].
  assert (H : In st (Re.run true
                       (Re.Seq Re.Bol
                          (Re.Seq (Re.Star Re.Dot)
                             (Re.Seq (Re.lit w)
                                (Re.Seq (Re.Star Re.Dot) Re.Eol))))
                       (0, list_ascii_of_string s))).
  { apply run_seq with (st1 := (0, list_ascii_of_string s)); [|exact Hst].
    simpl. now left. }
  clear Hst. revert H.
  match goal with |- In _ ?R -> _ => generalize R end.
  intros [|st0 res] H; [exfalso; exact H | discriminate].
Qed.

(** *** IGNORECASE: the case of the text does not matter *)

Lemma lower_idem x : Re.lower (Re.lower x) = Re.lower x.
Proof. destruct x as [[] [] [] [] [] [] [] []]; reflexivity. Qed.

Lemma lower_LF x : Ascii.eqb (Re.lower x) Re.LF = Ascii.eqb x Re.LF.
Proof. destruct x as [[] [] [] [] [] [] [] []]; reflexivity. Qed.

Lemma map_flat_map {A B C : Type} (g : B -> C) (f : A -> list B) l :
  map g (flat_map f l) = flat_map (fun a => map g (f a)) l.
Proof.
  induction l as [|a l IH]; [reflexivity|].
  simpl. rewrite map_app, IH. reflexivity.
Qed.

Lemma flat_map_map {A B C : Type} (f : B -> list C) (g : A -> B) l :
  flat_map f (map g l) = flat_map (fun a => f (g a)) l.
Proof.
  induction l as [|a l IH]; [reflexivity|].
  simpl. rewrite IH. reflexivity.
Qed.

Lemma star_run_lower step :
  (forall st, step (lower_state st) = map lower_state (step st)) ->
  forall fuel st,
    Re.star_run step fuel (lower_state st) =
      map lower_state (Re.star_run step fuel st).
Proof.
  intros Hstep. induction fuel as [|fuel IH]; intros st; [reflexivity|].
  cbn [Re.star_run]. rewrite map_app, Hstep, flat_map_map, map_flat_map.
  f_equal. apply flat_map_ext. intros st'.
  unfold lower_state at 1 2. cbn [snd]. unfold lowercase.
  rewrite !length_map.
  destruct (length (snd st') <? length (snd st))%nat; [|reflexivity].
  apply IH.
Qed.

(** Under IGNORECASE the matcher does on the lower-cased text what it does
    on the text. *)
Lemma run_lower r : forall st,
  Re.run true r (lower_state st) = map lower_state (Re.run true r st).
Proof.
  induction r as [c| | |r1 IH1 r2 IH2|r1 IH1 r2 IH2|r IH| |];
    intros [pos l].
  - destruct l as [|x l]; [reflexivity|].
    unfold lower_state. simpl. unfold Re.chr_eq.
    rewrite lower_idem.
    destruct (Ascii.eqb (Re.lower c) (Re.lower x)); reflexivity.
  - destruct l as [|x l]; [reflexivity|].
    unfold lower_state. simpl. rewrite lower_LF.
    destruct (Ascii.eqb x Re.LF); reflexivity.
  - reflexivity.
  - cbn [Re.run]. rewrite IH1, flat_map_map, map_flat_map.
    apply flat_map_ext. intros st'. apply IH2.
  - cbn [Re.run]. rewrite map_app, IH1, IH2. reflexivity.
  - cbn [Re.run].
    replace (length (snd (lower_state (pos, l)))) with (length l)
      by (unfold lower_state, lowercase; cbn [snd]; now rewrite length_map).
    apply (star_run_lower (Re.run true r) IH).
  - unfold lower_state. simpl. destruct (pos =? 0)%nat; reflexivity.
  - destruct l as [|x [|y l]]; try reflexivity.
    unfold lower_state. simpl. rewrite lower_LF.
    destruct (Ascii.eqb x Re.LF); reflexivity.
Qed.

(** An IGNORECASE pattern matches two texts that differ only in the case of
    their letters alike. *)
Lemma match_ignorecase ex s1 s2 :
  Re.flags ex = Re.IGNORECASE ->
  lowercase (chars s1) = lowercase (chars s2) ->
  Re.match_ ex s1 = Re.match_ ex s2.
Proof.
  intros Hf Hs. unfold Re.match_, Re.ignorecase. rewrite Hf.
  pose proof (run_lower (Re.pattern ex) (0, chars s1)) as H1.
  pose proof (run_lower (Re.pattern ex) (0, chars s2)) as H2.
  unfold lower_state at 1 in H1. unfold lower_state at 1 in H2.
  cbn [fst snd] in H1, H2. rewrite Hs, H2 in H1. unfold chars in *.
  destruct (Re.run true (Re.pattern ex) (0, list_ascii_of_string s1))
    as [|[p1 l1] res1];
    destruct (Re.run true (Re.pattern ex) (0, list_ascii_of_string s2))
      as [|[p2 l2] res2];
    try discriminate H1; [reflexivity|].
  simpl in H1. inversion H1. reflexivity.
Qed.

(** *** Anchors: a match spans the whole text *)

Lemma star_run_span step :
  (forall st st', In st' (step st) ->
     fst st' + length (snd st') = fst st + length (snd st)) ->
  forall fuel st st', In st' (Re.star_run step fuel st) ->
    fst st' + length (snd st') = fst st + length (snd st).
Proof.
  intros Hstep. induction fuel as [|fuel IH]; intros st st' H.
  - simpl in H. destruct H as [<- | []]. reflexivity.
  - cbn [Re.star_run] in H. apply in_app_or in H.
    destruct H as [H | H];
      [|simpl in H; destruct H as [<- | []]; reflexivity].
    apply in_flat_map in H. destruct H as (mid & Hmid & H).
    destruct (length (snd mid) <? length (snd st))%nat; [|destruct H].
    rewrite (IH _ _ H). apply Hstep. exact Hmid.
Qed.

(** The matcher keeps count: the position reached plus the text left is the
    length of the whole text. *)
Lemma run_span ic r : forall st st',
  In st' (Re.run ic r st) ->
  fst st' + length (snd st') = fst st + length (snd st).
Proof.
  induction r as [c| | |r1 IH1 r2 IH2|r1 IH1 r2 IH2|r IH| |];
    intros [pos l] st' H; cbn [Re.run fst snd] in H.
  - destruct l as [|x l]; [destruct H|].
    destruct (Re.chr_eq ic c x); [|destruct H].
    destruct H as [<- | []]. simpl. lia.
  - destruct l as [|x l]; [destruct H|].
    destruct (Ascii.eqb x Re.LF); [destruct H|].
    destruct H as [<- | []]. simpl. lia.
  - destruct H as [<- | []]. reflexivity.
  - apply in_flat_map in H. destruct H as (mid & Hmid & H).
    rewrite (IH2 _ _ H). apply IH1. exact Hmid.
  - apply in_app_or in H. destruct H as [H | H];
      [apply (IH1 _ _ H) | apply (IH2 _ _ H)].
  - apply (star_run_span (Re.run ic r) IH _ _ _ H).
  - destruct (pos =? 0)%nat; [|destruct H].
    destruct H as [<- | []]. reflexivity.
  - destruct l as [|x [|y l]].
    + destruct H as [<- | []]. reflexivity.
    + destruct (Ascii.eqb x Re.LF); [|destruct H].
      destruct H as [<- | []]. reflexivity.
    + destruct H.
Qed.

(** After [$] nothing is left of the text but, at most, a last line feed. *)
Lemma run_eol ic st st' :
  In st' (Re.run ic Re.Eol st) -> (length (snd st') <= 1)%nat.
Proof.
  destruct st as [pos l]. cbn [Re.run snd].
  destruct l as [|x [|y l]]; intros H.
  - destruct H as [<- | []]. simpl. lia.
  - destruct (Ascii.eqb x Re.LF); [|destruct H].
    destruct H as [<- | []]. simpl. lia.
  - destruct H.
Qed.

(** A match of [^.*body.*$] ends at the end of the text, or just before a
    last line feed. *)
Lemma wild_spans_text (ic : bool) body s n :
  Re.match_ (Re.compile (Re.wild body)
               (if ic then Re.IGNORECASE else Re.NOFLAG)) s = Some n ->
  n = String.length s \/ S n = String.length s.
Proof.
  unfold Re.match_, Re.ignorecase. cbn [Re.flags Re.pattern].
  assert (Hic : match (if ic then Re.IGNORECASE else Re.NOFLAG) with
                | Re.IGNORECASE => true
                | Re.NOFLAG => false
                end = ic) by (destruct ic; reflexivity).
  rewrite Hic.
  destruct (Re.run ic (Re.wild body) (0, list_ascii_of_string s))
    as [|st res] eqn:E; [discriminate|].
  intros H. inversion H; subst n.
  assert (Hin : In st (Re.run ic (Re.wild body)
                         (0, list_ascii_of_string s)))
    by (rewrite E; now left).
  pose proof (run_span _ _ _ _ Hin) as Hspan. cbn [fst snd] in Hspan.
  unfold Re.wild in Hin.
  apply run_seq_inv in Hin. destruct Hin as (s1 & _ & Hin).
  apply run_seq_inv in Hin. destruct Hin as (s2 & _ & Hin).
  apply run_seq_inv in Hin. destruct Hin as (s3 & _ & Hin).
  apply run_seq_inv in Hin. destruct Hin as (s4 & _ & Hin).
  apply run_eol in Hin.
  assert (Hlen : length (list_ascii_of_string s) = String.length s).
  { clear. induction s as [|c s IH]; [reflexivity|]. simpl. now rewrite IH. }
  rewrite Hlen in Hspan. lia.
Qed.

(* ===================================================================== *)
(** ** First match wins: the vocabulary, related *)
(* ===================================================================== *)

Section FirstMatchFacts.
Context {D : Type}.
Variable probe : D -> result (option PiiType).

Lemma first_match_matched ds :
  matched probe ds =
    match first_match probe ds with Some _ => true | None => false end.
Proof.
  induction ds as [|d ds IH]; [reflexivity|].
  cbn [matched existsb first_match]. unfold hits at 1.
  destruct (probe d) as [[ty|]|e]; simpl; exact IH || reflexivity.
Qed.

(** When the detectors before [d] have no result and [d] has one, [d] is
    the first match, and the detectors after [d] are not consulted. *)
Lemma first_match_split ds1 d ds2 ty :
  Forall (fun d' => hits probe d' = false) ds1 ->
  probe d = Ok (Some ty) ->
  first_match probe (ds1 ++ d :: ds2) = Some (d, ty)
  /\ upto_first_match probe (ds1 ++ d :: ds2) = ds1 ++ [d].
Proof.
  intros Hnone Hd.
  induction Hnone as [|d' ds1 Hd' Hnone IH]; simpl.
  - unfold hits. rewrite Hd. split; reflexivity.
  - rewrite Hd'. destruct IH as [IH1 IH2]. rewrite IH2.
    unfold hits in Hd'.
    destruct (probe d') as [[ty'|]|e]; try discriminate Hd';
      split; (exact IH1 || reflexivity).
Qed.

Lemma upto_first_match_none ds :
  matched probe ds = false -> upto_first_match probe ds = ds.
Proof.
  induction ds as [|d ds IH]; [reflexivity|].
  cbn [matched existsb upto_first_match]. intros H.
  apply orb_false_iff in H. destruct H as [Hd H].
  rewrite Hd. f_equal. apply IH. exact H.
Qed.

End FirstMatchFacts.

Lemma md_writes_length ds (it : md_item) :
  length (md_writes ds it) = if md_matched ds it then 1%nat else 0%nat.
Proof.
  unfold md_writes, md_matched. rewrite first_match_matched.
  destruct (first_match (md_probe (md_column it)) ds) as [[d ty]|];
    reflexivity.
Qed.

Lemma dd_hit_matched ds (it : dd_item) :
  dd_matched ds it =
    match dd_hit ds it with Some _ => true | None => false end.
Proof.
  unfold dd_hit, dd_matched.
  destruct (dd_value it) as [v|]; [|reflexivity].
  rewrite first_match_matched.
  destruct (first_match (dd_probe (dd_column it) v) ds) as [[d ty]|];
    reflexivity.
Qed.

(** Lists built item by item, one element for each item that satisfies [p],
    have as many elements as there are such items. *)
Lemma flat_map_count {A B : Type} (f : A -> list B) (p : A -> bool) l :
  (forall a, length (f a) = if p a then 1%nat else 0%nat) ->
  Z.of_nat (length (flat_map f l)) = count p l.
Proof.
  intros Hf. unfold count. f_equal.
  induction l as [|a l IH]; [reflexivity|].
  simpl. rewrite length_app, Hf, IH.
  destruct (p a); reflexivity.
Qed.

Lemma md_writes_count ds g :
  Z.of_nat (length (flat_map (md_writes ds) g)) = count (md_matched ds) g.
Proof. apply flat_map_count. apply md_writes_length. Qed.

Lemma dd_writes_count ds g :
  Z.of_nat (length (flat_map (dd_writes ds) g)) = count (dd_matched ds) g.
Proof.
  apply flat_map_count. intros it. rewrite dd_hit_matched.
  unfold dd_writes. destruct (dd_hit ds it) as [[[d ty] v]|]; reflexivity.
Qed.

Lemma dd_safe_count ds g :
  Z.of_nat (length (flat_map (dd_safe ds) g)) = count (dd_matched ds) g.
Proof.
  apply flat_map_count. intros it. rewrite dd_hit_matched.
  unfold dd_safe. destruct (dd_hit ds it) as [[[d ty] v]|]; reflexivity.
Qed.

Lemma dd_raw_count ds g :
  Z.of_nat (length (flat_map (dd_raw ds) g)) = count (dd_matched ds) g.
Proof.
  apply flat_map_count. intros it. rewrite dd_hit_matched.
  unfold dd_raw. destruct (dd_hit ds it) as [[[d ty] v]|]; reflexivity.
Qed.

Lemma column_eqb_eq c1 c2 : column_eqb c1 c2 = true <-> c1 = c2.
Proof.
  unfold column_eqb. destruct c1 as [n1 f1], c2 as [n2 f2]. simpl.
  rewrite andb_true_iff, !String.eqb_eq. split.
  - intros [-> ->]. reflexivity.
  - intros H. inversion H. split; reflexivity.
Qed.

Lemma filter_none {A : Type} (p : A -> bool) (l : list A) :
  (forall a, In a l -> p a = false) -> filter p l = [].
Proof.
  induction l as [|a l IH]; intros H; [reflexivity|].
  simpl. rewrite (H a (or_introl eq_refl)).
  apply IH. intros b Hb. apply H. right. exact Hb.
Qed.

(** When the items of an enumeration are on different columns, the calls
    made item by item, at most one per item and on the item's column, hold
    at most one call per column. *)
Lemma calls_for_once {A : Type} (col : A -> CatColumn.t)
  (f : A -> list catalog_call) (l : list A) :
  (forall a, (length (f a) <= 1)%nat) ->
  (forall a call, In call (f a) -> fst (fst call) = col a) ->
  NoDup (map col l) ->
  forall c, (length (calls_for c (flat_map f l)) <= 1)%nat.
Proof.
  intros Hlen Hcol Hnd c.
  induction l as [|a l IH]; [simpl; lia|].
  simpl in Hnd. inversion Hnd as [|x xs Hnotin Hnd']; subst.
  simpl. unfold calls_for in *. rewrite filter_app, length_app.
  specialize (IH Hnd').
  destruct (column_eqb (col a) c) eqn:E.
  - apply column_eqb_eq in E. subst c.
    rewrite (filter_none _ (flat_map f l)).
    + pose proof (Hlen a) as Ha.
      pose proof (filter_length_le
                    (fun call : catalog_call =>
                       column_eqb (fst (fst call)) (col a)) (f a)).
      unfold catalog_call in *. simpl. lia.
    + intros call Hin. apply in_flat_map in Hin.
      destruct Hin as (b & Hb & Hin).
      rewrite (Hcol b call Hin).
      destruct (column_eqb (col b) (col a)) eqn:E2; [|reflexivity].
      apply column_eqb_eq in E2. exfalso. apply Hnotin.
      rewrite <- E2. apply in_map. exact Hb.
  - rewrite (filter_none _ (f a)).
    + simpl. exact IH.
    + intros call Hin. rewrite (Hcol a call Hin). exact E.
Qed.

Lemma dd_raw_values ds g :
  map raw_of (flat_map (dd_raw ds) g) =
    map dd_value (filter (dd_matched ds) g).
Proof.
  induction g as [|it g IH]; [reflexivity|].
  simpl. rewrite map_app, IH, dd_hit_matched.
  unfold dd_raw, dd_hit.
  destruct (dd_value it) as [v|] eqn:Ev; [|reflexivity].
  destruct (first_match (dd_probe (dd_column it) v) ds) as [[d ty]|];
    [|reflexivity].
  simpl. rewrite Ev. reflexivity.
Qed.

Lemma dd_safe_no_raw ds g :
  Forall (fun rec => carries_raw rec = false) (flat_map (dd_safe ds) g).
Proof.
  induction g as [|it g IH]; [constructor|].
  simpl. apply Forall_app. split; [|exact IH].
  unfold dd_safe. destruct (dd_hit ds it) as [[[d ty] v]|]; constructor.
  - reflexivity.
  - constructor.
Qed.

(** The first detector with a result decides what an item gets and where
    the walk over the detectors stops. *)
Lemma md_item_first_match ds1 d ds2 ty (it : md_item) :
  Forall (fun d' => hits (md_probe (md_column it)) d' = false) ds1 ->
  md_probe (md_column it) d = Ok (Some ty) ->
  md_writes (ds1 ++ d :: ds2) it =
    [(md_column it, ty, MetadataDetector.name d)]
  /\ md_probes (ds1 ++ d :: ds2) it =
       map (fun d => (MetadataDetector.name d, md_column it, None))
         (ds1 ++ [d]).
Proof.
  intros Hnone Hd.
  destruct (first_match_split _ ds1 d ds2 ty Hnone Hd) as [Hfm Hup].
  unfold md_writes, md_probes. rewrite Hfm, Hup. split; reflexivity.
Qed.

Lemma dd_item_first_match ds1 d ds2 ty (it : dd_item) v :
  dd_value it = Some v ->
  Forall (fun d' => hits (dd_probe (dd_column it) v) d' = false) ds1 ->
  dd_probe (dd_column it) v d = Ok (Some ty) ->
  dd_writes (ds1 ++ d :: ds2) it =
    [(dd_column it, ty, DatumDetector.name d)]
  /\ dd_probes (ds1 ++ d :: ds2) it =
       map (fun d => (DatumDetector.name d, dd_column it, Some v))
         (ds1 ++ [d]).
Proof.
  intros Hv Hnone Hd.
  destruct (first_match_split _ ds1 d ds2 ty Hnone Hd) as [Hfm Hup].
  unfold dd_writes, dd_probes, dd_hit. rewrite Hv, Hfm, Hup.
  split; reflexivity.
Qed.

Lemma dd_writes_length ds (it : dd_item) :
  (length (dd_writes ds it) <= 1)%nat.
Proof.
  unfold dd_writes. destruct (dd_hit ds it) as [[[d ty] v]|]; simpl; lia.
Qed.

Lemma md_writes_once ds g :
  NoDup (map md_column g) ->
  forall c, (length (calls_for c (flat_map (md_writes ds) g)) <= 1)%nat.
Proof.
  intros Hnd. apply calls_for_once with (col := md_column).
  - intros it. rewrite md_writes_length. destruct (md_matched ds it); lia.
  - intros it call Hin. unfold md_writes in Hin.
    destruct (first_match (md_probe (md_column it)) ds) as [[d ty]|];
      [|destruct Hin].
    destruct Hin as [<- | []]. reflexivity.
  - exact Hnd.
Qed.

Lemma dd_writes_once ds g :
  NoDup (map dd_column g) ->
  forall c, (length (calls_for c (flat_map (dd_writes ds) g)) <= 1)%nat.
Proof.
  intros Hnd. apply calls_for_once with (col := dd_column).
  - apply dd_writes_length.
  - intros it call Hin. unfold dd_writes in Hin.
    destruct (dd_hit ds it) as [[[d ty] v]|]; [|destruct Hin].
    destruct Hin as [<- | []]. reflexivity.
  - exact Hnd.
Qed.

Lemma md_records_debug (g : list md_item) :
  Forall (fun rec => levelno rec = DEBUG)
    (map (fun it => scanning_record (md_column it)) g).
Proof.
  apply Forall_forall. intros rec Hin. apply in_map_iff in Hin.
  destruct Hin as (it & <- & _). reflexivity.
Qed.

Lemma dd_records_debug ds (g : list dd_item) :
  Forall (fun rec => levelno rec = DEBUG) (flat_map (dd_LOGGER ds) g).
Proof.
  apply Forall_forall. intros rec Hin. apply in_flat_map in Hin.
  destruct Hin as (it & _ & Hin). unfold dd_LOGGER in Hin.
  destruct Hin as [<- | Hin]; [reflexivity|].
  destruct (dd_hit ds it) as [[[d ty] v]|]; [|destruct Hin].
  destruct Hin as [<- | []]. reflexivity.
Qed.

(* ===================================================================== *)
(** ** The claims on the scan drivers *)
(* ===================================================================== *)

Section Claims.

Variable Catalog : Type.
Variable set_column_pii_type :
  Catalog -> CatColumn.t -> PiiType -> string -> result unit * Catalog.
Variable SMALL_TABLE_MAX : Z.
Variable _filter_text_columns : list CatColumn.t -> list CatColumn.t.

Local Abbreviation World := (World Catalog).
Local Abbreviation metadata_scan :=
  (metadata_scan Catalog set_column_pii_type).
Local Abbreviation metadata_loop :=
  (metadata_loop Catalog set_column_pii_type).
Local Abbreviation metadata_item :=
  (metadata_item Catalog set_column_pii_type).
Local Abbreviation data_item := (data_item Catalog set_column_pii_type).
Local Abbreviation data_loop := (data_loop Catalog set_column_pii_type).
Local Abbreviation data_scan :=
  (data_scan Catalog set_column_pii_type SMALL_TABLE_MAX _filter_text_columns).

(** A completed [metadata_scan], in full. *)
Lemma metadata_scan_ok ds wg g (w w' : World) :
  metadata_scan ds wg g w = (Ok tt, w') ->
  LOGGER w' =
    LOGGER w ++ map (fun it => scanning_record (md_column it)) g
      ++ [summary_record (Z.of_nat (length g)) (count (md_matched ds) g)]
  /\ catalog_calls w' = catalog_calls w ++ flat_map (md_writes ds) g
  /\ detect_calls w' = detect_calls w ++ flat_map (md_probes ds) g
  /\ scan_logger w' = scan_logger w
  /\ data_logger w' = data_logger w
  /\ catalog w' =
       apply_writes set_column_pii_type (catalog w)
         (flat_map (md_writes ds) g).
Proof.
  unfold metadata_scan, tqdm. unfold bind at 1. intros H.
  destruct (metadata_loop ds g 0 0 w)
    as [[[c n]|e] w1] eqn:L; [|discriminate H].
  apply metadata_loop_ok in L.
  destruct L as (Hc & Hn & Hcc & Hdc & HL & Hsl & Hdl & Hcat).
  unfold LOGGER_log in H. inversion H; subst w'. simpl.
  rewrite HL, <- app_assoc. subst c n. simpl.
  repeat split; assumption.
Qed.

(** A completed [data_scan], in full. *)
Lemma data_scan_ok ds wg g size (w w' : World) :
  data_scan ds wg g size w = (Ok tt, w') ->
  LOGGER w' =
    LOGGER w ++ flat_map (dd_LOGGER ds) g
      ++ [summary_record (Z.of_nat (length g)) (count (dd_matched ds) g)]
  /\ catalog_calls w' = catalog_calls w ++ flat_map (dd_writes ds) g
  /\ detect_calls w' = detect_calls w ++ flat_map (dd_probes ds) g
  /\ scan_logger w' = scan_logger w ++ flat_map (dd_safe ds) g
  /\ data_logger w' = data_logger w ++ flat_map (dd_raw ds) g
  /\ catalog w' =
       apply_writes set_column_pii_type (catalog w)
         (flat_map (dd_writes ds) g).
Proof.
  unfold data_scan, tqdm. unfold bind at 1. intros H.
  destruct (data_loop ds g 0 0 w) as [[[c n]|e] w1] eqn:L;
    [|discriminate H].
  apply data_loop_ok in L.
  destruct L as (Hc & Hn & Hcc & Hdc & HL & Hsl & Hdl & Hcat).
  unfold LOGGER_log in H. inversion H; subst w'. simpl.
  rewrite HL, <- app_assoc. subst c n. simpl.
  repeat split; assumption.
Qed.

(** C5: a [metadata_scan] that completes over [N] columns, [K] of them
    matched by some detector, reports [N] processed and [K] labeled in its
    summary record, makes exactly [K] [set_column_pii_type] calls, and
    consults, for each column, the detectors up to the first match and none
    after it. *)
Theorem metadata_scan_counts ds wg g (w w' : World) :
  metadata_scan ds wg g w = (Ok tt, w') ->
  let N := Z.of_nat (length g) in
  let K := count (md_matched ds) g in
  (exists debug, LOGGER w' = LOGGER w ++ debug ++ [summary_record N K]
     /\ Forall (fun rec => levelno rec = DEBUG) debug)
  /\ (exists calls, catalog_calls w' = catalog_calls w ++ calls
        /\ Z.of_nat (length calls) = K)
  /\ detect_calls w' = detect_calls w ++ flat_map (md_probes ds) g
  /\ (forall ds1 d ds2 ty it,
        ds = ds1 ++ d :: ds2 ->
        Forall (fun d' => hits (md_probe (md_column it)) d' = false) ds1 ->
        md_probe (md_column it) d = Ok (Some ty) ->
        md_probes ds it =
          map (fun d => (MetadataDetector.name d, md_column it, None))
            (ds1 ++ [d])).
Proof.
  intros H N K. apply metadata_scan_ok in H.
  destruct H as (HL & Hcc & Hdc & _).
  split; [|split; [|split]].
  - exists (map (fun it => scanning_record (md_column it)) g).
    split; [exact HL | apply md_records_debug].
  - exists (flat_map (md_writes ds) g). split; [exact Hcc|].
    apply md_writes_count.
  - exact Hdc.
  - intros ds1 d ds2 ty it -> Hnone Hd.
    apply (md_item_first_match ds1 d ds2 ty it Hnone Hd).
Qed.

(** C6, amended: a [data_scan] that completes over [N] items, [J] of them
    with a value that is not [None] (an empty text counts as a value) and
    matched by some detector, reports [N] processed and [J] labeled, makes
    exactly [J] [set_column_pii_type] calls, hands [data_logger] exactly [J]
    records, carrying the raw values of the matched items in order, and
    hands [scan_logger] exactly [J] records, none carrying a raw value. *)
Theorem data_scan_counts ds wg g size (w w' : World) :
  data_scan ds wg g size w = (Ok tt, w') ->
  let N := Z.of_nat (length g) in
  let J := count (dd_matched ds) g in
  (exists debug, LOGGER w' = LOGGER w ++ debug ++ [summary_record N J]
     /\ Forall (fun rec => levelno rec = DEBUG) debug)
  /\ (exists calls, catalog_calls w' = catalog_calls w ++ calls
        /\ Z.of_nat (length calls) = J)
  /\ (exists recs, data_logger w' = data_logger w ++ recs
        /\ Z.of_nat (length recs) = J
        /\ map raw_of recs = map dd_value (filter (dd_matched ds) g))
  /\ (exists recs, scan_logger w' = scan_logger w ++ recs
        /\ Z.of_nat (length recs) = J
        /\ Forall (fun rec => carries_raw rec = false) recs)
  /\ (forall it, dd_matched ds it = true ->
        exists v, dd_value it = Some v
          /\ matched (dd_probe (dd_column it) v) ds = true).
Proof.
  intros H N J. apply data_scan_ok in H.
  destruct H as (HL & Hcc & Hdc & Hsl & Hdl & _).
  split; [|split; [|split; [|split]]].
  - exists (flat_map (dd_LOGGER ds) g).
    split; [exact HL | apply dd_records_debug].
  - exists (flat_map (dd_writes ds) g). split; [exact Hcc|].
    apply dd_writes_count.
  - exists (flat_map (dd_raw ds) g). split; [exact Hdl|].
    split; [apply dd_raw_count | apply dd_raw_values].
  - exists (flat_map (dd_safe ds) g). split; [exact Hsl|].
    split; [apply dd_safe_count | apply dd_safe_no_raw].
  - intros it Hm. unfold dd_matched in Hm.
    destruct (dd_value it) as [v|]; [|discriminate Hm].
    exists v. split; [reflexivity | exact Hm].
Qed.

(** C1, amended: in a scan pass that completes, each work item gets at most
    one classification, the one of the first detector in list order with a
    non-empty result, and the detectors after that one are not consulted for
    the item.  A column is written at most once when the enumeration yields
    it once; yielded several times (several sampled values, in a data scan),
    it is written once for each of its items that a detector matches. *)
Theorem one_write_per_item :
  (forall ds wg g (w w' : World),
     metadata_scan ds wg g w = (Ok tt, w') ->
     catalog_calls w' = catalog_calls w ++ flat_map (md_writes ds) g
     /\ detect_calls w' = detect_calls w ++ flat_map (md_probes ds) g
     /\ (forall it, (length (md_writes ds it) <= 1)%nat)
     /\ (forall ds1 d ds2 ty it,
           ds = ds1 ++ d :: ds2 ->
           Forall (fun d' => hits (md_probe (md_column it)) d' = false) ds1 ->
           md_probe (md_column it) d = Ok (Some ty) ->
           md_writes ds it = [(md_column it, ty, MetadataDetector.name d)]
           /\ md_probes ds it =
                map (fun d => (MetadataDetector.name d, md_column it, None))
                  (ds1 ++ [d]))
     /\ (NoDup (map md_column g) ->
         forall c,
           (length (calls_for c (flat_map (md_writes ds) g)) <= 1)%nat))
  /\ (forall ds wg g size (w w' : World),
        data_scan ds wg g size w = (Ok tt, w') ->
        catalog_calls w' = catalog_calls w ++ flat_map (dd_writes ds) g
        /\ detect_calls w' = detect_calls w ++ flat_map (dd_probes ds) g
        /\ (forall it, (length (dd_writes ds it) <= 1)%nat)
        /\ (forall ds1 d ds2 ty it v,
              ds = ds1 ++ d :: ds2 ->
              dd_value it = Some v ->
              Forall (fun d' => hits (dd_probe (dd_column it) v) d' = false)
                ds1 ->
              dd_probe (dd_column it) v d = Ok (Some ty) ->
              dd_writes ds it = [(dd_column it, ty, DatumDetector.name d)]
              /\ dd_probes ds it =
                   map (fun d => (DatumDetector.name d, dd_column it, Some v))
                     (ds1 ++ [d]))
        /\ (NoDup (map dd_column g) ->
            forall c,
              (length (calls_for c (flat_map (dd_writes ds) g)) <= 1)%nat)).
Proof.
  split.
  - intros ds wg g w w' H. apply metadata_scan_ok in H.
    destruct H as (_ & Hcc & Hdc & _).
    split; [exact Hcc|]. split; [exact Hdc|]. split; [|split].
    + intros it. rewrite md_writes_length.
      destruct (md_matched ds it); lia.
    + intros ds1 d ds2 ty it -> Hnone Hd.
      apply md_item_first_match; assumption.
    + apply md_writes_once.
  - intros ds wg g size w w' H. apply data_scan_ok in H.
    destruct H as (_ & Hcc & Hdc & _).
    split; [exact Hcc|]. split; [exact Hdc|]. split; [|split].
    + apply dd_writes_length.
    + intros ds1 d ds2 ty it v -> Hv Hnone Hd.
      apply dd_item_first_match; assumption.
    + apply dd_writes_once.
Qed.

(** C4, amended: a data item whose sampled value is absent ([None]) is
    counted as processed and nothing else happens for it: no detector is
    called, nothing is written to the catalog and nothing is handed to
    [scan_logger] or [data_logger].  (An item whose value is the empty text
    is shown to the detectors like any other value.) *)
Theorem absent_value_is_skipped :
  (forall ds schema table column counter set_number (w : World),
     data_item ds (schema, table, column, None) counter set_number w =
       (Ok ((counter + 1)%Z, set_number),
        mkWorld (catalog w) (catalog_calls w) (detect_calls w)
          (LOGGER w ++ [scanning_record column])
          (scan_logger w) (data_logger w)))
  /\ (forall ds it,
        dd_value it = None ->
        dd_probes ds it = [] /\ dd_writes ds it = []
        /\ dd_safe ds it = [] /\ dd_raw ds it = []
        /\ dd_matched ds it = false)
  /\ (forall ds wg g size (w w' : World),
        data_scan ds wg g size w = (Ok tt, w') ->
        detect_calls w' = detect_calls w ++ flat_map (dd_probes ds) g
        /\ catalog_calls w' = catalog_calls w ++ flat_map (dd_writes ds) g
        /\ exists debug,
             LOGGER w' =
               LOGGER w ++ debug
                 ++ [summary_record (Z.of_nat (length g))
                       (count (dd_matched ds) g)]).
Proof.
  split; [|split].
  - intros. reflexivity.
  - intros ds it Hv.
    unfold dd_probes, dd_writes, dd_safe, dd_raw, dd_matched, dd_hit.
    rewrite Hv. repeat split; reflexivity.
  - intros ds wg g size w w' H. apply data_scan_ok in H.
    destruct H as (HL & Hcc & Hdc & _).
    repeat split; try assumption.
    exists (flat_map (dd_LOGGER ds) g). exact HL.
Qed.

(** C7: both scans are deterministic.  Run in two worlds with the same
    catalog, whatever was logged or called before in each, a scan has the
    same outcome and adds the same records and calls, in the same order, and
    leaves the same catalog ([d] holds what the run adds); when it completes,
    the counts it reports and the classifications it writes are those the
    detectors and the enumeration determine. *)
Theorem scans_are_deterministic mds wg mg dds dg size (w1 w2 : World) :
  catalog w1 = catalog w2 ->
  (exists r d,
     metadata_scan mds wg mg w1 = (r, after_history w1 d)
     /\ metadata_scan mds wg mg w2 = (r, after_history w2 d)
     /\ (r = Ok tt ->
         catalog_calls d = flat_map (md_writes mds) mg
         /\ exists debug,
              LOGGER d =
                debug ++ [summary_record (Z.of_nat (length mg))
                            (count (md_matched mds) mg)]))
  /\ (exists r d,
        data_scan dds wg dg size w1 = (r, after_history w1 d)
        /\ data_scan dds wg dg size w2 = (r, after_history w2 d)
        /\ (r = Ok tt ->
            catalog_calls d = flat_map (dd_writes dds) dg
            /\ exists debug,
                 LOGGER d =
                   debug ++ [summary_record (Z.of_nat (length dg))
                               (count (dd_matched dds) dg)])).
Proof.
  intros Hcat. split.
  - exists (fst (metadata_scan mds wg mg (fresh (catalog w1)))),
           (snd (metadata_scan mds wg mg (fresh (catalog w1)))).
    split; [|split].
    + apply framed_from_fresh. apply framed_metadata_scan.
    + rewrite Hcat. apply framed_from_fresh. apply framed_metadata_scan.
    + intros Hr.
      destruct (metadata_scan mds wg mg (fresh (catalog w1))) as [r d] eqn:E.
      simpl in *. subst r. apply metadata_scan_ok in E.
      destruct E as (HL & Hcc & _). simpl in *.
      split; [exact Hcc|]. eexists. exact HL.
  - exists (fst (data_scan dds wg dg size (fresh (catalog w1)))),
           (snd (data_scan dds wg dg size (fresh (catalog w1)))).
    split; [|split].
    + apply framed_from_fresh. apply framed_data_scan.
    + rewrite Hcat. apply framed_from_fresh. apply framed_data_scan.
    + intros Hr.
      destruct (data_scan dds wg dg size (fresh (catalog w1))) as [r d] eqn:E.
      simpl in *. subst r. apply data_scan_ok in E.
      destruct E as (HL & Hcc & _). simpl in *.
      split; [exact Hcc|]. eexists. exact HL.
Qed.

(** *** Faults *)

Local Abbreviation set_fault cat column ty plugin e :=
  (fst (set_column_pii_type cat column ty plugin) = Raise e).

Lemma metadata_scan_ok_loop ds wg g (w w' : World) :
  metadata_scan ds wg g w = (Ok tt, w') ->
  exists c n w1, metadata_loop ds g 0 0 w = (Ok (c, n), w1).
Proof.
  unfold metadata_scan, tqdm. unfold bind at 1. intros H.
  destruct (metadata_loop ds g 0 0 w) as [[[c n]|e] w1];
    [|discriminate H].
  exists c, n, w1. reflexivity.
Qed.

Lemma data_scan_ok_loop ds wg g size (w w' : World) :
  data_scan ds wg g size w = (Ok tt, w') ->
  exists c n w1, data_loop ds g 0 0 w = (Ok (c, n), w1).
Proof.
  unfold data_scan, tqdm. unfold bind at 1. intros H.
  destruct (data_loop ds g 0 0 w) as [[[c n]|e] w1]; [|discriminate H].
  exists c, n, w1. reflexivity.
Qed.

(** A [metadata_scan] in which, after the items [pre], a detector raises on
    the next column, or the catalog raises on its classification. *)
Lemma metadata_scan_fault ds1 d ds2 wg pre schema table column post
  (w w1 : World) e :
  let ds := ds1 ++ d :: ds2 in
  let cat1 :=
    apply_writes set_column_pii_type (catalog w)
      (flat_map (md_writes ds) pre) in
  metadata_scan ds wg pre w = (Ok tt, w1) ->
  Forall (fun d' => md_probe column d' = Ok None) ds1 ->
  (md_probe column d = Raise e
   \/ exists ty, md_probe column d = Ok (Some ty)
        /\ set_fault cat1 column ty (MetadataDetector.name d) e) ->
  exists w2 last,
    metadata_scan ds wg (pre ++ (schema, table, column) :: post) w =
      (Raise e, w2)
    /\ catalog_calls w2 =
         catalog_calls w ++ flat_map (md_writes ds) pre ++ last
    /\ (md_probe column d = Raise e -> last = [] /\ catalog w2 = cat1)
    /\ (forall ty, md_probe column d = Ok (Some ty) ->
        last = [(column, ty, MetadataDetector.name d)]
        /\ catalog w2 =
             snd (set_column_pii_type cat1 column ty
                    (MetadataDetector.name d)))
    /\ LOGGER w2 =
         LOGGER w
           ++ map (fun it => scanning_record (md_column it))
                (pre ++ [(schema, table, column)])
    /\ detect_calls w2 =
         detect_calls w ++ flat_map (md_probes ds) pre
           ++ map (fun d => (MetadataDetector.name d, column, None))
                (ds1 ++ [d]).
Proof.
  intros ds cat1 Hpre Hnone Hd.
  apply metadata_scan_ok_loop in Hpre.
  destruct Hpre as (c & n & w0 & Hloop).
  pose proof (metadata_loop_ok _ _ _ _ _ _ _ _ _ _ Hloop) as Hok.
  destruct Hok as (_ & _ & Hcc & Hdc & HL & _ & _ & Hcat).
  assert (Hd0 : md_probe column d = Raise e
                \/ exists ty, md_probe column d = Ok (Some ty)
                     /\ set_fault (catalog w0) column ty
                          (MetadataDetector.name d) e).
  { rewrite Hcat. exact Hd. }
  destruct (metadata_detectors_fault Catalog set_column_pii_type
              ds1 d ds2 column n
              (mkWorld (catalog w0) (catalog_calls w0) (detect_calls w0)
                 (LOGGER w0 ++ [scanning_record column])
                 (scan_logger w0) (data_logger w0))
              e Hnone Hd0)
    as (w2 & Hrun & Hdc2 & HL2 & _ & _ & Hr & Hm).
  simpl in *.
  assert (Hscan :
    metadata_scan ds wg (pre ++ (schema, table, column) :: post) w =
      (Raise e, w2)).
  { unfold metadata_scan, tqdm. unfold bind at 1.
    rewrite metadata_loop_app, Hloop. cbn [fst snd metadata_loop].
    unfold bind at 1. unfold metadata_item. unfold bind at 1.
    unfold LOGGER_log at 1. unfold bind at 1.
    fold ds in Hrun. unfold scanning_record in Hrun.
    rewrite Hrun. reflexivity. }
  destruct Hd as [Hraise | (ty & Hsome & Hset)].
  - destruct (Hr Hraise) as [Hcat2 Hcc2].
    exists w2, []. rewrite app_nil_r, Hcc2, Hcc, HL2, HL, Hdc2, Hdc.
    rewrite map_app, <- !app_assoc. simpl.
    split; [exact Hscan|]. split; [reflexivity|].
    split; [intros _; split; [reflexivity | rewrite Hcat2; exact Hcat]|].
    split; [intros ty Hty; congruence|].
    split; reflexivity.
  - destruct (Hm ty Hsome) as [Hcc2 Hcat2].
    exists w2, [(column, ty, MetadataDetector.name d)].
    rewrite Hcc2, Hcc, HL2, HL, Hdc2, Hdc.
    rewrite map_app, <- !app_assoc. simpl.
    split; [exact Hscan|]. split; [reflexivity|].
    split; [intros Hraise; congruence|].
    split; [|split; reflexivity].
    intros ty' Hty. assert (ty' = ty) by congruence. subst ty'.
    split; [reflexivity|]. rewrite Hcat2, Hcat. reflexivity.
Qed.

(** The same in a [data_scan], on an item with a value. *)
Lemma data_scan_fault ds1 d ds2 wg pre schema table column val post size
  (w w1 : World) e :
  let ds := ds1 ++ d :: ds2 in
  let cat1 :=
    apply_writes set_column_pii_type (catalog w)
      (flat_map (dd_writes ds) pre) in
  data_scan ds wg pre size w = (Ok tt, w1) ->
  Forall (fun d' => dd_probe column val d' = Ok None) ds1 ->
  (dd_probe column val d = Raise e
   \/ exists ty, dd_probe column val d = Ok (Some ty)
        /\ set_fault cat1 column ty (DatumDetector.name d) e) ->
  exists w2 last,
    data_scan ds wg (pre ++ (schema, table, column, Some val) :: post) size w
      = (Raise e, w2)
    /\ catalog_calls w2 =
         catalog_calls w ++ flat_map (dd_writes ds) pre ++ last
    /\ (dd_probe column val d = Raise e -> last = [] /\ catalog w2 = cat1)
    /\ (forall ty, dd_probe column val d = Ok (Some ty) ->
        last = [(column, ty, DatumDetector.name d)]
        /\ catalog w2 =
             snd (set_column_pii_type cat1 column ty
                    (DatumDetector.name d)))
    /\ LOGGER w2 =
         LOGGER w ++ flat_map (dd_LOGGER ds) pre ++ [scanning_record column]
    /\ scan_logger w2 = scan_logger w ++ flat_map (dd_safe ds) pre
    /\ data_logger w2 = data_logger w ++ flat_map (dd_raw ds) pre
    /\ detect_calls w2 =
         detect_calls w ++ flat_map (dd_probes ds) pre
           ++ map (fun d => (DatumDetector.name d, column, Some val))
                (ds1 ++ [d]).
Proof.
  intros ds cat1 Hpre Hnone Hd.
  apply data_scan_ok_loop in Hpre.
  destruct Hpre as (c & n & w0 & Hloop).
  pose proof (data_loop_ok _ _ _ _ _ _ _ _ _ _ Hloop) as Hok.
  destruct Hok as (_ & _ & Hcc & Hdc & HL & Hsl & Hdl & Hcat).
  assert (Hd0 : dd_probe column val d = Raise e
                \/ exists ty, dd_probe column val d = Ok (Some ty)
                     /\ set_fault (catalog w0) column ty
                          (DatumDetector.name d) e).
  { rewrite Hcat. exact Hd. }
  destruct (data_detectors_fault Catalog set_column_pii_type
              ds1 d ds2 column val n
              (mkWorld (catalog w0) (catalog_calls w0) (detect_calls w0)
                 (LOGGER w0 ++ [scanning_record column])
                 (scan_logger w0) (data_logger w0))
              e Hnone Hd0)
    as (w2 & Hrun & Hdc2 & HL2 & Hsl2 & Hdl2 & Hr & Hm).
  simpl in *.
  assert (Hscan :
    data_scan ds wg (pre ++ (schema, table, column, Some val) :: post) size w
      = (Raise e, w2)).
  { unfold data_scan, tqdm. unfold bind at 1.
    rewrite data_loop_app, Hloop. cbn [fst snd data_loop].
    unfold bind at 1. unfold data_item. unfold bind at 1.
    unfold LOGGER_log at 1. unfold bind at 1.
    fold ds in Hrun. unfold scanning_record in Hrun.
    rewrite Hrun. reflexivity. }
  destruct Hd as [Hraise | (ty & Hsome & Hset)].
  - destruct (Hr Hraise) as [Hcat2 Hcc2].
    exists w2, [].
    rewrite app_nil_r, Hcc2, Hcc, HL2, HL, Hdc2, Hdc, Hsl2, Hsl, Hdl2, Hdl.
    rewrite <- !app_assoc. simpl.
    split; [exact Hscan|]. split; [reflexivity|].
    split; [intros _; split; [reflexivity | rewrite Hcat2; exact Hcat]|].
    split; [intros ty Hty; congruence|].
    repeat split; reflexivity.
  - destruct (Hm ty Hsome) as [Hcc2 Hcat2].
    exists w2, [(column, ty, DatumDetector.name d)].
    rewrite Hcc2, Hcc, HL2, HL, Hdc2, Hdc, Hsl2, Hsl, Hdl2, Hdl.
    rewrite <- !app_assoc. simpl.
    split; [exact Hscan|]. split; [reflexivity|].
    split; [intros Hraise; congruence|].
    split; [|repeat split; reflexivity].
    intros ty' Hty. assert (ty' = ty) by congruence. subst ty'.
    split; [reflexivity|]. rewrite Hcat2, Hcat. reflexivity.
Qed.

(** A scan completes and hands [LOGGER] its summary, or raises and hands it
    none. *)
Lemma metadata_scan_completes_or_raises ds wg g (w : World) :
  (exists w' debug,
     metadata_scan ds wg g w = (Ok tt, w')
     /\ LOGGER w' =
          LOGGER w ++ debug
            ++ [summary_record (Z.of_nat (length g))
                  (count (md_matched ds) g)]
     /\ Forall (fun rec => levelno rec = DEBUG) debug)
  \/ (exists e w' debug,
        metadata_scan ds wg g w = (Raise e, w')
        /\ LOGGER w' = LOGGER w ++ debug
        /\ Forall (fun rec => levelno rec = DEBUG) debug).
Proof.
  destruct (metadata_scan ds wg g w) as [[[]|e] w'] eqn:E.
  - left. destruct (metadata_scan_ok _ _ _ _ _ E) as (HL & _).
    exists w', (map (fun it => scanning_record (md_column it)) g).
    repeat split; [exact HL | apply md_records_debug].
  - right. unfold metadata_scan, tqdm in E. unfold bind at 1 in E.
    destruct (metadata_loop ds g 0 0 w) as [[cs|e'] w1] eqn:L.
    + discriminate E.
    + inversion E; subst. apply metadata_loop_any in L.
      destruct L as (recs & calls & HL & Hall & _).
      exists e, w', recs. repeat split; assumption.
Qed.

Lemma data_scan_completes_or_raises ds wg g size (w : World) :
  (exists w' debug,
     data_scan ds wg g size w = (Ok tt, w')
     /\ LOGGER w' =
          LOGGER w ++ debug
            ++ [summary_record (Z.of_nat (length g))
                  (count (dd_matched ds) g)]
     /\ Forall (fun rec => levelno rec = DEBUG) debug)
  \/ (exists e w' debug,
        data_scan ds wg g size w = (Raise e, w')
        /\ LOGGER w' = LOGGER w ++ debug
        /\ Forall (fun rec => levelno rec = DEBUG) debug).
Proof.
  destruct (data_scan ds wg g size w) as [[[]|e] w'] eqn:E.
  - left. destruct (data_scan_ok _ _ _ _ _ _ E) as (HL & _).
    exists w', (flat_map (dd_LOGGER ds) g).
    repeat split; [exact HL | apply dd_records_debug].
  - right. unfold data_scan, tqdm in E. unfold bind at 1 in E.
    destruct (data_loop ds g 0 0 w) as [[cs|e'] w1] eqn:L.
    + discriminate E.
    + inversion E; subst. apply data_loop_any in L.
      destruct L as (recs & calls & HL & Hall & _).
      exists e, w', recs. repeat split; assumption.
Qed.

(** C8: neither driver catches an exception.  When the scan of the items
    [pre] completes and, on the next item, the first detector that does not
    answer [None] raises [e], or matches and makes [set_column_pii_type]
    raise [e], the scan of [pre ++ item :: post] raises [e]: the
    classifications of [pre] are all still among the catalog's calls
    (followed only by the failing call, if the catalog raised), the catalog
    is as the scan of [pre] left it (and, if the catalog raised, as the
    failing call then left it), no item of [post] is looked at and no
    summary is reported.  And every scan either
    completes and reports its counts or raises without reporting; it
    completes when neither the catalog nor a detector raises. *)
Theorem faults_abort_the_scan :
  (forall ds1 d ds2 wg pre schema table column post (w w1 : World) e,
     let ds := ds1 ++ d :: ds2 in
     let cat1 :=
       apply_writes set_column_pii_type (catalog w)
         (flat_map (md_writes ds) pre) in
     metadata_scan ds wg pre w = (Ok tt, w1) ->
     Forall (fun d' => md_probe column d' = Ok None) ds1 ->
     (md_probe column d = Raise e
      \/ exists ty, md_probe column d = Ok (Some ty)
           /\ set_fault cat1 column ty (MetadataDetector.name d) e) ->
     exists w2 last,
       metadata_scan ds wg (pre ++ (schema, table, column) :: post) w =
         (Raise e, w2)
       /\ catalog_calls w2 =
            catalog_calls w ++ flat_map (md_writes ds) pre ++ last
       /\ (md_probe column d = Raise e -> last = [] /\ catalog w2 = cat1)
       /\ (forall ty, md_probe column d = Ok (Some ty) ->
           last = [(column, ty, MetadataDetector.name d)]
           /\ catalog w2 =
                snd (set_column_pii_type cat1 column ty
                       (MetadataDetector.name d)))
       /\ LOGGER w2 =
            LOGGER w
              ++ map (fun it => scanning_record (md_column it))
                   (pre ++ [(schema, table, column)])
       /\ detect_calls w2 =
            detect_calls w ++ flat_map (md_probes ds) pre
              ++ map (fun d => (MetadataDetector.name d, column, None))
                   (ds1 ++ [d]))
  /\ (forall ds1 d ds2 wg pre schema table column val post size
        (w w1 : World) e,
        let ds := ds1 ++ d :: ds2 in
        let cat1 :=
          apply_writes set_column_pii_type (catalog w)
            (flat_map (dd_writes ds) pre) in
        data_scan ds wg pre size w = (Ok tt, w1) ->
        Forall (fun d' => dd_probe column val d' = Ok None) ds1 ->
        (dd_probe column val d = Raise e
         \/ exists ty, dd_probe column val d = Ok (Some ty)
              /\ set_fault cat1 column ty (DatumDetector.name d) e) ->
        exists w2 last,
          data_scan ds wg
            (pre ++ (schema, table, column, Some val) :: post) size w
            = (Raise e, w2)
          /\ catalog_calls w2 =
               catalog_calls w ++ flat_map (dd_writes ds) pre ++ last
          /\ (dd_probe column val d = Raise e ->
              last = [] /\ catalog w2 = cat1)
          /\ (forall ty, dd_probe column val d = Ok (Some ty) ->
              last = [(column, ty, DatumDetector.name d)]
              /\ catalog w2 =
                   snd (set_column_pii_type cat1 column ty
                          (DatumDetector.name d)))
          /\ LOGGER w2 =
               LOGGER w ++ flat_map (dd_LOGGER ds) pre
                 ++ [scanning_record column]
          /\ scan_logger w2 = scan_logger w ++ flat_map (dd_safe ds) pre
          /\ data_logger w2 = data_logger w ++ flat_map (dd_raw ds) pre
          /\ detect_calls w2 =
               detect_calls w ++ flat_map (dd_probes ds) pre
                 ++ map (fun d => (DatumDetector.name d, column, Some val))
                      (ds1 ++ [d]))
  /\ (forall ds wg g (w : World),
        (exists w' debug,
           metadata_scan ds wg g w = (Ok tt, w')
           /\ LOGGER w' =
                LOGGER w ++ debug
                  ++ [summary_record (Z.of_nat (length g))
                        (count (md_matched ds) g)]
           /\ Forall (fun rec => levelno rec = DEBUG) debug)
        \/ (exists e w' debug,
              metadata_scan ds wg g w = (Raise e, w')
              /\ LOGGER w' = LOGGER w ++ debug
              /\ Forall (fun rec => levelno rec = DEBUG) debug))
  /\ (forall ds wg g size (w : World),
        (exists w' debug,
           data_scan ds wg g size w = (Ok tt, w')
           /\ LOGGER w' =
                LOGGER w ++ debug
                  ++ [summary_record (Z.of_nat (length g))
                        (count (dd_matched ds) g)]
           /\ Forall (fun rec => levelno rec = DEBUG) debug)
        \/ (exists e w' debug,
              data_scan ds wg g size w = (Raise e, w')
              /\ LOGGER w' = LOGGER w ++ debug
              /\ Forall (fun rec => levelno rec = DEBUG) debug))
  /\ ((forall cat c ty plugin,
         never_raises (fst (set_column_pii_type cat c ty plugin))) ->
      (forall ds wg g (w : World),
         Forall (fun it =>
                   Forall (fun d => never_raises (md_probe (md_column it) d))
                     ds) g ->
         exists w', metadata_scan ds wg g w = (Ok tt, w'))
      /\ (forall ds wg g size (w : World),
            Forall (fun it =>
                      forall v, dd_value it = Some v ->
                        Forall (fun d =>
                                  never_raises (dd_probe (dd_column it) v d))
                          ds) g ->
            exists w', data_scan ds wg g size w = (Ok tt, w'))).
Proof.
  split; [|split; [|split; [|split]]].
  - intros. eapply metadata_scan_fault; eassumption.
  - intros. eapply data_scan_fault; eassumption.
  - apply metadata_scan_completes_or_raises.
  - apply data_scan_completes_or_raises.
  - intros Hcat. split.
    + intros ds wg g w Hg.
      apply (metadata_scan_total Catalog set_column_pii_type); assumption.
    + intros ds wg g size w Hg.
      apply (data_scan_total Catalog set_column_pii_type); assumption.
Qed.

End Claims.

(* ===================================================================== *)
(** ** The claims on the detectors *)
(* ===================================================================== *)

Lemma detect_in_some table column t :
  ColumnNameRegexDetector.detect_in table column = Some t <->
  exists before ex after,
    table = before ++ (t, ex) :: after
    /\ entry_matches column (t, ex) = true
    /\ Forall (fun e => entry_matches column e = false) before.
Proof.
  induction table as [|[t' ex'] table IH]; simpl.
  - split; [discriminate|].
    intros (before & ex & after & H & _). destruct before; discriminate H.
  - destruct (Re.match_ ex' (CatColumn.name column)) as [n|] eqn:E.
    + split.
      * intros H. inversion H; subst t'.
        exists [], ex', table. repeat split.
        -- unfold entry_matches. simpl. rewrite E. reflexivity.
        -- constructor.
      * intros (before & ex & after & H & Hm & Hnone).
        destruct before as [|e before]; simpl in H; inversion H; subst.
        -- reflexivity.
        -- inversion Hnone as [|? ? He _]; subst.
           unfold entry_matches in He. simpl in He. rewrite E in He.
           discriminate He.
    + rewrite IH. split.
      * intros (before & ex & after & H & Hm & Hnone).
        exists ((t', ex') :: before), ex, after. subst table.
        repeat split; [exact Hm|].
        constructor; [|exact Hnone].
        unfold entry_matches. simpl. rewrite E. reflexivity.
      * intros (before & ex & after & H & Hm & Hnone).
        destruct before as [|e before]; simpl in H; inversion H; subst.
        -- unfold entry_matches in Hm. simpl in Hm. rewrite E in Hm.
           discriminate Hm.
        -- inversion Hnone; subst.
           exists before, ex, after. repeat split; assumption.
Qed.

Lemma detect_in_none table column :
  ColumnNameRegexDetector.detect_in table column = None <->
  Forall (fun e => entry_matches column e = false) table.
Proof.
  induction table as [|[t' ex'] table IH]; simpl.
  - split; constructor.
  - destruct (Re.match_ ex' (CatColumn.name column)) as [n|] eqn:E.
    + split; [discriminate|].
      intros H. inversion H as [|? ? He _]; subst.
      unfold entry_matches in He. simpl in He. rewrite E in He.
      discriminate He.
    + rewrite IH. split.
      * intros H. constructor; [|exact H].
        unfold entry_matches. simpl. rewrite E. reflexivity.
      * intros H. inversion H; assumption.
Qed.

Lemma detect_in_ignorecase table c1 c2 :
  Forall (fun e => Re.flags (snd e) = Re.IGNORECASE) table ->
  lowercase (chars (CatColumn.name c1)) =
    lowercase (chars (CatColumn.name c2)) ->
  ColumnNameRegexDetector.detect_in table c1 =
    ColumnNameRegexDetector.detect_in table c2.
Proof.
  intros Hflags Hs.
  induction Hflags as [|[t ex] table Hf _ IH]; [reflexivity|].
  simpl. simpl in Hf.
  rewrite (match_ignorecase ex _ _ Hf Hs), IH. reflexivity.
Qed.

(** C2: [ColumnNameRegexDetector.detect] goes through its table in the
    order Person, Email, BirthDate, Gender, Nationality, Address, ZipCode,
    UserName, Password, SSN, PoBox, CreditCard, Phone, KTP; every pattern is
    of the form [^.*body.*$] with flag IGNORECASE; the result is the type of
    the first entry whose pattern matches the column's name, and nothing
    when no pattern matches; ["user_email"] gives Email, ["zip_code"] gives
    ZipCode and ["notes"] gives nothing.  The flag and the anchors do what
    they say: names that differ only in the case of their letters get the
    same result, and a match of an entry spans the name from its first
    character to its end (or to a last line feed). *)
Theorem name_detector_first_match :
  map fst ColumnNameRegexDetector.regex =
    [Person; Email; BirthDate; Gender; Nationality; Address; ZipCode;
     UserName; Password; SSN; PoBox; CreditCard; Phone; KTP]
  /\ Forall
       (fun e => Re.flags (snd e) = Re.IGNORECASE
                 /\ exists body, Re.pattern (snd e) = Re.wild body)
       ColumnNameRegexDetector.regex
  /\ (forall column t,
        ColumnNameRegexDetector.detect column = Some t <->
        exists before ex after,
          ColumnNameRegexDetector.regex = before ++ (t, ex) :: after
          /\ entry_matches column (t, ex) = true
          /\ Forall (fun e => entry_matches column e = false) before)
  /\ (forall column,
        ColumnNameRegexDetector.detect column = None <->
        Forall (fun e => entry_matches column e = false)
          ColumnNameRegexDetector.regex)
  /\ (forall fqdn,
        ColumnNameRegexDetector.detect (CatColumn.make "user_email" fqdn)
          = Some Email
        /\ ColumnNameRegexDetector.detect (CatColumn.make "zip_code" fqdn)
             = Some ZipCode
        /\ ColumnNameRegexDetector.detect (CatColumn.make "notes" fqdn)
             = None)
  /\ (forall c1 c2,
        lowercase (chars (CatColumn.name c1)) =
          lowercase (chars (CatColumn.name c2)) ->
        ColumnNameRegexDetector.detect c1 =
          ColumnNameRegexDetector.detect c2)
  /\ Forall
       (fun e => forall s n,
          Re.match_ (snd e) s = Some n ->
          n = String.length s \/ S n = String.length s)
       ColumnNameRegexDetector.regex.
Proof.
  split; [reflexivity|].
  split.
  { unfold ColumnNameRegexDetector.regex.
    repeat (constructor; [split; [reflexivity | eexists; reflexivity]|]).
    constructor. }
  split; [intros; apply detect_in_some|].
  split; [intros; apply detect_in_none|].
  split; [intros fqdn; repeat split; vm_compute; reflexivity|].
  split.
  { intros c1 c2 Hs. apply detect_in_ignorecase; [|exact Hs].
    unfold ColumnNameRegexDetector.regex.
    repeat (constructor; [reflexivity|]). constructor. }
  unfold ColumnNameRegexDetector.regex.
  repeat (constructor;
          [intros s n; cbn [snd]; apply (wild_spans_text true)|]).
  constructor.
Qed.

(** C3: [DatumRegexDetector.detect] turns the datum into text with [str]
    and returns the type of the first recogniser, in the order phones,
    emails, credit cards, street addresses, SSN numbers, ZIP codes, PO
    boxes, KTP, that finds something in the text, and nothing when none
    does; a text in which the phone recogniser finds something gives Phone
    whatever else it holds. *)
Theorem datum_detector_first_recogniser CommonRegex column datum :
  DatumRegexDetector.detect CommonRegex column datum =
    option_map snd
      (find (fun rt => truthy (fst rt (str datum)))
         (recognizers CommonRegex))
  /\ (phones CommonRegex (str datum) <> [] ->
      DatumRegexDetector.detect CommonRegex column datum = Some Phone)
  /\ (Forall (fun rt => fst rt (str datum) = []) (recognizers CommonRegex) ->
      DatumRegexDetector.detect CommonRegex column datum = None).
Proof.
  unfold DatumRegexDetector.detect, recognizers. simpl.
  split; [|split].
  - destruct (phones CommonRegex (str datum)); [|reflexivity]; simpl.
    destruct (emails CommonRegex (str datum)); [|reflexivity]; simpl.
    destruct (credit_cards CommonRegex (str datum)); [|reflexivity]; simpl.
    destruct (street_addresses CommonRegex (str datum));
      [|reflexivity]; simpl.
    destruct (ssn_numbers CommonRegex (str datum)); [|reflexivity]; simpl.
    destruct (zip_codes CommonRegex (str datum)); [|reflexivity]; simpl.
    destruct (po_boxes CommonRegex (str datum)); [|reflexivity]; simpl.
    destruct (ktp CommonRegex (str datum)); reflexivity.
  - intros H. destruct (phones CommonRegex (str datum));
      [contradiction|reflexivity].
  - intros H.
    repeat match goal with
           | H : Forall _ (_ :: _) |- _ =>
               let E := fresh "E" in
               inversion H as [|? ? E ?]; clear H; subst;
               simpl in E; rewrite E
           end.
    reflexivity.
Qed.

(** C9: the column handed to [DatumRegexDetector.detect] has no part in
    its result. *)
Theorem datum_detector_ignores_column CommonRegex c1 c2 datum :
  DatumRegexDetector.detect CommonRegex c1 datum =
    DatumRegexDetector.detect CommonRegex c2 datum.
Proof. reflexivity. Qed.

(** C10, amended: a column whose name contains ["pass"], letters compared
    without regard to case, holds no line feed other than a last one, and
    is matched by none of the entries before Password (Person, Email,
    BirthDate, Gender, Nationality, Address, ZipCode, UserName) is
    Password. *)
Theorem pass_is_password column :
  contains_ci (chars "pass") (chars (CatColumn.name column)) = true ->
  one_line (chars (CatColumn.name column)) = true ->
  Forall (fun e => entry_matches column e = false)
    (entries_before Password ColumnNameRegexDetector.regex) ->
  ColumnNameRegexDetector.detect column = Some Password.
Proof.
  intros Hpass Hline Hbefore.
  apply detect_in_some.
  exists (entries_before Password ColumnNameRegexDetector.regex),
         (Re.compile (Re.wild (Re.lit "pass")) Re.IGNORECASE),
         (skipn 9 ColumnNameRegexDetector.regex).
  split; [reflexivity|]. split; [|exact Hbefore].
  unfold entry_matches. cbn [snd].
  pose proof (wild_word_matches "pass" (CatColumn.name column) Hpass Hline)
    as Hm.
  destruct (Re.match_ _ _); [reflexivity | contradiction].
Qed.

(* ===================================================================== *)
(** ** Runs on the sample collaborators *)
(* ===================================================================== *)

(** C1, as stated, fails when the enumeration of a data scan yields two
    sampled values for one column: the column is written twice in the
    pass. *)
Lemma same_column_written_twice :
  exists w',
    sample_data_scan [Sample.AnyValueDetector] [Sample.md "notes"]
      [Sample.dd "notes" (Some (PyStr "alice"));
       Sample.dd "notes" (Some (PyStr "bob"))]
      None (fresh [])
      = (Ok tt, w')
    /\ calls_for (Sample.column "notes") (catalog_calls w') =
         [(Sample.column "notes", Person, "AnyValueDetector");
          (Sample.column "notes", Person, "AnyValueDetector")]
    /\ ~ (length (calls_for (Sample.column "notes") (catalog_calls w')) <= 1)%nat.
Proof.
  eexists. split; [vm_compute; reflexivity|].
  split; [reflexivity|]. simpl. lia.
Qed.

(** C4, as stated, fails on an item whose sampled value is the empty text:
    the detectors are called on it, and one that matches it gets it
    written. *)
Lemma empty_value_reaches_detectors :
  empty_or_absent (Some (PyStr "")) = true
  /\ exists w',
       sample_data_scan
         [datum_regex_detector Sample.CommonRegex; Sample.AnyValueDetector]
         [Sample.md "notes"] [Sample.dd "notes" (Some (PyStr ""))]
         None (fresh [])
         = (Ok tt, w')
       /\ detect_calls w' =
            [("DatumRegexDetector", Sample.column "notes", Some (PyStr ""));
             ("AnyValueDetector", Sample.column "notes", Some (PyStr ""))]
       /\ catalog_calls w' =
            [(Sample.column "notes", Person, "AnyValueDetector")].
Proof.
  split; [reflexivity|].
  eexists. split; [vm_compute; reflexivity|].
  split; reflexivity.
Qed.

(** C6, as stated, fails on the same item: no item has a non-empty value,
    so none is a matched item with a non-empty value, and yet the scan
    reports one labeled and makes one catalog call. *)
Lemma empty_value_is_labeled :
  count
    (fun it => negb (empty_or_absent (dd_value it))
               && dd_matched [Sample.AnyValueDetector] it)
    [Sample.dd "notes" (Some (PyStr ""))] = 0%Z
  /\ exists w',
       sample_data_scan [Sample.AnyValueDetector] [Sample.md "notes"]
         [Sample.dd "notes" (Some (PyStr ""))] None (fresh [])
         = (Ok tt, w')
       /\ last (LOGGER w') (summary_record 0 0) = summary_record 1 1
       /\ length (catalog_calls w') = 1%nat
       /\ map raw_of (data_logger w') = [Some (PyStr "")].
Proof.
  split; [reflexivity|].
  eexists. split; [vm_compute; reflexivity|].
  repeat split; reflexivity.
Qed.

(** C10, as stated, fails on a name with a line feed inside: it contains
    ["pass"], no entry before Password matches it, and [.] does not go
    past the line feed, so the Password pattern does not match it either. *)
Lemma pass_across_lines_is_not_password :
  contains_ci (chars "pass")
    (chars (String.append "pass" (String Re.LF "port"))) = true
  /\ Forall
       (fun e =>
          entry_matches
            (Sample.column (String.append "pass" (String Re.LF "port"))) e
          = false)
       (entries_before Password ColumnNameRegexDetector.regex)
  /\ ColumnNameRegexDetector.detect
       (Sample.column (String.append "pass" (String Re.LF "port"))) = None.
Proof.
  split; [reflexivity|].
  split; [|vm_compute; reflexivity].
  repeat (constructor; [vm_compute; reflexivity|]). constructor.
Qed.

(** A column the catalog refuses: the scan raises the catalog's exception,
    the label written before stays, the column after is not looked at. *)
Example orphan_column_aborts :
  exists w',
    sample_metadata_scan [Sample.SilentDetector; column_name_regex_detector]
      []
      [Sample.md "user_email";
       (Sample.public, Sample.users, Sample.orphan);
       Sample.md "zip_code"]
      (fresh [])
      = (Raise (Exception "ValueError" "column without fqdn"), w')
    /\ catalog w' =
         [("public.users.user_email", (Email, "ColumnNameRegexDetector"))]
    /\ catalog_calls w' =
         [(Sample.column "user_email", Email, "ColumnNameRegexDetector");
          (Sample.orphan, Email, "ColumnNameRegexDetector")]
    /\ map msg (LOGGER w') =
         ["Scanning column name %s"; "Scanning column name %s"].
Proof.
  eexists. split; [vm_compute; reflexivity|].
  repeat split; reflexivity.
Qed.

(** The value detector on a few values, with the sample recognisers: the
    phone shape wins over the e-mail shape, numbers are read as text. *)
Example datum_detector_runs :
  map (DatumRegexDetector.detect Sample.CommonRegex (Sample.column "notes"))
    [PyStr "a@b 555-123-4567"; PyStr "mail Bob@example now";
     PyStr "123-45-6789"; PyInt 90210; PyInt (-5); PyBool true; PyStr ""]
  = [Some Phone; Some Email; Some SSN; Some ZipCode; None; None; None].
Proof. vm_compute. reflexivity. Qed.

(** The name detector on a few names. *)
Example name_detector_runs :
  map (fun n => ColumnNameRegexDetector.detect (Sample.column n))
    ["user_email"; "zip_code"; "notes"; "passport"; "PassWord"; "USER_ID";
     "po_box"; "x_state"; "first_NAME"; ""]
  = [Some Email; Some ZipCode; None; Some Password; Some Password;
     Some UserName; Some PoBox; Some Address; Some Person; None].
Proof. vm_compute. reflexivity. Qed.

(** [metadata_scan_counts] on three columns, two of them matched by the
    name patterns. *)
Lemma metadata_scan_counts_witness :
  exists w',
    sample_metadata_scan [Sample.SilentDetector; column_name_regex_detector]
      [] [Sample.md "user_email"; Sample.md "notes"; Sample.md "zip_code"]
      (fresh [])
      = (Ok tt, w')
    /\ (exists debug,
          LOGGER w' = [] ++ debug ++ [summary_record 3 2]
          /\ Forall (fun rec => levelno rec = DEBUG) debug)
    /\ (exists calls,
          catalog_calls w' = [] ++ calls /\ Z.of_nat (length calls) = 2%Z).
Proof.
  eexists. split; [vm_compute; reflexivity|].
  match goal with
  | |- context [LOGGER ?w] =>
      assert (H : sample_metadata_scan
                    [Sample.SilentDetector; column_name_regex_detector]
                    [] [Sample.md "user_email"; Sample.md "notes";
                        Sample.md "zip_code"]
                    (fresh []) = (Ok tt, w))
        by (vm_compute; reflexivity)
  end.
  apply metadata_scan_counts in H. cbv zeta in H.
  assert (E : count
                (md_matched [Sample.SilentDetector; column_name_regex_detector])
                [Sample.md "user_email"; Sample.md "notes";
                 Sample.md "zip_code"] = 2%Z)
    by (vm_compute; reflexivity).
  rewrite E in H. destruct H as (HL & Hc & _).
  split; [exact HL | exact Hc].
Defined.

(** [data_scan_counts] on three items: a phone number in prose, an item
    without value, and a text without anything to find. *)
Lemma data_scan_counts_witness :
  exists w',
    sample_data_scan [datum_regex_detector Sample.CommonRegex]
      [Sample.md "notes"]
      [Sample.dd "notes" (Some (PyStr "call me at 555-123-4567 thanks"));
       Sample.dd "notes" None;
       Sample.dd "notes" (Some (PyStr "see you"))]
      None (fresh [])
      = (Ok tt, w')
    /\ (exists debug,
          LOGGER w' = [] ++ debug ++ [summary_record 3 1]
          /\ Forall (fun rec => levelno rec = DEBUG) debug)
    /\ (exists recs,
          data_logger w' = [] ++ recs
          /\ Z.of_nat (length recs) = 1%Z
          /\ map raw_of recs =
               [Some (PyStr "call me at 555-123-4567 thanks")]).
Proof.
  eexists. split; [vm_compute; reflexivity|].
  match goal with
  | |- context [LOGGER ?w] =>
      assert (H : sample_data_scan [datum_regex_detector Sample.CommonRegex]
                    [Sample.md "notes"]
                    [Sample.dd "notes"
                       (Some (PyStr "call me at 555-123-4567 thanks"));
                     Sample.dd "notes" None;
                     Sample.dd "notes" (Some (PyStr "see you"))]
                    None (fresh []) = (Ok tt, w))
        by (vm_compute; reflexivity)
  end.
  apply data_scan_counts in H. cbv zeta in H.
  assert (E : count (dd_matched [datum_regex_detector Sample.CommonRegex])
                [Sample.dd "notes"
                   (Some (PyStr "call me at 555-123-4567 thanks"));
                 Sample.dd "notes" None;
                 Sample.dd "notes" (Some (PyStr "see you"))] = 1%Z)
    by (vm_compute; reflexivity).
  assert (F : map dd_value
                (filter (dd_matched [datum_regex_detector Sample.CommonRegex])
                   [Sample.dd "notes"
                      (Some (PyStr "call me at 555-123-4567 thanks"));
                    Sample.dd "notes" None;
                    Sample.dd "notes" (Some (PyStr "see you"))])
              = [Some (PyStr "call me at 555-123-4567 thanks")])
    by (vm_compute; reflexivity).
  rewrite E, F in H. destruct H as (HL & _ & Hd & _).
  split; [exact HL | exact Hd].
Defined.

(** [one_write_per_item] on a data scan over two columns. *)
Lemma one_write_per_item_witness :
  exists w',
    sample_data_scan [Sample.TextOnlyDetector; Sample.AnyValueDetector]
      [Sample.md "a"; Sample.md "b"]
      [Sample.dd "a" (Some (PyStr "x")); Sample.dd "b" (Some (PyStr "y"))]
      None (fresh [])
      = (Ok tt, w')
    /\ catalog_calls w' =
         [] ++ flat_map
                 (dd_writes [Sample.TextOnlyDetector; Sample.AnyValueDetector])
                 [Sample.dd "a" (Some (PyStr "x"));
                  Sample.dd "b" (Some (PyStr "y"))].
Proof.
  eexists. split; [vm_compute; reflexivity|].
  match goal with
  | |- catalog_calls ?w = _ =>
      assert (H : sample_data_scan
                    [Sample.TextOnlyDetector; Sample.AnyValueDetector]
                    [Sample.md "a"; Sample.md "b"]
                    [Sample.dd "a" (Some (PyStr "x"));
                     Sample.dd "b" (Some (PyStr "y"))]
                    None (fresh []) = (Ok tt, w))
        by (vm_compute; reflexivity)
  end.
  apply (proj2 (one_write_per_item Sample.Catalog Sample.set_column_pii_type
                  Sample.SMALL_TABLE_MAX Sample._filter_text_columns)) in H.
  destruct H as (Hcc & _). exact Hcc.
Defined.

(** [scans_are_deterministic] on a fresh world and on one whose logger
    already holds the summary of an earlier scan. *)
Lemma scans_are_deterministic_witness :
  catalog (fresh (Catalog := Sample.Catalog) []) =
    catalog (mkWorld [] [] [] [summary_record 1 0] [] [])
  /\ exists r d,
       sample_metadata_scan [column_name_regex_detector] []
         [Sample.md "user_email"] (fresh [])
         = (r, after_history (fresh []) d)
       /\ sample_metadata_scan [column_name_regex_detector] []
            [Sample.md "user_email"]
            (mkWorld [] [] [] [summary_record 1 0] [] [])
            = (r, after_history
                    (mkWorld [] [] [] [summary_record 1 0] [] []) d).
Proof.
  split; [reflexivity|].
  destruct (scans_are_deterministic Sample.Catalog Sample.set_column_pii_type
              Sample.SMALL_TABLE_MAX Sample._filter_text_columns
              [column_name_regex_detector] []
              [Sample.md "user_email"] [] [] None
              (fresh []) (mkWorld [] [] [] [summary_record 1 0] [] [])
              eq_refl)
    as ((r & d & H1 & H2 & _) & _).
  exists r, d. split; [exact H1 | exact H2].
Defined.

(** [faults_abort_the_scan] on a metadata scan whose second column makes a
    detector raise. *)
Lemma faults_abort_the_scan_witness :
  exists w1 w2 last,
    sample_metadata_scan [Sample.FragileDetector; column_name_regex_detector]
      [] [Sample.md "user_email"] (fresh [])
      = (Ok tt, w1)
    /\ md_probe (Sample.column "") Sample.FragileDetector =
         Raise (Exception "IndexError" "string index out of range")
    /\ sample_metadata_scan
         [Sample.FragileDetector; column_name_regex_detector] []
         ([Sample.md "user_email"] ++ Sample.md "" :: [Sample.md "zip_code"])
         (fresh [])
         = (Raise (Exception "IndexError" "string index out of range"), w2)
    /\ catalog_calls w2 =
         [] ++ flat_map
                 (md_writes
                    [Sample.FragileDetector; column_name_regex_detector])
                 [Sample.md "user_email"]
            ++ last
    /\ last = [].
Proof.
  eexists.
  assert (H : sample_metadata_scan
                [Sample.FragileDetector; column_name_regex_detector]
                [] [Sample.md "user_email"] (fresh []) = (Ok tt, _))
    by (vm_compute; reflexivity).
  destruct (proj1 (faults_abort_the_scan Sample.Catalog
                     Sample.set_column_pii_type
                     Sample.SMALL_TABLE_MAX Sample._filter_text_columns)
              [] Sample.FragileDetector [column_name_regex_detector]
              [] [Sample.md "user_email"] Sample.public Sample.users
              (Sample.column "") [Sample.md "zip_code"] (fresh []) _
              (Exception "IndexError" "string index out of range")
              H (Forall_nil _) (or_introl eq_refl))
    as (w2 & last & Hrun & Hcc & Hraise & _).
  exists w2, last.
  split; [exact H|]. split; [reflexivity|].
  split; [exact Hrun|]. split; [exact Hcc|].
  apply (Hraise eq_refl).
Defined.

(** [pass_is_password] on the name ["passport"]. *)
Lemma pass_is_password_witness :
  contains_ci (chars "pass") (chars "passport") = true
  /\ one_line (chars "passport") = true
  /\ Forall (fun e => entry_matches (Sample.column "passport") e = false)
       (entries_before Password ColumnNameRegexDetector.regex)
  /\ ColumnNameRegexDetector.detect (Sample.column "passport")
       = Some Password.
Proof.
  assert (Hb : Forall
                 (fun e => entry_matches (Sample.column "passport") e = false)
                 (entries_before Password ColumnNameRegexDetector.regex)).
  { repeat (constructor; [vm_compute; reflexivity|]). constructor. }
  split; [reflexivity|]. split; [reflexivity|]. split; [exact Hb|].
  apply (pass_is_password (Sample.column "passport")
           eq_refl eq_refl Hb).
Defined.

(** [datum_detector_first_recogniser] on a phone number in prose, with the
    sample recognisers. *)
Lemma datum_detector_first_recogniser_witness :
  phones Sample.CommonRegex (str (PyStr "call me at 555-123-4567 thanks"))
    = ["555-123-4567"]
  /\ DatumRegexDetector.detect Sample.CommonRegex (Sample.column "notes")
       (PyStr "call me at 555-123-4567 thanks") = Some Phone.
Proof.
  assert (E : phones Sample.CommonRegex
                (str (PyStr "call me at 555-123-4567 thanks"))
              = ["555-123-4567"])
    by (vm_compute; reflexivity).
  split; [exact E|].
  apply (proj1 (proj2 (datum_detector_first_recogniser Sample.CommonRegex
                         (Sample.column "notes")
                         (PyStr "call me at 555-123-4567 thanks")))).
  rewrite E. discriminate.
Defined.

(* ===================================================================== *)
(** ** The name patterns, word by word *)
(* ===================================================================== *)

Lemma chars_length s : length (chars s) = String.length s.
Proof.
  unfold chars. induction s as [|c s IH]; [reflexivity|].
  simpl. now rewrite IH.
Qed.

Lemma chars_app s1 s2 : chars (s1 ++ s2) = chars s1 ++ chars s2.
Proof.
  unfold chars. induction s1 as [|c s1 IH]; [reflexivity|].
  simpl. now rewrite IH.
Qed.

Lemma starts_with_ci_app_inv w1 : forall w2 l,
  starts_with_ci (w1 ++ w2) l = true ->
  starts_with_ci w1 l = true
  /\ starts_with_ci w2 (skipn (length w1) l) = true.
Proof.
  induction w1 as [|c w1 IH]; intros w2 l H.
  - split; [reflexivity | exact H].
  - destruct l as [|x l]; [discriminate H|].
    simpl in H. apply andb_true_iff in H. destruct H as [Hc H].
    destruct (IH _ _ H) as [H1 H2].
    simpl. rewrite Hc, H1. split; [reflexivity | exact H2].
Qed.

Lemma starts_with_ci_lower t : forall w rest,
  lowercase t = lowercase w -> starts_with_ci w (t ++ rest) = true.
Proof.
  induction t as [|x t IH]; intros [|c w] rest H; try discriminate H.
  - reflexivity.
  - simpl in H. inversion H as [[Hc Ht]].
    simpl. rewrite Hc, Ascii.eqb_refl. apply IH. exact Ht.
Qed.

Lemma starts_with_ci_suffix w : forall l b,
  starts_with_ci w l = true -> starts_with_ci w (l ++ b) = true.
Proof.
  induction w as [|c w IH]; intros l b H; [reflexivity|].
  destruct l as [|x l]; [discriminate H|].
  simpl in *. apply andb_true_iff in H. destruct H as [Hc H].
  rewrite Hc. apply IH. exact H.
Qed.

Lemma starts_with_ci_length w : forall l,
  starts_with_ci w l = true -> (length w <= length l)%nat.
Proof.
  induction w as [|c w IH]; intros l H; [simpl; lia|].
  destruct l as [|x l]; [discriminate H|].
  simpl in *. apply andb_true_iff in H. destruct H as [_ H].
  apply IH in H. lia.
Qed.

Lemma contains_ci_starts w l :
  starts_with_ci w l = true -> contains_ci w l = true.
Proof. intros H. destruct l; simpl; rewrite H; reflexivity. Qed.

Lemma contains_ci_prefix w a : forall l,
  contains_ci w l = true -> contains_ci w (a ++ l) = true.
Proof.
  induction a as [|x a IH]; intros l H; [exact H|].
  simpl. rewrite (IH l H). apply orb_true_r.
Qed.

Lemma contains_ci_suffix w : forall l b,
  contains_ci w l = true -> contains_ci w (l ++ b) = true.
Proof.
  induction l as [|x l IH]; intros b H.
  - simpl in H. rewrite orb_false_r in H.
    apply contains_ci_starts.
    apply (starts_with_ci_suffix w [] b H).
  - cbn [contains_ci] in H. apply orb_true_iff in H.
    destruct H as [H | H].
    + apply contains_ci_starts.
      apply (starts_with_ci_suffix w (x :: l) b H).
    + simpl. rewrite (IH b H). apply orb_true_r.
Qed.

Lemma contains_ci_length w : forall l,
  contains_ci w l = true -> (length w <= length l)%nat.
Proof.
  induction l as [|x l IH]; intros H.
  - simpl in H. rewrite orb_false_r in H.
    apply (starts_with_ci_length w [] H).
  - cbn [contains_ci] in H. apply orb_true_iff in H.
    destruct H as [H | H].
    + apply (starts_with_ci_length w (x :: l) H).
    + apply IH in H. simpl. lia.
Qed.

Lemma no_LF_lower t : forall w,
  lowercase t = lowercase w -> no_LF w = true -> no_LF t = true.
Proof.
  induction t as [|x t IH]; intros [|c w] H Hw; try discriminate H.
  - reflexivity.
  - simpl in H. inversion H as [[Hx Ht]].
    simpl in *. apply andb_true_iff in Hw. destruct Hw as [Hc Hw].
    rewrite <- lower_LF, Hx, lower_LF, Hc. simpl.
    apply (IH w Ht Hw).
Qed.

Lemma one_line_app a : forall b,
  no_LF a = true -> one_line b = true -> one_line (a ++ b) = true.
Proof.
  induction a as [|x a IH]; intros b Ha Hb; [exact Hb|].
  simpl in Ha. apply andb_true_iff in Ha. destruct Ha as [Hx Ha].
  cbn [app]. assert (IHb := IH b Ha Hb).
  destruct (a ++ b) as [|y l]; [reflexivity|].
  change (negb (Ascii.eqb x Re.LF) && one_line (y :: l) = true).
  now rewrite Hx, IHb.
Qed.

Lemma one_line_skipn n : forall l,
  one_line l = true -> one_line (skipn n l) = true.
Proof.
  induction n as [|n IH]; intros l H; [exact H|].
  destruct l as [|x l]; [reflexivity|].
  simpl. apply IH. apply (one_line_tail x l H).
Qed.

(** A pattern of literal words matches, at the start of a text, every one
    of its words, and leaves the text after the word. *)
Lemma simple_run_complete r : simple r = true ->
  forall w l pos,
    In w (lang r) -> starts_with_ci w l = true ->
    In (pos + length w, skipn (length w) l) (Re.run true r (pos, l)).
Proof.
  induction r as [c| | |r1 IH1 r2 IH2|r1 IH1 r2 IH2|r IH| |];
    intros Hs w l pos Hw Hl; try discriminate Hs.
  - simpl in Hw. destruct Hw as [<- | []].
    destruct l as [|x l]; [discriminate Hl|].
    simpl in Hl. rewrite andb_true_r in Hl.
    simpl. rewrite Hl. left. now rewrite Nat.add_1_r.
  - simpl in Hw. destruct Hw as [<- | []].
    simpl. left. now rewrite Nat.add_0_r.
  - simpl in Hs. apply andb_true_iff in Hs. destruct Hs as [Hs1 Hs2].
    simpl in Hw. apply in_flat_map in Hw. destruct Hw as (w1 & Hw1 & Hw).
    apply in_map_iff in Hw. destruct Hw as (w2 & <- & Hw2).
    apply starts_with_ci_app_inv in Hl. destruct Hl as [Hl1 Hl2].
    apply (run_seq true) with (st1 := (pos + length w1, skipn (length w1) l)).
    + apply IH1; assumption.
    + rewrite length_app, Nat.add_assoc.
      replace (skipn (length w1 + length w2) l)
        with (skipn (length w2) (skipn (length w1) l))
        by (rewrite skipn_skipn; f_equal; lia).
      apply IH2; assumption.
  - simpl in Hs. apply andb_true_iff in Hs. destruct Hs as [Hs1 Hs2].
    simpl in Hw. apply in_app_iff in Hw. simpl. apply in_or_app.
    destruct Hw as [Hw | Hw]; [left; apply IH1 | right; apply IH2];
      assumption.
Qed.

(** A match of a pattern of literal words consumes a text equal to one of
    the words, up to case. *)
Lemma simple_run_sound r : simple r = true ->
  forall st st',
    In st' (Re.run true r st) ->
    exists t w,
      In w (lang r) /\ snd st = t ++ snd st'
      /\ lowercase t = lowercase w
      /\ fst st' = fst st + length t.
Proof.
  induction r as [c| | |r1 IH1 r2 IH2|r1 IH1 r2 IH2|r IH| |];
    intros Hs st st' H; try discriminate Hs.
  - simpl in H. destruct (snd st) as [|x rest] eqn:E; [destruct H|].
    unfold Re.chr_eq in H.
    destruct (Ascii.eqb (Re.lower c) (Re.lower x)) eqn:Hc; [|destruct H].
    simpl in H. destruct H as [<- | []].
    apply Ascii.eqb_eq in Hc.
    exists [x], [c]. simpl. rewrite Hc.
    repeat split; [now left | now rewrite Nat.add_1_r].
  - simpl in H. destruct H as [<- | []].
    exists [], []. simpl. repeat split; [now left | now rewrite Nat.add_0_r].
  - simpl in Hs. apply andb_true_iff in Hs. destruct Hs as [Hs1 Hs2].
    simpl in H. apply in_flat_map in H. destruct H as (mid & H1 & H2).
    destruct (IH1 Hs1 _ _ H1) as (t1 & w1 & Hw1 & E1 & L1 & P1).
    destruct (IH2 Hs2 _ _ H2) as (t2 & w2 & Hw2 & E2 & L2 & P2).
    exists (t1 ++ t2), (w1 ++ w2). repeat split.
    + simpl. apply in_flat_map. exists w1. split; [exact Hw1|].
      apply in_map. exact Hw2.
    + rewrite E1, E2. now rewrite app_assoc.
    + unfold lowercase in *. now rewrite !map_app, L1, L2.
    + rewrite P2, P1, length_app. lia.
  - simpl in Hs. apply andb_true_iff in Hs. destruct Hs as [Hs1 Hs2].
    simpl in H. apply in_app_iff in H. destruct H as [H | H].
    + destruct (IH1 Hs1 _ _ H) as (t & w & Hw & E & L & P).
      exists t, w. repeat split; try assumption.
      simpl. apply in_or_app. now left.
    + destruct (IH2 Hs2 _ _ H) as (t & w & Hw & E & L & P).
      exists t, w. repeat split; try assumption.
      simpl. apply in_or_app. now right.
Qed.

(** [.*] consumes characters other than the line feed. *)
Lemma star_dot_sound ic fuel : forall st st',
  In st' (Re.star_run (Re.run ic Re.Dot) fuel st) ->
  exists a, snd st = a ++ snd st' /\ no_LF a = true.
Proof.
  induction fuel as [|fuel IH]; intros st st' H.
  - simpl in H. destruct H as [<- | []]. now exists [].
  - simpl in H. apply in_app_iff in H. destruct H as [H | H].
    + apply in_flat_map in H. destruct H as (st1 & H1 & H).
      destruct (snd st) as [|x rest] eqn:E; [destruct H1|].
      destruct (Ascii.eqb x Re.LF) eqn:Hx; [destruct H1|].
      simpl in H1. destruct H1 as [<- | []].
      cbn [snd] in H.
      destruct (length rest <? length (x :: rest))%nat; [|destruct H].
      destruct (IH _ _ H) as (a & Ea & Ha). cbn [snd] in Ea.
      exists (x :: a). simpl. rewrite Hx, Ha, Ea. now split.
    + simpl in H. destruct H as [<- | []]. now exists [].
Qed.

Lemma run_eol_inv ic st st' :
  In st' (Re.run ic Re.Eol st) ->
  st' = st /\ one_line (snd st) = true /\ (length (snd st) <= 1)%nat.
Proof.
  simpl. destruct (snd st) as [|x [|y l]]; intros H.
  - destruct H as [<- | []]. repeat split. simpl. lia.
  - destruct (Ascii.eqb x Re.LF); [|destruct H].
    destruct H as [<- | []]. repeat split. simpl. lia.
  - destruct H.
Qed.

Lemma run_body_to_eol body w : simple body = true -> In w (lang body) ->
  forall l pos,
    starts_with_ci w l = true -> one_line l = true ->
    exists st,
      In st (Re.run true (Re.Seq body (Re.Seq (Re.Star Re.Dot) Re.Eol))
               (pos, l)).
Proof.
  intros Hs Hw l pos Hl H1.
  destruct (run_to_eol true (skipn (length w) l) (pos + length w)
              (one_line_skipn _ _ H1)) as (st & Hst).
  exists st. apply (run_seq true) with (2 := Hst).
  apply simple_run_complete; assumption.
Qed.

Lemma run_contains_body body w : simple body = true -> In w (lang body) ->
  forall l pos,
    contains_ci w l = true -> one_line l = true ->
    exists st,
      In st (Re.run true
               (Re.Seq (Re.Star Re.Dot)
                  (Re.Seq body (Re.Seq (Re.Star Re.Dot) Re.Eol)))
               (pos, l)).
Proof.
  intros Hs Hin. induction l as [|x l IH]; intros pos Hw Hl.
  - simpl in Hw. rewrite orb_false_r in Hw.
    destruct (run_body_to_eol body w Hs Hin [] pos Hw Hl) as (st & Hst).
    exists st. apply (run_seq true) with (st1 := (pos, [])); [|exact Hst].
    apply star_run_here.
  - cbn [contains_ci] in Hw. apply orb_true_iff in Hw.
    destruct Hw as [Hw | Hw].
    + destruct (run_body_to_eol body w Hs Hin (x :: l) pos Hw Hl)
        as (st & Hst).
      exists st.
      apply (run_seq true) with (st1 := (pos, x :: l)); [|exact Hst].
      apply star_run_here.
    + destruct l as [|y l].
      * simpl in Hw. rewrite orb_false_r in Hw.
        assert (Hw' : starts_with_ci w [x] = true).
        { destruct w; [reflexivity | discriminate]. }
        destruct (run_body_to_eol body w Hs Hin [x] pos Hw' Hl)
          as (st & Hst).
        exists st.
        apply (run_seq true) with (st1 := (pos, [x])); [|exact Hst].
        apply star_run_here.
      * cbn [one_line] in Hl. apply andb_true_iff in Hl.
        destruct Hl as [Hx Hl]. apply negb_true_iff in Hx.
        destruct (IH (S pos) Hw Hl) as (st & Hst).
        apply run_seq_inv in Hst. destruct Hst as (mid & Hmid & Hst).
        exists st. apply (run_seq true) with (st1 := mid); [|exact Hst].
        apply star_dot_next; assumption.
Qed.

(** What [^.*body.*$] with IGNORECASE matches, for a body of literal
    words: the texts of one line that contain one of the words. *)
Lemma wild_sound body l pos st :
  simple body = true -> forallb no_LF (lang body) = true ->
  In st (Re.run true (Re.wild body) (pos, l)) ->
  one_line l = true
  /\ existsb (fun w => contains_ci w l) (lang body) = true.
Proof.
  intros Hs Hn H. unfold Re.wild in H.
  apply run_seq_inv in H. destruct H as (st1 & H1 & H).
  apply run_seq_inv in H. destruct H as (st2 & H2 & H).
  apply run_seq_inv in H. destruct H as (st3 & H3 & H).
  apply run_seq_inv in H. destruct H as (st4 & H4 & H).
  simpl in H1. destruct (pos =? 0)%nat; [|destruct H1].
  destruct H1 as [<- | []].
  apply star_dot_sound in H2. destruct H2 as (a & Ea & Ha).
  apply (simple_run_sound body Hs) in H3.
  destruct H3 as (t & w & Hw & Et & Lt & _).
  apply star_dot_sound in H4. destruct H4 as (b & Eb & Hb).
  apply run_eol_inv in H. destruct H as (_ & He & _).
  cbn [snd] in Ea. rewrite Et, Eb in Ea. subst l.
  rewrite forallb_forall in Hn.
  split.
  - apply one_line_app; [exact Ha|].
    apply one_line_app; [exact (no_LF_lower t w Lt (Hn w Hw))|].
    apply one_line_app; assumption.
  - apply existsb_exists. exists w. split; [exact Hw|].
    apply contains_ci_prefix, contains_ci_starts.
    apply starts_with_ci_lower. exact Lt.
Qed.

Lemma wild_complete body l :
  simple body = true ->
  one_line l = true ->
  existsb (fun w => contains_ci w l) (lang body) = true ->
  exists st, In st (Re.run true (Re.wild body) (0, l)).
Proof.
  intros Hs Hl Hw. apply existsb_exists in Hw. destruct Hw as (w & Hin & Hw).
  destruct (run_contains_body body w Hs Hin l 0 Hw Hl) as (st & Hst).
  exists st. unfold Re.wild.
  apply (run_seq true) with (st1 := (0, l)); [|exact Hst].
  simpl. now left.
Qed.

Lemma wild_match_words body s :
  simple body = true -> forallb no_LF (lang body) = true ->
  match Re.match_ (Re.compile (Re.wild body) Re.IGNORECASE) s with
  | Some _ => true
  | None => false
  end
  = one_line (chars s)
    && existsb (fun w => contains_ci w (chars s)) (lang body).
Proof.
  intros Hs Hn. unfold Re.match_, chars.
  cbn [Re.ignorecase Re.flags Re.pattern].
  destruct (Re.run true (Re.wild body) (0, list_ascii_of_string s))
    as [|st res] eqn:E.
  - symmetry. apply not_true_iff_false. intros H.
    apply andb_true_iff in H. destruct H as [Hl Hw].
    destruct (wild_complete body _ Hs Hl Hw) as (st & Hst).
    rewrite E in Hst. destruct Hst.
  - symmetry. apply andb_true_iff.
    apply (wild_sound body _ 0 st Hs Hn). rewrite E. now left.
Qed.

(** Every entry of the table is [^.*(w1|w2|...).*$] with IGNORECASE, for
    literal words without a line feed. *)
Lemma table_shape :
  Forall
    (fun e => snd e = Re.compile (Re.wild (entry_body e)) Re.IGNORECASE
              /\ simple (entry_body e) = true
              /\ forallb no_LF (entry_words e) = true)
    ColumnNameRegexDetector.regex.
Proof.
  unfold ColumnNameRegexDetector.regex.
  repeat (apply Forall_cons; [repeat split; vm_compute; reflexivity|]).
  apply Forall_nil.
Qed.

(** An entry of the table matches the names of one line that contain one
    of its words. *)
Lemma table_semantics column :
  Forall (fun e => entry_matches column e = holds_word column e)
    ColumnNameRegexDetector.regex.
Proof.
  eapply Forall_impl; [|exact table_shape].
  intros e (Ee & Hs & Hn). unfold entry_matches, holds_word, entry_words.
  rewrite Ee at 1. apply wild_match_words; assumption.
Qed.

Lemma detect_in_find table column :
  ColumnNameRegexDetector.detect_in table column =
    option_map fst (find (entry_matches column) table).
Proof.
  induction table as [|[t ex] table IH]; [reflexivity|].
  cbn [ColumnNameRegexDetector.detect_in find]. unfold entry_matches at 1.
  cbn [snd]. destruct (Re.match_ ex (CatColumn.name column)); [reflexivity|].
  exact IH.
Qed.

Lemma find_ext_Forall {A : Type} (f g : A -> bool) l :
  Forall (fun a => f a = g a) l -> find f l = find g l.
Proof.
  induction 1 as [|a l E _ IH]; [reflexivity|].
  simpl. now rewrite E, IH.
Qed.

Lemma detect_find_word column :
  ColumnNameRegexDetector.detect column =
    option_map fst (find (holds_word column) ColumnNameRegexDetector.regex).
Proof.
  unfold ColumnNameRegexDetector.detect. rewrite detect_in_find.
  f_equal. apply find_ext_Forall, table_semantics.
Qed.

(** *** Words within words *)

Lemma starts_with_ci_split w : forall l,
  starts_with_ci w l = true ->
  exists t b, l = t ++ b /\ lowercase t = lowercase w.
Proof.
  induction w as [|c w IH]; intros l H.
  - now exists [], l.
  - destruct l as [|x l]; [discriminate H|].
    simpl in H. apply andb_true_iff in H. destruct H as [Hc H].
    apply Ascii.eqb_eq in Hc.
    destruct (IH l H) as (t & b & -> & Ht).
    exists (x :: t), b. simpl. now rewrite Ht, Hc.
Qed.

Lemma contains_ci_split w : forall l,
  contains_ci w l = true ->
  exists a t b, l = a ++ t ++ b /\ lowercase t = lowercase w.
Proof.
  induction l as [|x l IH]; intros H.
  - simpl in H. rewrite orb_false_r in H.
    destruct (starts_with_ci_split w [] H) as (t & b & E & Ht).
    now exists [], t, b.
  - cbn [contains_ci] in H. apply orb_true_iff in H. destruct H as [H | H].
    + destruct (starts_with_ci_split w _ H) as (t & b & E & Ht).
      now exists [], t, b.
    + destruct (IH H) as (a & t & b & -> & Ht).
      now exists (x :: a), t, b.
Qed.

Lemma contains_ci_join a t b w :
  lowercase t = lowercase w -> contains_ci w (a ++ t ++ b) = true.
Proof.
  intros H. apply contains_ci_prefix, contains_ci_starts.
  apply starts_with_ci_lower. exact H.
Qed.

(** Containment without regard to case is transitive. *)
Lemma contains_ci_trans v w l :
  contains_ci v w = true -> contains_ci w l = true ->
  contains_ci v l = true.
Proof.
  intros Hv Hw.
  destruct (contains_ci_split v w Hv) as (a & t & b & -> & Ht).
  destruct (contains_ci_split _ l Hw) as (a' & t' & b' & -> & Ht').
  unfold lowercase in Ht'. rewrite !map_app in Ht'.
  apply map_eq_app in Ht'. destruct Ht' as (ta & r & -> & Ha & Hr).
  apply map_eq_app in Hr. destruct Hr as (tt & tb & -> & Htt & Hb).
  replace (a' ++ (ta ++ tt ++ tb) ++ b')
    with ((a' ++ ta) ++ tt ++ (tb ++ b'))
    by (now rewrite <- !app_assoc).
  apply contains_ci_join. unfold lowercase in *. now rewrite Htt.
Qed.

(** *** A line feed at the end of the text *)

Lemma starts_with_ci_snoc_LF w : no_LF w = true ->
  forall l, starts_with_ci w (l ++ [Re.LF]) = starts_with_ci w l.
Proof.
  induction w as [|c w IH]; intros Hw l; [reflexivity|].
  simpl in Hw. apply andb_true_iff in Hw. destruct Hw as [Hc Hw].
  apply negb_true_iff in Hc.
  destruct l as [|x l].
  - cbn [app starts_with_ci].
    change (Re.lower Re.LF) with Re.LF. now rewrite lower_LF, Hc.
  - cbn [app starts_with_ci]. now rewrite (IH Hw).
Qed.

Lemma contains_ci_snoc_LF w : no_LF w = true ->
  forall l, contains_ci w (l ++ [Re.LF]) = contains_ci w l.
Proof.
  intros Hw. induction l as [|x l IH].
  - assert (E := starts_with_ci_snoc_LF w Hw []). cbn [app] in E.
    cbn [app contains_ci]. rewrite E.
    now destruct (starts_with_ci w []).
  - cbn [app contains_ci].
    change (x :: l ++ [Re.LF]) with ((x :: l) ++ [Re.LF]).
    now rewrite (starts_with_ci_snoc_LF w Hw), IH.
Qed.

Lemma no_LF_one_line l : no_LF l = true -> one_line l = true.
Proof.
  intros H. rewrite <- (app_nil_r l). now apply one_line_app.
Qed.

(** *** The place of a type in the table *)

Lemma PiiType_eqb_eq a b : PiiType_eqb a b = true <-> a = b.
Proof.
  split; [destruct a, b; (reflexivity || discriminate)|].
  intros <-. now destruct a.
Qed.

Lemma entries_before_head (e : PiiType * Re.Pattern) table :
  entries_before (fst e) (e :: table) = [].
Proof.
  simpl. now rewrite (proj2 (PiiType_eqb_eq _ _) eq_refl).
Qed.

Lemma entries_before_tail (e0 : PiiType * Re.Pattern) t table :
  fst e0 <> t ->
  entries_before t (e0 :: table) = e0 :: entries_before t table.
Proof.
  intros H. simpl. destruct (PiiType_eqb (fst e0) t) eqn:E; [|reflexivity].
  apply PiiType_eqb_eq in E. contradiction.
Qed.

(** When every entry found by [f] is also found by [g], the first entry
    found by [g] comes no later than the first found by [f]. *)
Lemma find_earlier (f g : PiiType * Re.Pattern -> bool) table :
  NoDup (map fst table) ->
  (forall e, In e table -> f e = true -> g e = true) ->
  forall e, find f table = Some e ->
    exists e', find g table = Some e'
      /\ (length (entries_before (fst e') table)
          <= length (entries_before (fst e) table))%nat.
Proof.
  induction table as [|e0 table IH]; intros Hnd Hfg e H; [discriminate H|].
  inversion Hnd as [|? ? Hnot Hnd']; subst.
  cbn [find] in *. destruct (g e0) eqn:G.
  - exists e0. split; [reflexivity|].
    rewrite entries_before_head. simpl. lia.
  - destruct (f e0) eqn:F.
    + rewrite (Hfg e0 (or_introl eq_refl) F) in G. discriminate G.
    + destruct (IH Hnd' (fun e1 H1 => Hfg e1 (or_intror H1)) e H)
        as (e' & He' & Hle).
      exists e'. split; [exact He'|].
      assert (Hin : forall e1 h, find h table = Some e1 -> fst e0 <> fst e1).
      { intros e1 h H1 E. apply find_some in H1. destruct H1 as [H1 _].
        apply Hnot. rewrite E. now apply in_map. }
      rewrite (entries_before_tail e0 _ table (Hin _ _ He')).
      rewrite (entries_before_tail e0 _ table (Hin _ _ H)).
      simpl. lia.
Qed.

Lemma find_none_Forall {A : Type} (f : A -> bool) l :
  Forall (fun a => f a = false) l -> find f l = None.
Proof.
  induction 1 as [|a l E _ IH]; [reflexivity|].
  simpl. now rewrite E.
Qed.

Lemma table_types_distinct : NoDup (map fst ColumnNameRegexDetector.regex).
Proof.
  unfold ColumnNameRegexDetector.regex. cbn [map fst].
  repeat (apply NoDup_cons;
          [cbn [In]; intros H;
           repeat (destruct H as [H | H]; [discriminate H|]); exact H|]).
  apply NoDup_nil.
Qed.

Lemma table_words_length :
  Forall
    (fun e => Forall (fun w => (3 <= length w)%nat) (entry_words e))
    ColumnNameRegexDetector.regex.
Proof.
  assert (H : forallb
                (fun e => forallb (fun w => (3 <=? length w)%nat)
                            (entry_words e))
                ColumnNameRegexDetector.regex = true)
    by (vm_compute; reflexivity).
  apply Forall_forall. intros e He. apply Forall_forall. intros w Hw.
  rewrite forallb_forall in H. specialize (H e He).
  rewrite forallb_forall in H. apply Nat.leb_le. exact (H w Hw).
Qed.

(** Two lists of words find the same texts when each word of the first
    contains a word of the second, and the second is part of the first. *)
Lemma existsb_contains_reduce ws vs l :
  Forall (fun w => existsb (fun v => contains_ci v w) vs = true) ws ->
  incl vs ws ->
  existsb (fun w => contains_ci w l) ws
  = existsb (fun v => contains_ci v l) vs.
Proof.
  intros Hws Hvs. apply eq_true_iff_eq. rewrite !existsb_exists. split.
  - intros (w & Hw & Hl). rewrite Forall_forall in Hws.
    specialize (Hws w Hw). apply existsb_exists in Hws.
    destruct Hws as (v & Hv & Hvw).
    exists v. split; [exact Hv|]. exact (contains_ci_trans v w l Hvw Hl).
  - intros (v & Hv & Hl). exists v. split; [apply Hvs; exact Hv | exact Hl].
Qed.

(* ===================================================================== *)
(** ** ColumnNameRegexDetector: what a name is classified by *)
(* ===================================================================== *)

(** X1: the name detector classifies a column by the words its name
    contains.  It returns the type of the first entry of the table, in table
    order, one of whose words occurs in the name, letters compared without
    regard to case, provided the name is one line (no line feed, except
    possibly as its last character); it returns [None] when there is no
    such entry.  The words are those of the table's patterns, listed
    here. *)
Theorem name_detector_by_words :
  (forall column,
     ColumnNameRegexDetector.detect column =
       option_map fst
         (find (holds_word column) ColumnNameRegexDetector.regex))
  /\ map (fun e => (fst e, map string_of_list_ascii (entry_words e)))
       ColumnNameRegexDetector.regex =
     [(Person,
       ["firstname"; "fname"; "lastname"; "lname"; "fullname";
        "maidenname"; "_name"; "nickname"; "name_suffix"; "name"; "person";
        "nama"; "nama_lengkap"; "nama_panjang"]);
      (Email, ["email"; "e-mail"; "mail"]);
      (BirthDate,
       ["date_of_birth"; "dateofbirth"; "dob"; "birthday"; "date_of_death";
        "dateofdeath"; "birthdate"; "tanggal_lahir"]);
      (Gender, ["gender"; "jenis_kelamin"]);
      (Nationality, ["nationality"]);
      (Address,
       ["address"; "city"; "state"; "county"; "country"; "zone"; "borough";
        "alamat"; "provinsi"; "kota"; "kabupaten"; "kecamatan";
        "kelurahan"; "desa"; "nomor_rumah"]);
      (ZipCode,
       ["zipcode"; "zip_code"; "postal"; "postal_code"; "zip"; "kode_pos";
        "pos"]);
      (UserName, ["userid"; "username"; "user"]);
      (Password, ["pass"]);
      (SSN,
       ["ssn"; "social_number"; "social_security";
        "social_security_number"; "social_security_no"]);
      (PoBox, ["po_box"; "pobox"]);
      (CreditCard,
       ["credit_card"; "cc_number"; "cc_num"; "creditcard";
        "credit_card_num"; "creditcardnumber"; "kartu_kredit";
        "nomor_rekening"; "rekening"]);
      (Phone,
       ["phone"; "phone_number"; "phone_no"; "phone_num"; "telephone";
        "telephone_num"; "telephone_no"; "telp"; "nomor_telepon";
        "nomor_handphone"; "handphone"; "telepon"; "no_telepon";
        "no_handphone"]);
      (KTP,
       ["ktp"; "ktp_name"; "ktp_number"; "nama_ktp"; "nomor_ktp";
        "ktp_nama"; "ktp_nomor"; "ktp_no"])].
Proof.
  split; [exact detect_find_word | vm_compute; reflexivity].
Qed.

(** X2: a column whose name has a line feed before its last character is
    never classified, whatever words the name contains. *)
Theorem name_across_lines_is_unclassified column :
  one_line (chars (CatColumn.name column)) = false ->
  ColumnNameRegexDetector.detect column = None.
Proof.
  intros H. rewrite detect_find_word.
  rewrite find_none_Forall; [reflexivity|].
  apply Forall_forall. intros e _. unfold holds_word. now rewrite H.
Qed.

(** X3: a column is classified as Person exactly when its name is one line
    and contains ["name"], ["person"] or ["nama"], letters compared without
    regard to case: the other words of the Person pattern add nothing, and
    no other entry of the table can take such a name. *)
Theorem person_by_three_words column :
  ColumnNameRegexDetector.detect column = Some Person <->
  one_line (chars (CatColumn.name column)) = true
  /\ existsb
       (fun v => contains_ci (chars v) (chars (CatColumn.name column)))
       ["name"; "person"; "nama"] = true.
Proof.
  rewrite detect_find_word. unfold ColumnNameRegexDetector.regex.
  match goal with
  | |- context [find _ (?e0 :: ?tl)] => set (head := e0); set (rest := tl)
  end.
  assert (E : holds_word column head
              = one_line (chars (CatColumn.name column))
                && existsb
                     (fun v =>
                        contains_ci (chars v) (chars (CatColumn.name column)))
                     ["name"; "person"; "nama"]).
  { unfold holds_word. f_equal.
    change (existsb
              (fun v => contains_ci (chars v) (chars (CatColumn.name column)))
              ["name"; "person"; "nama"])
      with (existsb
              (fun v => contains_ci v (chars (CatColumn.name column)))
              [chars "name"; chars "person"; chars "nama"]).
    apply existsb_contains_reduce.
    - assert (H : forallb
                    (fun w =>
                       existsb (fun v => contains_ci v w)
                         [chars "name"; chars "person"; chars "nama"])
                    (entry_words head) = true)
        by (vm_compute; reflexivity).
      apply Forall_forall. rewrite forallb_forall in H. exact H.
    - intros v Hv. vm_compute. vm_compute in Hv. tauto. }
  cbn [find]. rewrite <- andb_true_iff, <- E.
  destruct (holds_word column head); [split; reflexivity|].
  split; [|discriminate].
  intros H. exfalso.
  destruct (find (holds_word column) rest) as [e|] eqn:F; [|discriminate H].
  apply find_some in F. destruct F as [F _].
  simpl in H. injection H as H.
  apply (in_map fst) in F. rewrite H in F.
  cbn [rest map fst In] in F.
  repeat (destruct F as [F | F]; [discriminate F|]). exact F.
Qed.

(** X4: a longer name keeps a classification.  When a column is classified
    with type [t], every column whose name is one line and contains the
    first column's name, letters compared without regard to case, is
    classified too, with [t] or with a type listed earlier in the table. *)
Theorem longer_name_keeps_a_class c c' t :
  ColumnNameRegexDetector.detect c = Some t ->
  one_line (chars (CatColumn.name c')) = true ->
  contains_ci (chars (CatColumn.name c)) (chars (CatColumn.name c')) = true ->
  exists t',
    ColumnNameRegexDetector.detect c' = Some t' /\ (rank t' <= rank t)%nat.
Proof.
  intros Hc Hl Hin. rewrite detect_find_word in Hc.
  destruct (find (holds_word c) ColumnNameRegexDetector.regex)
    as [e|] eqn:F; [|discriminate Hc].
  simpl in Hc. injection Hc as <-.
  destruct (find_earlier (holds_word c) (holds_word c')
              ColumnNameRegexDetector.regex table_types_distinct) with (e := e)
    as (e' & F' & Hle); [|exact F|].
  - intros e1 _ H1. unfold holds_word in *.
    apply andb_true_iff in H1. destruct H1 as [_ H1].
    rewrite Hl. simpl. apply existsb_exists in H1.
    destruct H1 as (w & Hw & H1). apply existsb_exists.
    exists w. split; [exact Hw|].
    exact (contains_ci_trans _ _ _ H1 Hin).
  - exists (fst e'). rewrite detect_find_word, F'. split; [reflexivity|].
    exact Hle.
Qed.

(** X5: a column whose name has fewer than three characters, the empty
    name among them, is never classified. *)
Theorem short_name_is_unclassified column :
  (String.length (CatColumn.name column) < 3)%nat ->
  ColumnNameRegexDetector.detect column = None.
Proof.
  intros H. rewrite detect_find_word.
  rewrite find_none_Forall; [reflexivity|].
  eapply Forall_impl; [|exact table_words_length].
  intros e He. unfold holds_word.
  apply not_true_iff_false. intros Hh.
  apply andb_true_iff in Hh. destruct Hh as [_ Hh].
  apply existsb_exists in Hh. destruct Hh as (w & Hw & Hh).
  rewrite Forall_forall in He. specialize (He w Hw).
  apply contains_ci_length in Hh. rewrite chars_length in Hh. lia.
Qed.

(** X6: one line feed at the end of a name is ignored: a name without a
    line feed is classified the same with a line feed added at its end.
    (The [fqdn] of the column has no part either.) *)
Theorem final_line_feed_is_ignored s fqdn1 fqdn2 :
  no_LF (chars s) = true ->
  ColumnNameRegexDetector.detect
    (CatColumn.make (String.append s (String Re.LF "")) fqdn1)
  = ColumnNameRegexDetector.detect (CatColumn.make s fqdn2).
Proof.
  intros H. rewrite !detect_find_word. f_equal.
  apply find_ext_Forall.
  eapply Forall_impl; [|exact table_shape].
  intros e (_ & _ & Hn). unfold holds_word. cbn [CatColumn.name].
  rewrite chars_app. change (chars (String Re.LF "")) with [Re.LF].
  rewrite (one_line_app (chars s) [Re.LF] H eq_refl).
  rewrite (no_LF_one_line _ H). f_equal.
  rewrite forallb_forall in Hn.
  clear - Hn. induction (entry_words e) as [|w ws IH]; [reflexivity|].
  simpl. rewrite (contains_ci_snoc_LF w (Hn w (or_introl eq_refl))).
  f_equal. apply IH. intros w' Hw'. apply Hn. now right.
Qed.

Lemma name_across_lines_is_unclassified_witness :
  one_line (chars (String.append "email" (String Re.LF "address"))) = false
  /\ ColumnNameRegexDetector.detect
       (Sample.column (String.append "email" (String Re.LF "address")))
     = None.
Proof.
  split; [reflexivity|].
  apply name_across_lines_is_unclassified. reflexivity.
Defined.

Lemma longer_name_keeps_a_class_witness :
  ColumnNameRegexDetector.detect (Sample.column "user") = Some UserName
  /\ exists t',
       ColumnNameRegexDetector.detect (Sample.column "username") = Some t'
       /\ (rank t' <= rank UserName)%nat.
Proof.
  assert (H : ColumnNameRegexDetector.detect (Sample.column "user")
              = Some UserName)
    by (vm_compute; reflexivity).
  split; [exact H|].
  apply (longer_name_keeps_a_class (Sample.column "user")
           (Sample.column "username") UserName H);
    vm_compute; reflexivity.
Defined.

Lemma short_name_is_unclassified_witness :
  (String.length (CatColumn.name (Sample.column "id")) < 3)%nat
  /\ ColumnNameRegexDetector.detect (Sample.column "id") = None.
Proof.
  split; [simpl; lia|].
  apply short_name_is_unclassified. simpl. lia.
Defined.

Lemma final_line_feed_is_ignored_witness :
  no_LF (chars "email") = true
  /\ ColumnNameRegexDetector.detect
       (CatColumn.make (String.append "email" (String Re.LF "")) "t.email")
     = ColumnNameRegexDetector.detect (CatColumn.make "email" "t.email").
Proof.
  split; [reflexivity|].
  apply final_line_feed_is_ignored. reflexivity.
Defined.

(* ===================================================================== *)
(** ** The scan drivers: batches, bounds and where a write comes from *)
(* ===================================================================== *)

Section MoreScanFacts.

Variable Catalog : Type.
Variable set_column_pii_type :
  Catalog -> CatColumn.t -> PiiType -> string -> result unit * Catalog.
Variable SMALL_TABLE_MAX : Z.
Variable _filter_text_columns : list CatColumn.t -> list CatColumn.t.

Local Abbreviation World := (World Catalog).
Local Abbreviation metadata_detectors :=
  (metadata_detectors Catalog set_column_pii_type).
Local Abbreviation metadata_item := (metadata_item Catalog set_column_pii_type).
Local Abbreviation metadata_loop := (metadata_loop Catalog set_column_pii_type).
Local Abbreviation metadata_scan := (metadata_scan Catalog set_column_pii_type).
Local Abbreviation data_detectors := (data_detectors Catalog set_column_pii_type).
Local Abbreviation data_item := (data_item Catalog set_column_pii_type).
Local Abbreviation data_loop := (data_loop Catalog set_column_pii_type).
Local Abbreviation data_scan :=
  (data_scan Catalog set_column_pii_type SMALL_TABLE_MAX _filter_text_columns).
Local Abbreviation apply_writes := (apply_writes set_column_pii_type).

Ltac run_step :=
  simpl;
  unfold bind, ret, call_detect, call_detect_datum,
    catalog_set_column_pii_type, LOGGER_log, scan_logger_info,
    data_logger_info;
  simpl.

(** *** The counters only count *)

Lemma metadata_detectors_shift ds column n : forall n0 (w : World),
  metadata_detectors ds column (n + n0) w =
    match metadata_detectors ds column n0 w with
    | (Ok n', w') => (Ok (n + n')%Z, w')
    | (Raise e, w') => (Raise e, w')
    end.
Proof.
  induction ds as [|d ds IH]; intros n0 w; [reflexivity|].
  run_step. destruct (MetadataDetector.detect d column) as [[ty|]|e];
    [|apply IH|reflexivity].
  destruct (set_column_pii_type _ _ _ _) as [[[]|e] cat']; [|reflexivity].
  now rewrite Z.add_assoc.
Qed.

Lemma metadata_loop_shift ds g c n : forall c0 n0 (w : World),
  metadata_loop ds g (c + c0) (n + n0) w =
    match metadata_loop ds g c0 n0 w with
    | (Ok cs, w') => (Ok ((c + fst cs)%Z, (n + snd cs)%Z), w')
    | (Raise e, w') => (Raise e, w')
    end.
Proof.
  induction g as [|[[s t] column] g IH]; intros c0 n0 w; [reflexivity|].
  run_step.
  rewrite metadata_detectors_shift.
  destruct (metadata_detectors ds column n0 _) as [[n'|e] w']; [|reflexivity].
  rewrite <- Z.add_assoc. apply IH.
Qed.

Lemma data_detectors_shift ds column val n : forall n0 (w : World),
  data_detectors ds column val (n + n0) w =
    match data_detectors ds column val n0 w with
    | (Ok n', w') => (Ok (n + n')%Z, w')
    | (Raise e, w') => (Raise e, w')
    end.
Proof.
  induction ds as [|d ds IH]; intros n0 w; [reflexivity|].
  run_step. destruct (DatumDetector.detect d column val) as [[ty|]|e];
    [|apply IH|reflexivity].
  destruct (set_column_pii_type _ _ _ _) as [[[]|e] cat']; [|reflexivity].
  now rewrite Z.add_assoc.
Qed.

Lemma data_loop_shift ds g c n : forall c0 n0 (w : World),
  data_loop ds g (c + c0) (n + n0) w =
    match data_loop ds g c0 n0 w with
    | (Ok cs, w') => (Ok ((c + fst cs)%Z, (n + snd cs)%Z), w')
    | (Raise e, w') => (Raise e, w')
    end.
Proof.
  induction g as [|[[[s t] column] [val|]] g IH]; intros c0 n0 w;
    [reflexivity| |].
  - run_step. rewrite data_detectors_shift.
    destruct (data_detectors ds column val n0 _) as [[n'|e] w'];
      [|reflexivity].
    rewrite <- Z.add_assoc. apply IH.
  - run_step. rewrite <- Z.add_assoc. apply IH.
Qed.

(** *** Scans in batches *)

Lemma count_app {A : Type} (p : A -> bool) l1 l2 :
  count p (l1 ++ l2) = (count p l1 + count p l2)%Z.
Proof.
  unfold count. now rewrite filter_app, length_app, Nat2Z.inj_add.
Qed.

Lemma apply_writes_app cat calls1 calls2 :
  apply_writes cat (calls1 ++ calls2) =
    apply_writes (apply_writes cat calls1) calls2.
Proof. unfold apply_writes. apply fold_left_app. Qed.

(** A walk that completes from one world completes from every world with
    the same catalog, whatever the counters start at. *)
Lemma metadata_loop_moves ds g c n (w w0 : World) cs0 w0' :
  catalog w = catalog w0 ->
  metadata_loop ds g 0 0 w0 = (Ok cs0, w0') ->
  exists w',
    metadata_loop ds g c n w = (Ok ((c + fst cs0)%Z, (n + snd cs0)%Z), w').
Proof.
  intros Hcat H.
  rewrite (framed_from_fresh _ _ w0 (framed_metadata_loop _ _ ds g 0 0)) in H.
  replace (metadata_loop ds g c n w) with (metadata_loop ds g (c + 0) (n + 0) w)
    by (now rewrite !Z.add_0_r).
  rewrite metadata_loop_shift.
  rewrite (framed_from_fresh _ _ w (framed_metadata_loop _ _ ds g 0 0)).
  rewrite Hcat.
  destruct (metadata_loop ds g 0 0 (fresh (catalog w0))) as [r wf].
  simpl in *. inversion H; subst. eexists. reflexivity.
Qed.

Lemma data_loop_moves ds g c n (w w0 : World) cs0 w0' :
  catalog w = catalog w0 ->
  data_loop ds g 0 0 w0 = (Ok cs0, w0') ->
  exists w',
    data_loop ds g c n w = (Ok ((c + fst cs0)%Z, (n + snd cs0)%Z), w').
Proof.
  intros Hcat H.
  rewrite (framed_from_fresh _ _ w0 (framed_data_loop _ _ ds g 0 0)) in H.
  replace (data_loop ds g c n w) with (data_loop ds g (c + 0) (n + 0) w)
    by (now rewrite !Z.add_0_r).
  rewrite data_loop_shift.
  rewrite (framed_from_fresh _ _ w (framed_data_loop _ _ ds g 0 0)).
  rewrite Hcat.
  destruct (data_loop ds g 0 0 (fresh (catalog w0))) as [r wf].
  simpl in *. inversion H; subst. eexists. reflexivity.
Qed.

Lemma metadata_batches_complete ds wg1 wg2 wg g1 g2 (w w1 w2 : World) :
  metadata_scan ds wg1 g1 w = (Ok tt, w1) ->
  metadata_scan ds wg2 g2 w1 = (Ok tt, w2) ->
  exists w', metadata_scan ds wg (g1 ++ g2) w = (Ok tt, w').
Proof.
  intros H1 H2.
  unfold metadata_scan, tqdm in *. unfold bind in *.
  destruct (metadata_loop ds g1 0 0 w) as [[cs1|e] w1'] eqn:L1;
    [|discriminate H1].
  destruct (metadata_loop ds g2 0 0 w1) as [[cs2|e] w2'] eqn:L2;
    [|discriminate H2].
  assert (Hcat : catalog w1' = catalog w1).
  { unfold LOGGER_log in H1. inversion H1; subst. reflexivity. }
  destruct (metadata_loop_moves ds g2 (fst cs1) (snd cs1) w1' w1 cs2 w2'
              Hcat L2) as (w'' & L).
  rewrite metadata_loop_app, L1, L. unfold LOGGER_log. eexists. reflexivity.
Qed.

Lemma data_batches_complete ds wg1 wg2 wg g1 g2 size1 size2 size
  (w w1 w2 : World) :
  data_scan ds wg1 g1 size1 w = (Ok tt, w1) ->
  data_scan ds wg2 g2 size2 w1 = (Ok tt, w2) ->
  exists w', data_scan ds wg (g1 ++ g2) size w = (Ok tt, w').
Proof.
  intros H1 H2.
  unfold data_scan, tqdm in *. unfold bind in *.
  destruct (data_loop ds g1 0 0 w) as [[cs1|e] w1'] eqn:L1;
    [|discriminate H1].
  destruct (data_loop ds g2 0 0 w1) as [[cs2|e] w2'] eqn:L2;
    [|discriminate H2].
  assert (Hcat : catalog w1' = catalog w1).
  { unfold LOGGER_log in H1. inversion H1; subst. reflexivity. }
  destruct (data_loop_moves ds g2 (fst cs1) (snd cs1) w1' w1 cs2 w2'
              Hcat L2) as (w'' & L).
  rewrite data_loop_app, L1, L. unfold LOGGER_log. eexists. reflexivity.
Qed.

(** X7: a metadata scan can be run in batches.  When the scan of the items
    [g1] completes and a scan of the items [g2], started where the first
    ended, completes too, the scan of [g1 ++ g2] in one go completes and
    ends with the same catalog, the same calls to the catalog and to the
    detectors and the same records for [scan_logger] and [data_logger];
    its [LOGGER] holds the same debug records and one summary, whose counts
    are the sums of the counts of the two summaries. *)
Theorem metadata_scan_in_batches ds wg1 wg2 wg g1 g2 (w w1 w2 : World) :
  metadata_scan ds wg1 g1 w = (Ok tt, w1) ->
  metadata_scan ds wg2 g2 w1 = (Ok tt, w2) ->
  exists w' pre post N1 K1 N2 K2,
    metadata_scan ds wg (g1 ++ g2) w = (Ok tt, w')
    /\ catalog w' = catalog w2
    /\ catalog_calls w' = catalog_calls w2
    /\ detect_calls w' = detect_calls w2
    /\ scan_logger w' = scan_logger w2
    /\ data_logger w' = data_logger w2
    /\ LOGGER w2 =
         LOGGER w ++ pre ++ summary_record N1 K1
           :: post ++ [summary_record N2 K2]
    /\ LOGGER w' =
         LOGGER w ++ pre ++ post
           ++ [summary_record (N1 + N2) (K1 + K2)].
Proof.
  intros H1 H2.
  destruct (metadata_batches_complete ds wg1 wg2 wg g1 g2 w w1 w2 H1 H2)
    as (w' & H).
  exists w', (map (fun it => scanning_record (md_column it)) g1),
    (map (fun it => scanning_record (md_column it)) g2),
    (Z.of_nat (length g1)), (count (md_matched ds) g1),
    (Z.of_nat (length g2)), (count (md_matched ds) g2).
  split; [exact H|].
  apply metadata_scan_ok in H1, H2, H.
  destruct H1 as (L1 & C1 & D1 & S1 & R1 & A1).
  destruct H2 as (L2 & C2 & D2 & S2 & R2 & A2).
  destruct H as (L & C & D & S & R & A).
  rewrite flat_map_app in C, D, A.
  rewrite A, A2, A1, C, C2, C1, D, D2, D1, S, S2, S1, R, R2, R1, L, L2, L1.
  rewrite map_app, length_app, Nat2Z.inj_add, count_app.
  fold apply_writes. rewrite apply_writes_app, <- !app_assoc.
  repeat split; reflexivity.
Qed.

(** X8: a data scan can be run in batches, in the same way: the scan of
    [g1 ++ g2] in one go completes when the two batches do, one after the
    other, and ends with the same catalog, calls, [scan_logger] records and
    [data_logger] records; its summary counts are the sums of the two. *)
Theorem data_scan_in_batches ds wg1 wg2 wg g1 g2 size1 size2 size
  (w w1 w2 : World) :
  data_scan ds wg1 g1 size1 w = (Ok tt, w1) ->
  data_scan ds wg2 g2 size2 w1 = (Ok tt, w2) ->
  exists w' pre post N1 K1 N2 K2,
    data_scan ds wg (g1 ++ g2) size w = (Ok tt, w')
    /\ catalog w' = catalog w2
    /\ catalog_calls w' = catalog_calls w2
    /\ detect_calls w' = detect_calls w2
    /\ scan_logger w' = scan_logger w2
    /\ data_logger w' = data_logger w2
    /\ LOGGER w2 =
         LOGGER w ++ pre ++ summary_record N1 K1
           :: post ++ [summary_record N2 K2]
    /\ LOGGER w' =
         LOGGER w ++ pre ++ post
           ++ [summary_record (N1 + N2) (K1 + K2)].
Proof.
  intros H1 H2.
  destruct (data_batches_complete ds wg1 wg2 wg g1 g2 size1 size2 size
              w w1 w2 H1 H2) as (w' & H).
  exists w', (flat_map (dd_LOGGER ds) g1), (flat_map (dd_LOGGER ds) g2),
    (Z.of_nat (length g1)), (count (dd_matched ds) g1),
    (Z.of_nat (length g2)), (count (dd_matched ds) g2).
  split; [exact H|].
  apply data_scan_ok in H1, H2, H.
  destruct H1 as (L1 & C1 & D1 & S1 & R1 & A1).
  destruct H2 as (L2 & C2 & D2 & S2 & R2 & A2).
  destruct H as (L & C & D & S & R & A).
  rewrite !flat_map_app in *.
  rewrite A, A2, A1, C, C2, C1, D, D2, D1, S, S2, S1, R, R2, R1, L, L2, L1.
  rewrite length_app, Nat2Z.inj_add, count_app.
  fold apply_writes. rewrite apply_writes_app, <- !app_assoc.
  repeat split; reflexivity.
Qed.

(** *** Nothing to scan, or nothing to scan with *)

Lemma metadata_loop_no_detector g : forall c n (w : World),
  metadata_loop [] g c n w =
    (Ok ((c + Z.of_nat (length g))%Z, n),
     mkWorld (catalog w) (catalog_calls w) (detect_calls w)
       (LOGGER w ++ map (fun it => scanning_record (md_column it)) g)
       (scan_logger w) (data_logger w)).
Proof.
  induction g as [|[[s t] column] g IH]; intros c n w.
  - simpl. unfold ret. rewrite Z.add_0_r, app_nil_r. now destruct w.
  - run_step. rewrite IH. simpl. rewrite <- app_assoc. simpl.
    replace (Z.pos (Pos.of_succ_nat (length g)))
      with (1 + Z.of_nat (length g))%Z by lia.
    now rewrite Z.add_assoc.
Qed.

Lemma data_loop_no_detector g : forall c n (w : World),
  data_loop [] g c n w =
    (Ok ((c + Z.of_nat (length g))%Z, n),
     mkWorld (catalog w) (catalog_calls w) (detect_calls w)
       (LOGGER w ++ map (fun it => scanning_record (dd_column it)) g)
       (scan_logger w) (data_logger w)).
Proof.
  induction g as [|[[[s t] column] val] g IH]; intros c n w.
  - simpl. unfold ret. rewrite Z.add_0_r, app_nil_r. now destruct w.
  - destruct val as [v|]; run_step; rewrite IH; simpl;
      rewrite <- app_assoc; simpl;
      replace (Z.pos (Pos.of_succ_nat (length g)))
        with (1 + Z.of_nat (length g))%Z by lia;
      now rewrite Z.add_assoc.
Qed.

(** X9: the edge inputs of the two drivers.  A scan of no item completes
    and only reports ["Columns Scanned: 0, Columns Labeled: 0"].  A scan
    with an empty list of detectors completes whatever the catalog does: it
    logs each item, reports all of them scanned and none labeled, and calls
    neither the catalog nor [scan_logger] nor [data_logger]. *)
Theorem scan_of_nothing_or_with_nothing :
  (forall ds wg (w : World),
     metadata_scan ds wg [] w =
       (Ok tt,
        mkWorld (catalog w) (catalog_calls w) (detect_calls w)
          (LOGGER w ++ [summary_record 0 0])
          (scan_logger w) (data_logger w)))
  /\ (forall ds wg size (w : World),
        data_scan ds wg [] size w =
          (Ok tt,
           mkWorld (catalog w) (catalog_calls w) (detect_calls w)
             (LOGGER w ++ [summary_record 0 0])
             (scan_logger w) (data_logger w)))
  /\ (forall wg g (w : World),
        metadata_scan [] wg g w =
          (Ok tt,
           mkWorld (catalog w) (catalog_calls w) (detect_calls w)
             (LOGGER w
                ++ map (fun it => scanning_record (md_column it)) g
                ++ [summary_record (Z.of_nat (length g)) 0])
             (scan_logger w) (data_logger w)))
  /\ (forall wg g size (w : World),
        data_scan [] wg g size w =
          (Ok tt,
           mkWorld (catalog w) (catalog_calls w) (detect_calls w)
             (LOGGER w
                ++ map (fun it => scanning_record (dd_column it)) g
                ++ [summary_record (Z.of_nat (length g)) 0])
             (scan_logger w) (data_logger w))).
Proof.
  split; [reflexivity|]. split; [reflexivity|]. split.
  - intros wg g w. unfold metadata_scan, tqdm, bind.
    rewrite metadata_loop_no_detector. unfold LOGGER_log. simpl.
    now rewrite <- app_assoc.
  - intros wg g size w. unfold data_scan, tqdm, bind.
    rewrite data_loop_no_detector. unfold LOGGER_log. simpl.
    now rewrite <- app_assoc.
Qed.

(** *** Where a write comes from *)

Lemma metadata_detectors_source ds column n : forall (w : World) r w',
  metadata_detectors ds column n w = (r, w') ->
  exists calls,
    catalog_calls w' = catalog_calls w ++ calls
    /\ forall c ty plugin, In (c, ty, plugin) calls ->
         exists d, In d ds /\ c = column
           /\ plugin = MetadataDetector.name d
           /\ md_probe column d = Ok (Some ty).
Proof.
  induction ds as [|d ds IH]; intros w r w' H.
  - inversion H; subst. exists []. rewrite app_nil_r.
    split; [reflexivity | intros ? ? ? []].
  - simpl in H. unfold bind at 1 in H. unfold call_detect in H.
    change (MetadataDetector.detect d column) with (md_probe column d) in H.
    destruct (md_probe column d) as [[ty|]|e] eqn:E.
    + exists [(column, ty, MetadataDetector.name d)]. split.
      * unfold bind, catalog_set_column_pii_type, ret in H. simpl in H.
        destruct (set_column_pii_type _ _ _ _) as [[[]|e] cat'];
          inversion H; subst; reflexivity.
      * intros c ty' plugin [Hin | []]. inversion Hin; subst.
        exists d. repeat split; [now left | exact E].
    + apply IH in H. simpl in H. destruct H as (calls & Hc & Hs).
      exists calls. split; [exact Hc|].
      intros c ty plugin Hin. destruct (Hs c ty plugin Hin) as (d' & Hd & R).
      exists d'. split; [now right | exact R].
    + inversion H; subst. exists []. simpl. rewrite app_nil_r.
      split; [reflexivity | intros ? ? ? []].
Qed.

Lemma metadata_loop_source ds g : forall c n (w : World) r w',
  metadata_loop ds g c n w = (r, w') ->
  exists calls,
    catalog_calls w' = catalog_calls w ++ calls
    /\ forall column ty plugin, In (column, ty, plugin) calls ->
         exists it d, In it g /\ In d ds /\ column = md_column it
           /\ plugin = MetadataDetector.name d
           /\ md_probe column d = Ok (Some ty).
Proof.
  induction g as [|[[s t] column] g IH]; intros c n w r w' H.
  - inversion H; subst. exists []. rewrite app_nil_r.
    split; [reflexivity | intros ? ? ? []].
  - simpl in H. unfold bind at 1 in H. unfold bind at 1 in H.
    unfold LOGGER_log at 1 in H. unfold bind at 1 in H.
    destruct (metadata_detectors ds column n _) as [[n'|e] w1] eqn:D.
    + apply metadata_detectors_source in D. simpl in D.
      destruct D as (calls1 & Hc1 & Hs1).
      unfold ret in H. simpl in H. apply IH in H.
      destruct H as (calls2 & Hc2 & Hs2).
      exists (calls1 ++ calls2). split.
      * now rewrite Hc2, Hc1, app_assoc.
      * intros c0 ty plugin Hin. apply in_app_iff in Hin.
        destruct Hin as [Hin | Hin].
        -- destruct (Hs1 _ _ _ Hin) as (d & Hd & -> & R).
           exists (s, t, column), d. split; [now left|].
           split; [exact Hd|]. split; [reflexivity | exact R].
        -- destruct (Hs2 _ _ _ Hin) as (it & d & Hit & R).
           exists it, d. split; [now right | exact R].
    + apply metadata_detectors_source in D. simpl in D.
      destruct D as (calls1 & Hc1 & Hs1).
      inversion H; subst. exists calls1. split; [exact Hc1|].
      intros c0 ty plugin Hin.
      destruct (Hs1 _ _ _ Hin) as (d & Hd & -> & R).
      exists (s, t, column), d. split; [now left|].
      split; [exact Hd|]. split; [reflexivity | exact R].
Qed.

Lemma data_detectors_source ds column val n : forall (w : World) r w',
  data_detectors ds column val n w = (r, w') ->
  exists calls,
    catalog_calls w' = catalog_calls w ++ calls
    /\ forall c ty plugin, In (c, ty, plugin) calls ->
         exists d, In d ds /\ c = column
           /\ plugin = DatumDetector.name d
           /\ dd_probe column val d = Ok (Some ty).
Proof.
  induction ds as [|d ds IH]; intros w r w' H.
  - inversion H; subst. exists []. rewrite app_nil_r.
    split; [reflexivity | intros ? ? ? []].
  - simpl in H. unfold bind at 1 in H. unfold call_detect_datum in H.
    change (DatumDetector.detect d column val)
      with (dd_probe column val d) in H.
    destruct (dd_probe column val d) as [[ty|]|e] eqn:E.
    + exists [(column, ty, DatumDetector.name d)]. split.
      * unfold bind, catalog_set_column_pii_type, ret, LOGGER_log,
          scan_logger_info, data_logger_info in H. simpl in H.
        destruct (set_column_pii_type _ _ _ _) as [[[]|e] cat'];
          inversion H; subst; reflexivity.
      * intros c ty' plugin [Hin | []]. inversion Hin; subst.
        exists d. repeat split; [now left | exact E].
    + apply IH in H. simpl in H. destruct H as (calls & Hc & Hs).
      exists calls. split; [exact Hc|].
      intros c ty plugin Hin. destruct (Hs c ty plugin Hin) as (d' & Hd & R).
      exists d'. split; [now right | exact R].
    + inversion H; subst. exists []. simpl. rewrite app_nil_r.
      split; [reflexivity | intros ? ? ? []].
Qed.

Lemma data_loop_source ds g : forall c n (w : World) r w',
  data_loop ds g c n w = (r, w') ->
  exists calls,
    catalog_calls w' = catalog_calls w ++ calls
    /\ forall column ty plugin, In (column, ty, plugin) calls ->
         exists it d v, In it g /\ In d ds /\ column = dd_column it
           /\ dd_value it = Some v
           /\ plugin = DatumDetector.name d
           /\ dd_probe column v d = Ok (Some ty).
Proof.
  induction g as [|[[[s t] column] val] g IH]; intros c n w r w' H.
  - inversion H; subst. exists []. rewrite app_nil_r.
    split; [reflexivity | intros ? ? ? []].
  - simpl in H. unfold bind at 1 in H. unfold bind at 1 in H.
    unfold LOGGER_log at 1 in H. unfold bind at 1 in H.
    destruct val as [v|].
    + destruct (data_detectors ds column v n _) as [[n'|e] w1] eqn:D;
        apply data_detectors_source in D; simpl in D;
        destruct D as (calls1 & Hc1 & Hs1).
      * unfold ret in H. simpl in H. apply IH in H.
        destruct H as (calls2 & Hc2 & Hs2).
        exists (calls1 ++ calls2). split.
        -- now rewrite Hc2, Hc1, app_assoc.
        -- intros c0 ty plugin Hin. apply in_app_iff in Hin.
           destruct Hin as [Hin | Hin].
           ++ destruct (Hs1 _ _ _ Hin) as (d & Hd & -> & R).
              exists (s, t, column, Some v), d, v. split; [now left|].
              split; [exact Hd|]. split; [reflexivity|].
              split; [reflexivity | exact R].
           ++ destruct (Hs2 _ _ _ Hin) as (it & d & v' & Hit & R).
              exists it, d, v'. split; [now right | exact R].
      * inversion H; subst. exists calls1. split; [exact Hc1|].
        intros c0 ty plugin Hin.
        destruct (Hs1 _ _ _ Hin) as (d & Hd & -> & R).
        exists (s, t, column, Some v), d, v. split; [now left|].
        split; [exact Hd|]. split; [reflexivity|].
        split; [reflexivity | exact R].
    + unfold ret in H. simpl in H. apply IH in H.
      destruct H as (calls2 & Hc2 & Hs2).
      exists calls2. split; [exact Hc2|].
      intros c0 ty plugin Hin.
      destruct (Hs2 _ _ _ Hin) as (it & d & v' & Hit & R).
      exists it, d, v'. split; [now right | exact R].
Qed.

(** X10: every classification a scan writes comes from a detector.  In
    every run of either driver, completed or aborted by an exception, each
    call of [set_column_pii_type] the run makes is for the column of an item
    of the enumeration, with the type that a detector of the list returned
    for that item (for a data scan: for that item's value, which is not
    [None]) and with that detector's name as plugin. *)
Theorem every_write_has_a_source :
  (forall ds wg g (w : World),
     exists calls,
       catalog_calls (snd (metadata_scan ds wg g w))
         = catalog_calls w ++ calls
       /\ forall column ty plugin, In (column, ty, plugin) calls ->
            exists it d, In it g /\ In d ds /\ column = md_column it
              /\ plugin = MetadataDetector.name d
              /\ md_probe column d = Ok (Some ty))
  /\ (forall ds wg g size (w : World),
        exists calls,
          catalog_calls (snd (data_scan ds wg g size w))
            = catalog_calls w ++ calls
          /\ forall column ty plugin, In (column, ty, plugin) calls ->
               exists it d v, In it g /\ In d ds /\ column = dd_column it
                 /\ dd_value it = Some v
                 /\ plugin = DatumDetector.name d
                 /\ dd_probe column v d = Ok (Some ty)).
Proof.
  split.
  - intros ds wg g w. unfold metadata_scan, tqdm, bind.
    destruct (metadata_loop ds g 0 0 w) as [[cs|e] w1] eqn:L;
      apply metadata_loop_source in L; exact L.
  - intros ds wg g size w. unfold data_scan, tqdm, bind.
    destruct (data_loop ds g 0 0 w) as [[cs|e] w1] eqn:L;
      apply data_loop_source in L; exact L.
Qed.

(** *** How many calls a scan makes *)

Lemma count_bounds {A : Type} (p : A -> bool) l :
  (0 <= count p l <= Z.of_nat (length l))%Z.
Proof.
  unfold count. pose proof (filter_length_le p l). lia.
Qed.

Lemma flat_map_length_bounds {A B : Type} (f : A -> list B)
  (p : A -> bool) (m : nat) l :
  (forall a, ((if p a then 1 else 0) <= length (f a) <= m)%nat) ->
  (count p l <= Z.of_nat (length (flat_map f l))
   <= Z.of_nat (length l) * Z.of_nat m)%Z.
Proof.
  intros Hf. unfold count.
  induction l as [|a l IH]; [simpl; lia|].
  cbn [flat_map filter]. rewrite length_app.
  specialize (Hf a). destruct (p a); cbn [length]; lia.
Qed.

Lemma upto_first_match_bounds {D : Type}
  (probe : D -> result (option PiiType)) ds :
  ((if matched probe ds then 1 else 0)
   <= length (upto_first_match probe ds) <= length ds)%nat.
Proof.
  induction ds as [|d ds IH]; [simpl; lia|].
  cbn [matched existsb upto_first_match length].
  fold (matched probe ds).
  destruct (hits probe d); simpl; [lia|].
  destruct (matched probe ds); lia.
Qed.

Lemma md_probes_bounds ds it :
  ((if md_matched ds it then 1 else 0)
   <= length (md_probes ds it) <= length ds)%nat.
Proof.
  unfold md_probes, md_matched. rewrite length_map.
  apply upto_first_match_bounds.
Qed.

Lemma dd_probes_bounds ds it :
  ((if dd_matched ds it then 1 else 0)
   <= length (dd_probes ds it) <= length ds)%nat.
Proof.
  unfold dd_probes, dd_matched. destruct (dd_value it) as [v|].
  - rewrite length_map. apply upto_first_match_bounds.
  - simpl. lia.
Qed.

(** X11: the counts of a completed scan are bounded by its input.  The
    number [K] of items reported labeled lies between 0 and the number [N]
    of items reported scanned, which is the length of the enumeration; the
    catalog is called [K] times; and the detectors are called at least [K]
    times and at most [N] times the number of detectors. *)
Theorem scan_counts_are_bounded :
  (forall ds wg g (w w' : World),
     metadata_scan ds wg g w = (Ok tt, w') ->
     exists debug N K calls probes,
       LOGGER w' = LOGGER w ++ debug ++ [summary_record N K]
       /\ catalog_calls w' = catalog_calls w ++ calls
       /\ detect_calls w' = detect_calls w ++ probes
       /\ N = Z.of_nat (length g)
       /\ (0 <= K <= N)%Z
       /\ Z.of_nat (length calls) = K
       /\ (K <= Z.of_nat (length probes) <= N * Z.of_nat (length ds))%Z)
  /\ (forall ds wg g size (w w' : World),
        data_scan ds wg g size w = (Ok tt, w') ->
        exists debug N K calls probes,
          LOGGER w' = LOGGER w ++ debug ++ [summary_record N K]
          /\ catalog_calls w' = catalog_calls w ++ calls
          /\ detect_calls w' = detect_calls w ++ probes
          /\ N = Z.of_nat (length g)
          /\ (0 <= K <= N)%Z
          /\ Z.of_nat (length calls) = K
          /\ (K <= Z.of_nat (length probes) <= N * Z.of_nat (length ds))%Z).
Proof.
  split.
  - intros ds wg g w w' H. apply metadata_scan_ok in H.
    destruct H as (L & C & D & _).
    exists (map (fun it => scanning_record (md_column it)) g),
      (Z.of_nat (length g)), (count (md_matched ds) g),
      (flat_map (md_writes ds) g), (flat_map (md_probes ds) g).
    repeat split; try assumption; try apply count_bounds.
    + apply md_writes_count.
    + apply (flat_map_length_bounds (md_probes ds) (md_matched ds)
               (length ds) g (md_probes_bounds ds)).
    + apply (flat_map_length_bounds (md_probes ds) (md_matched ds)
               (length ds) g (md_probes_bounds ds)).
  - intros ds wg g size w w' H. apply data_scan_ok in H.
    destruct H as (L & C & D & _).
    exists (flat_map (dd_LOGGER ds) g),
      (Z.of_nat (length g)), (count (dd_matched ds) g),
      (flat_map (dd_writes ds) g), (flat_map (dd_probes ds) g).
    repeat split; try assumption; try apply count_bounds.
    + apply dd_writes_count.
    + apply (flat_map_length_bounds (dd_probes ds) (dd_matched ds)
               (length ds) g (dd_probes_bounds ds)).
    + apply (flat_map_length_bounds (dd_probes ds) (dd_matched ds)
               (length ds) g (dd_probes_bounds ds)).
Qed.

(** *** The records of a data scan, side by side *)

Lemma dd_raw_about_writes ds g :
  map (fun rec => (get "column" (extra rec), get "pii_types" (extra rec)))
    (flat_map (dd_raw ds) g)
  = map (fun call : catalog_call =>
           (Some (LStr (CatColumn.fqdn (fst (fst call)))),
            Some (LPii (snd (fst call)))))
      (flat_map (dd_writes ds) g).
Proof.
  induction g as [|it g IH]; [reflexivity|].
  cbn [flat_map]. rewrite !map_app, IH. f_equal.
  unfold dd_raw, dd_writes.
  destruct (dd_hit ds it) as [[[d ty] v]|]; reflexivity.
Qed.

Lemma dd_safe_from_raw ds g :
  map (fun rec =>
         mkLog (levelno rec) (msg rec) (args rec)
           (filter (fun kv => negb (String.eqb (fst kv) "data"))
              (extra rec)))
    (flat_map (dd_raw ds) g)
  = flat_map (dd_safe ds) g.
Proof.
  induction g as [|it g IH]; [reflexivity|].
  cbn [flat_map]. rewrite !map_app, IH. f_equal.
  unfold dd_raw, dd_safe.
  destruct (dd_hit ds it) as [[[d ty] v]|]; reflexivity.
Qed.

(** X12: the records of a completed data scan go side by side with its
    writes.  The scan hands [data_logger] one record for each call it makes
    to the catalog, in the same order, and the record's ["column"] and
    ["pii_types"] are the fqdn of the column and the type of that call; the
    records handed to [scan_logger] are the same records, in the same order,
    without their ["data"] entry. *)
Theorem data_scan_logs_follow_writes ds wg g size (w w' : World) :
  data_scan ds wg g size w = (Ok tt, w') ->
  exists calls safe raw,
    catalog_calls w' = catalog_calls w ++ calls
    /\ scan_logger w' = scan_logger w ++ safe
    /\ data_logger w' = data_logger w ++ raw
    /\ map (fun rec =>
              (get "column" (extra rec), get "pii_types" (extra rec))) raw
       = map (fun call : catalog_call =>
                (Some (LStr (CatColumn.fqdn (fst (fst call)))),
                 Some (LPii (snd (fst call)))))
           calls
    /\ map (fun rec =>
              mkLog (levelno rec) (msg rec) (args rec)
                (filter (fun kv => negb (String.eqb (fst kv) "data"))
                   (extra rec)))
         raw
       = safe.
Proof.
  intros H. apply data_scan_ok in H.
  destruct H as (_ & C & _ & S & R & _).
  exists (flat_map (dd_writes ds) g), (flat_map (dd_safe ds) g),
    (flat_map (dd_raw ds) g).
  repeat split; try assumption.
  - apply dd_raw_about_writes.
  - apply dd_safe_from_raw.
Qed.

(** *** The drivers with the built-in detectors *)

Lemma md_writes_name_detector it :
  md_writes [column_name_regex_detector] it =
    match find (holds_word (md_column it)) ColumnNameRegexDetector.regex with
    | Some e => [(md_column it, fst e, "ColumnNameRegexDetector")]
    | None => []
    end.
Proof.
  unfold md_writes. cbn [first_match]. unfold md_probe.
  cbn [column_name_regex_detector MetadataDetector.detect
       MetadataDetector.name].
  rewrite detect_find_word.
  destruct (find (holds_word (md_column it)) ColumnNameRegexDetector.regex);
    reflexivity.
Qed.

Lemma flat_map_ext_all {A B : Type} (f g : A -> list B) l :
  (forall a, f a = g a) -> flat_map f l = flat_map g l.
Proof.
  intros H. induction l as [|a l IH]; [reflexivity|].
  simpl. now rewrite H, IH.
Qed.

(** X13: a metadata scan with the name detector alone, on a catalog whose
    [set_column_pii_type] never raises, always completes.  It calls the
    detector once for each column of the enumeration, and writes, for each
    column whose name is one line and contains a word of the table, the type
    of the first entry with such a word, with plugin
    ["ColumnNameRegexDetector"]; it writes nothing for the other columns. *)
Theorem name_detector_scan wg g (w : World) :
  (forall cat c ty plugin,
     never_raises (fst (set_column_pii_type cat c ty plugin))) ->
  exists w',
    metadata_scan [column_name_regex_detector] wg g w = (Ok tt, w')
    /\ catalog_calls w' =
         catalog_calls w
           ++ flat_map
                (fun it =>
                   match find (holds_word (md_column it))
                           ColumnNameRegexDetector.regex with
                   | Some e =>
                       [(md_column it, fst e, "ColumnNameRegexDetector")]
                   | None => []
                   end) g
    /\ detect_calls w' =
         detect_calls w
           ++ map (fun it => ("ColumnNameRegexDetector", md_column it, None))
                g.
Proof.
  intros Hcat.
  destruct (metadata_scan_total Catalog set_column_pii_type
              [column_name_regex_detector] wg g w Hcat) as (w' & H).
  { apply Forall_forall. intros it _. constructor; [|constructor].
    intros e. unfold md_probe. simpl. discriminate. }
  exists w'. split; [exact H|].
  apply metadata_scan_ok in H. destruct H as (_ & C & D & _).
  rewrite C, D. split.
  - f_equal. apply flat_map_ext_all, md_writes_name_detector.
  - f_equal. clear. induction g as [|it g IH]; [reflexivity|].
    cbn [flat_map map]. rewrite IH. unfold md_probes.
    cbn [upto_first_match]. destruct (hits _ _); reflexivity.
Qed.

Lemma datum_detect_range CommonRegex column datum t :
  DatumRegexDetector.detect CommonRegex column datum = Some t ->
  In t [Phone; Email; CreditCard; Address; SSN; ZipCode; PoBox; KTP].
Proof.
  unfold DatumRegexDetector.detect.
  repeat match goal with
         | |- context [if truthy ?l then _ else _] => destruct (truthy l)
         end;
    intros H; inversion H; subst; simpl; tauto.
Qed.

Lemma dd_writes_datum_detector CommonRegex it :
  dd_writes [datum_regex_detector CommonRegex] it =
    match dd_value it with
    | Some v =>
        match DatumRegexDetector.detect CommonRegex (dd_column it) v with
        | Some ty => [(dd_column it, ty, "DatumRegexDetector")]
        | None => []
        end
    | None => []
    end.
Proof.
  unfold dd_writes, dd_hit. destruct (dd_value it) as [v|]; [|reflexivity].
  cbn [first_match]. unfold dd_probe.
  cbn [datum_regex_detector DatumDetector.detect DatumDetector.name].
  destruct (DatumRegexDetector.detect CommonRegex (dd_column it) v);
    reflexivity.
Qed.

(** X14: a data scan with the datum detector alone, on a catalog whose
    [set_column_pii_type] never raises, always completes.  It writes, for
    each item with a value (not [None]) in which a recogniser finds
    something, the detector's type for that value, with plugin
    ["DatumRegexDetector"], and nothing for the other items; the types it
    writes are among Phone, Email, CreditCard, Address, SSN, ZipCode, PoBox
    and KTP. *)
Theorem datum_detector_scan CommonRegex wg g size (w : World) :
  (forall cat c ty plugin,
     never_raises (fst (set_column_pii_type cat c ty plugin))) ->
  exists w' calls,
    data_scan [datum_regex_detector CommonRegex] wg g size w = (Ok tt, w')
    /\ catalog_calls w' = catalog_calls w ++ calls
    /\ calls =
         flat_map
           (fun it =>
              match dd_value it with
              | Some v =>
                  match DatumRegexDetector.detect CommonRegex
                          (dd_column it) v with
                  | Some ty => [(dd_column it, ty, "DatumRegexDetector")]
                  | None => []
                  end
              | None => []
              end) g
    /\ Forall
         (fun call : catalog_call =>
            In (snd (fst call))
              [Phone; Email; CreditCard; Address; SSN; ZipCode; PoBox; KTP])
         calls.
Proof.
  intros Hcat.
  destruct (data_scan_total Catalog set_column_pii_type SMALL_TABLE_MAX
              _filter_text_columns
              [datum_regex_detector CommonRegex] wg g size w Hcat)
    as (w' & H).
  { apply Forall_forall. intros it _ v _. constructor; [|constructor].
    intros e. unfold dd_probe. simpl. discriminate. }
  exists w'. eexists. split; [exact H|].
  apply data_scan_ok in H. destruct H as (_ & C & _).
  split; [exact C|]. split.
  - apply flat_map_ext_all, dd_writes_datum_detector.
  - apply Forall_forall. intros [[c ty] plugin] Hin.
    apply in_flat_map in Hin. destruct Hin as (it & _ & Hin).
    rewrite dd_writes_datum_detector in Hin.
    destruct (dd_value it) as [v|]; [|destruct Hin].
    destruct (DatumRegexDetector.detect CommonRegex (dd_column it) v)
      as [ty'|] eqn:E; [|destruct Hin].
    destruct Hin as [Hin | []]. inversion Hin; subst.
    exact (datum_detect_range _ _ _ _ E).
Qed.

End MoreScanFacts.

(* ===================================================================== *)
(** ** DatumRegexDetector: the types it can return *)
(* ===================================================================== *)

(** X15: the datum detector only ever answers Phone, Email, CreditCard,
    Address, SSN, ZipCode, PoBox or KTP: it never classifies a value as
    Person, BirthDate, Gender, Nationality, UserName or Password, which
    only the name detector can return. *)
Theorem datum_detector_types CommonRegex column datum t :
  DatumRegexDetector.detect CommonRegex column datum = Some t ->
  In t [Phone; Email; CreditCard; Address; SSN; ZipCode; PoBox; KTP]
  /\ ~ In t [Person; BirthDate; Gender; Nationality; UserName; Password].
Proof.
  intros H. apply datum_detect_range in H. split; [exact H|].
  simpl in *. intros Hn.
  repeat match goal with
         | H : _ \/ _ |- _ => destruct H
         end;
    subst; try discriminate; contradiction.
Qed.

(* ===================================================================== *)
(** ** More runs on the sample collaborators *)
(* ===================================================================== *)

Lemma metadata_scan_in_batches_witness :
  exists w1 w2 w',
    sample_metadata_scan [column_name_regex_detector] []
      [Sample.md "user_email"; Sample.md "notes"] (fresh []) = (Ok tt, w1)
    /\ sample_metadata_scan [column_name_regex_detector] []
         [Sample.md "zip_code"] w1 = (Ok tt, w2)
    /\ sample_metadata_scan [column_name_regex_detector] []
         ([Sample.md "user_email"; Sample.md "notes"]
            ++ [Sample.md "zip_code"]) (fresh []) = (Ok tt, w')
    /\ catalog w' = catalog w2
    /\ catalog_calls w' = catalog_calls w2
    /\ detect_calls w' = detect_calls w2.
Proof.
  let r1 := eval vm_compute in
    (sample_metadata_scan [column_name_regex_detector] []
       [Sample.md "user_email"; Sample.md "notes"] (fresh [])) in
  match r1 with
  | (_, ?W1) =>
      assert (H1 : sample_metadata_scan [column_name_regex_detector] []
                     [Sample.md "user_email"; Sample.md "notes"] (fresh [])
                   = (Ok tt, W1))
        by (vm_compute; reflexivity);
      let r2 := eval vm_compute in
        (sample_metadata_scan [column_name_regex_detector] []
           [Sample.md "zip_code"] W1) in
      match r2 with
      | (_, ?W2) =>
          assert (H2 : sample_metadata_scan [column_name_regex_detector] []
                         [Sample.md "zip_code"] W1 = (Ok tt, W2))
            by (vm_compute; reflexivity);
          exists W1, W2
      end
  end.
  destruct (metadata_scan_in_batches _ _ _ [] [] [] _ _ _ _ _ H1 H2)
    as (w' & pre & post & N1 & K1 & N2 & K2 & H & Hc & Hcc & Hdc & _).
  exists w'. repeat split; assumption.
Defined.

Lemma data_scan_in_batches_witness :
  exists w1 w2 w',
    sample_data_scan [datum_regex_detector Sample.CommonRegex] []
      [Sample.dd "notes" (Some (PyStr "call 555-123-4567"));
       Sample.dd "notes" None] None (fresh []) = (Ok tt, w1)
    /\ sample_data_scan [datum_regex_detector Sample.CommonRegex] []
         [Sample.dd "contact" (Some (PyStr "bob@example"))] None w1
       = (Ok tt, w2)
    /\ sample_data_scan [datum_regex_detector Sample.CommonRegex] []
         ([Sample.dd "notes" (Some (PyStr "call 555-123-4567"));
           Sample.dd "notes" None]
            ++ [Sample.dd "contact" (Some (PyStr "bob@example"))])
         None (fresh []) = (Ok tt, w')
    /\ catalog w' = catalog w2
    /\ catalog_calls w' = catalog_calls w2
    /\ data_logger w' = data_logger w2.
Proof.
  let r1 := eval vm_compute in
    (sample_data_scan [datum_regex_detector Sample.CommonRegex] []
       [Sample.dd "notes" (Some (PyStr "call 555-123-4567"));
        Sample.dd "notes" None] None (fresh [])) in
  match r1 with
  | (_, ?W1) =>
      assert (H1 : sample_data_scan
                     [datum_regex_detector Sample.CommonRegex] []
                     [Sample.dd "notes" (Some (PyStr "call 555-123-4567"));
                      Sample.dd "notes" None] None (fresh [])
                   = (Ok tt, W1))
        by (vm_compute; reflexivity);
      let r2 := eval vm_compute in
        (sample_data_scan [datum_regex_detector Sample.CommonRegex] []
           [Sample.dd "contact" (Some (PyStr "bob@example"))] None W1) in
      match r2 with
      | (_, ?W2) =>
          assert (H2 : sample_data_scan
                         [datum_regex_detector Sample.CommonRegex] []
                         [Sample.dd "contact" (Some (PyStr "bob@example"))]
                         None W1 = (Ok tt, W2))
            by (vm_compute; reflexivity);
          exists W1, W2
      end
  end.
  destruct (data_scan_in_batches _ _ _ _ _ [] [] [] _ _ None None None
              _ _ _ H1 H2)
    as (w' & pre & post & N1 & K1 & N2 & K2 & H & Hc & Hcc & _ & _ & Hdl & _).
  exists w'. repeat split; assumption.
Defined.

Lemma scan_counts_are_bounded_witness :
  exists w' debug N K calls probes,
    sample_metadata_scan [Sample.SilentDetector; column_name_regex_detector]
      [] [Sample.md "user_email"; Sample.md "notes"] (fresh [])
      = (Ok tt, w')
    /\ LOGGER w' = [] ++ debug ++ [summary_record N K]
    /\ catalog_calls w' = [] ++ calls
    /\ detect_calls w' = [] ++ probes
    /\ (0 <= K <= N)%Z
    /\ (K <= Z.of_nat (length probes) <= N * 2)%Z.
Proof.
  let r1 := eval vm_compute in
    (sample_metadata_scan [Sample.SilentDetector; column_name_regex_detector]
       [] [Sample.md "user_email"; Sample.md "notes"] (fresh [])) in
  match r1 with
  | (_, ?W1) =>
      assert (H1 : sample_metadata_scan
                     [Sample.SilentDetector; column_name_regex_detector]
                     [] [Sample.md "user_email"; Sample.md "notes"]
                     (fresh []) = (Ok tt, W1))
        by (vm_compute; reflexivity);
      exists W1
  end.
  destruct (proj1 (scan_counts_are_bounded Sample.Catalog
                     Sample.set_column_pii_type Sample.SMALL_TABLE_MAX
                     Sample._filter_text_columns) _ _ _ _ _ H1)
    as (debug & N & K & calls & probes & L & C & D & _ & B1 & _ & B2).
  exists debug, N, K, calls, probes.
  repeat split; (assumption || apply B1 || apply B2).
Defined.

Lemma data_scan_logs_follow_writes_witness :
  exists w' calls safe raw,
    sample_data_scan [datum_regex_detector Sample.CommonRegex] []
      [Sample.dd "notes" (Some (PyStr "call 555-123-4567"));
       Sample.dd "notes" (Some (PyStr "nothing here"))] None (fresh [])
      = (Ok tt, w')
    /\ catalog_calls w' = [] ++ calls
    /\ scan_logger w' = [] ++ safe
    /\ data_logger w' = [] ++ raw
    /\ map (fun rec =>
              (get "column" (extra rec), get "pii_types" (extra rec))) raw
       = map (fun call : catalog_call =>
                (Some (LStr (CatColumn.fqdn (fst (fst call)))),
                 Some (LPii (snd (fst call)))))
           calls.
Proof.
  let r1 := eval vm_compute in
    (sample_data_scan [datum_regex_detector Sample.CommonRegex] []
       [Sample.dd "notes" (Some (PyStr "call 555-123-4567"));
        Sample.dd "notes" (Some (PyStr "nothing here"))] None (fresh [])) in
  match r1 with
  | (_, ?W1) =>
      assert (H1 : sample_data_scan
                     [datum_regex_detector Sample.CommonRegex] []
                     [Sample.dd "notes" (Some (PyStr "call 555-123-4567"));
                      Sample.dd "notes" (Some (PyStr "nothing here"))]
                     None (fresh []) = (Ok tt, W1))
        by (vm_compute; reflexivity);
      exists W1
  end.
  destruct (data_scan_logs_follow_writes _ _ _ _ _ _ _ _ _ _ H1)
    as (calls & safe & raw & C & S & R & E & _).
  exists calls, safe, raw. repeat split; assumption.
Defined.

Lemma name_detector_scan_witness :
  (forall (cat : Sample.Catalog) c ty plugin,
     never_raises
       (fst ((fun cat c ty plugin =>
                (Ok tt, Sample.label cat (CatColumn.fqdn c) (ty, plugin)))
               cat c ty plugin)))
  /\ exists w',
       metadata_scan Sample.Catalog
         (fun cat c ty plugin =>
            (Ok tt, Sample.label cat (CatColumn.fqdn c) (ty, plugin)))
         [column_name_regex_detector] []
         [Sample.md "user_email"; Sample.md "notes"] (fresh [])
         = (Ok tt, w')
       /\ detect_calls w' =
            [] ++ map (fun it =>
                         ("ColumnNameRegexDetector", md_column it, None))
                    [Sample.md "user_email"; Sample.md "notes"].
Proof.
  assert (Hcat : forall (cat : Sample.Catalog) c ty plugin,
            never_raises
              (fst ((fun cat c ty plugin =>
                       (Ok tt,
                        Sample.label cat (CatColumn.fqdn c) (ty, plugin)))
                      cat c ty plugin)))
    by (intros cat c ty plugin e; simpl; discriminate).
  split; [exact Hcat|].
  destruct (name_detector_scan Sample.Catalog _ []
              [Sample.md "user_email"; Sample.md "notes"] (fresh []) Hcat)
    as (w' & H & _ & D).
  exists w'. split; [exact H | exact D].
Defined.

Lemma datum_detector_scan_witness :
  (forall (cat : Sample.Catalog) c ty plugin,
     never_raises
       (fst ((fun cat c ty plugin =>
                (Ok tt, Sample.label cat (CatColumn.fqdn c) (ty, plugin)))
               cat c ty plugin)))
  /\ exists w' calls,
       data_scan Sample.Catalog
         (fun cat c ty plugin =>
            (Ok tt, Sample.label cat (CatColumn.fqdn c) (ty, plugin)))
         Sample.SMALL_TABLE_MAX Sample._filter_text_columns
         [datum_regex_detector Sample.CommonRegex] []
         [Sample.dd "notes" (Some (PyStr "call 555-123-4567"));
          Sample.dd "notes" None] None (fresh [])
         = (Ok tt, w')
       /\ catalog_calls w' = [] ++ calls
       /\ Forall
            (fun call : catalog_call =>
               In (snd (fst call))
                 [Phone; Email; CreditCard; Address; SSN; ZipCode; PoBox;
                  KTP])
            calls.
Proof.
  assert (Hcat : forall (cat : Sample.Catalog) c ty plugin,
            never_raises
              (fst ((fun cat c ty plugin =>
                       (Ok tt,
                        Sample.label cat (CatColumn.fqdn c) (ty, plugin)))
                      cat c ty plugin)))
    by (intros cat c ty plugin e; simpl; discriminate).
  split; [exact Hcat|].
  destruct (datum_detector_scan Sample.Catalog _ Sample.SMALL_TABLE_MAX
              Sample._filter_text_columns Sample.CommonRegex []
              [Sample.dd "notes" (Some (PyStr "call 555-123-4567"));
               Sample.dd "notes" None] None (fresh []) Hcat)
    as (w' & calls & H & C & _ & F).
  exists w', calls. repeat split; assumption.
Defined.

Lemma datum_detector_types_witness :
  DatumRegexDetector.detect Sample.CommonRegex (Sample.column "notes")
    (PyStr "call me at 555-123-4567 thanks") = Some Phone
  /\ In Phone [Phone; Email; CreditCard; Address; SSN; ZipCode; PoBox; KTP].
Proof.
  assert (H : DatumRegexDetector.detect Sample.CommonRegex
                (Sample.column "notes")
                (PyStr "call me at 555-123-4567 thanks") = Some Phone)
    by (vm_compute; reflexivity).
  split; [exact H|].
  exact (proj1 (datum_detector_types _ _ _ _ H)).
Defined.

(* ===================================================================== *)
(** ** Where sampled values go *)
(* ===================================================================== *)

Section RawValues.

Variable Catalog : Type.
Variable set_column_pii_type :
  Catalog -> CatColumn.t -> PiiType -> string -> result unit * Catalog.
Variable SMALL_TABLE_MAX : Z.
Variable _filter_text_columns : list CatColumn.t -> list CatColumn.t.

Local Abbreviation World := (World Catalog).
Local Abbreviation metadata_detectors :=
  (metadata_detectors Catalog set_column_pii_type).
Local Abbreviation metadata_loop := (metadata_loop Catalog set_column_pii_type).
Local Abbreviation metadata_scan := (metadata_scan Catalog set_column_pii_type).
Local Abbreviation data_detectors := (data_detectors Catalog set_column_pii_type).
Local Abbreviation data_loop := (data_loop Catalog set_column_pii_type).
Local Abbreviation data_scan :=
  (data_scan Catalog set_column_pii_type SMALL_TABLE_MAX _filter_text_columns).

Lemma data_detectors_raw ds column val n : forall (w : World) r w',
  data_detectors ds column val n w = (r, w') ->
  exists recs safe raw,
    LOGGER w' = LOGGER w ++ recs
    /\ scan_logger w' = scan_logger w ++ safe
    /\ data_logger w' = data_logger w ++ raw
    /\ Forall (fun rec => carries_raw rec = false) recs
    /\ Forall (fun rec => carries_raw rec = false) safe
    /\ Forall (fun rec => raw_of rec = Some val) raw.
Proof.
  induction ds as [|d ds IH]; intros w r w' H.
  - inversion H; subst. exists [], [], []. rewrite !app_nil_r.
    repeat split; constructor.
  - simpl in H. unfold bind at 1 in H. unfold call_detect_datum in H.
    destruct (DatumDetector.detect d column val) as [[ty|]|e].
    + unfold bind, catalog_set_column_pii_type, ret, LOGGER_log,
        scan_logger_info, data_logger_info in H. simpl in H.
      destruct (set_column_pii_type _ _ _ _) as [[[]|e] cat'];
        inversion H; subst; simpl.
      * exists [has_record column ty], [safe_record column ty],
          [raw_record column val ty].
        repeat split; repeat constructor.
      * exists [], [], []. rewrite !app_nil_r. repeat split; constructor.
    + apply IH in H. exact H.
    + inversion H; subst. exists [], [], []. simpl. rewrite !app_nil_r.
      repeat split; constructor.
Qed.

Lemma data_loop_raw ds g : forall c n (w : World) r w',
  data_loop ds g c n w = (r, w') ->
  exists recs safe raw,
    LOGGER w' = LOGGER w ++ recs
    /\ scan_logger w' = scan_logger w ++ safe
    /\ data_logger w' = data_logger w ++ raw
    /\ Forall (fun rec => carries_raw rec = false) recs
    /\ Forall (fun rec => carries_raw rec = false) safe
    /\ Forall (fun rec => exists it v,
                 In it g /\ dd_value it = Some v /\ raw_of rec = Some v)
         raw.
Proof.
  induction g as [|[[[s t] column] val] g IH]; intros c n w r w' H.
  - inversion H; subst. exists [], [], []. rewrite !app_nil_r.
    repeat split; constructor.
  - simpl in H. unfold bind at 1 in H. unfold bind at 1 in H.
    unfold LOGGER_log at 1 in H. unfold bind at 1 in H.
    assert (Hweak : forall raw,
              Forall (fun rec => exists it v,
                        In it g /\ dd_value it = Some v
                        /\ raw_of rec = Some v) raw ->
              Forall (fun rec => exists it v,
                        In it ((s, t, column, val) :: g)
                        /\ dd_value it = Some v /\ raw_of rec = Some v) raw).
    { intros raw. apply Forall_impl. intros rec (it & v & Hit & R).
      exists it, v. split; [now right | exact R]. }
    destruct val as [v|].
    + destruct (data_detectors ds column v n _) as [[n'|e] w1] eqn:D;
        apply data_detectors_raw in D; simpl in D;
        destruct D as (recs1 & safe1 & raw1 & L1 & S1 & R1 & F1 & G1 & K1).
      * unfold ret in H. simpl in H. apply IH in H.
        destruct H as (recs2 & safe2 & raw2 & L2 & S2 & R2 & F2 & G2 & K2).
        exists (scanning_record column :: recs1 ++ recs2),
          (safe1 ++ safe2), (raw1 ++ raw2).
        rewrite L2, L1, S2, S1, R2, R1, <- !app_assoc. simpl.
        repeat split.
        -- constructor; [reflexivity|]. apply Forall_app. now split.
        -- apply Forall_app. now split.
        -- apply Forall_app. split; [|apply Hweak; exact K2].
           eapply Forall_impl; [|exact K1]. intros rec R.
           exists (s, t, column, Some v), v.
           split; [now left|]. split; [reflexivity | exact R].
      * inversion H; subst.
        exists (scanning_record column :: recs1), safe1, raw1.
        rewrite L1, S1, R1, <- !app_assoc. simpl.
        repeat split.
        -- constructor; [reflexivity | exact F1].
        -- exact G1.
        -- eapply Forall_impl; [|exact K1]. intros rec R.
           exists (s, t, column, Some v), v.
           split; [now left|]. split; [reflexivity | exact R].
    + unfold ret in H. simpl in H. apply IH in H.
      destruct H as (recs2 & safe2 & raw2 & L2 & S2 & R2 & F2 & G2 & K2).
      exists (scanning_record column :: recs2), safe2, raw2.
      simpl in L2, S2, R2. rewrite L2, S2, R2, <- ?app_assoc. simpl.
      repeat split.
      * constructor; [reflexivity | exact F2].
      * exact G2.
      * apply Hweak. exact K2.
Qed.

Lemma metadata_detectors_quiet ds column n : forall (w : World) r w',
  metadata_detectors ds column n w = (r, w') ->
  LOGGER w' = LOGGER w
  /\ scan_logger w' = scan_logger w
  /\ data_logger w' = data_logger w.
Proof.
  induction ds as [|d ds IH]; intros w r w' H.
  - inversion H; subst. repeat split.
  - simpl in H. unfold bind at 1 in H. unfold call_detect in H.
    destruct (MetadataDetector.detect d column) as [[ty|]|e].
    + unfold bind, catalog_set_column_pii_type, ret in H. simpl in H.
      destruct (set_column_pii_type _ _ _ _) as [[[]|e] cat'];
        inversion H; subst; repeat split.
    + apply IH in H. exact H.
    + inversion H; subst. repeat split.
Qed.

Lemma metadata_loop_quiet ds g : forall c n (w : World) r w',
  metadata_loop ds g c n w = (r, w') ->
  scan_logger w' = scan_logger w
  /\ data_logger w' = data_logger w
  /\ exists recs,
       LOGGER w' = LOGGER w ++ recs
       /\ Forall (fun rec => carries_raw rec = false) recs.
Proof.
  induction g as [|[[s t] column] g IH]; intros c n w r w' H.
  - inversion H; subst. repeat split. exists []. rewrite app_nil_r.
    split; constructor.
  - simpl in H. unfold bind at 1 in H. unfold bind at 1 in H.
    unfold LOGGER_log at 1 in H. unfold bind at 1 in H.
    destruct (metadata_detectors ds column n _) as [[n'|e] w1] eqn:D;
      apply metadata_detectors_quiet in D; simpl in D;
      destruct D as (L1 & S1 & R1).
    + unfold ret in H. simpl in H. apply IH in H.
      destruct H as (S2 & R2 & recs & L2 & F2).
      rewrite S2, R2, S1, R1. repeat split.
      exists (scanning_record column :: recs).
      rewrite L2, L1, <- app_assoc. split; [reflexivity|].
      constructor; [reflexivity | exact F2].
    + inversion H; subst. rewrite S1, R1. repeat split.
      exists [scanning_record column]. rewrite L1.
      split; [reflexivity | repeat constructor].
Qed.

(** X16: sampled values reach [data_logger] only.  In every run of
    [data_scan], completed or aborted by an exception, no record handed to
    [LOGGER] or to [scan_logger] carries a sampled value, and every record
    handed to [data_logger] carries the value of an item of the
    enumeration.  In every run of [metadata_scan], nothing is handed to
    [scan_logger] or [data_logger], and no record handed to [LOGGER]
    carries a sampled value. *)
Theorem raw_values_reach_data_logger_only :
  (forall ds wg g size (w : World),
     exists recs safe raw,
       LOGGER (snd (data_scan ds wg g size w)) = LOGGER w ++ recs
       /\ scan_logger (snd (data_scan ds wg g size w))
          = scan_logger w ++ safe
       /\ data_logger (snd (data_scan ds wg g size w))
          = data_logger w ++ raw
       /\ Forall (fun rec => carries_raw rec = false) recs
       /\ Forall (fun rec => carries_raw rec = false) safe
       /\ Forall (fun rec => exists it v,
                    In it g /\ dd_value it = Some v /\ raw_of rec = Some v)
            raw)
  /\ (forall ds wg g (w : World),
        scan_logger (snd (metadata_scan ds wg g w)) = scan_logger w
        /\ data_logger (snd (metadata_scan ds wg g w)) = data_logger w
        /\ exists recs,
             LOGGER (snd (metadata_scan ds wg g w)) = LOGGER w ++ recs
             /\ Forall (fun rec => carries_raw rec = false) recs).
Proof.
  split.
  - intros ds wg g size w. unfold data_scan, tqdm, bind.
    destruct (data_loop ds g 0 0 w) as [[cs|e] w1] eqn:L;
      apply data_loop_raw in L;
      destruct L as (recs & safe & raw & L & S & R & F & G & K).
    + exists (recs ++ [summary_record (fst cs) (snd cs)]), safe, raw.
      unfold LOGGER_log. simpl. rewrite L, S, R, <- app_assoc.
      repeat split; try assumption.
      apply Forall_app. split; [exact F | repeat constructor].
    + exists recs, safe, raw. simpl. repeat split; assumption.
  - intros ds wg g w. unfold metadata_scan, tqdm, bind.
    destruct (metadata_loop ds g 0 0 w) as [[cs|e] w1] eqn:L;
      apply metadata_loop_quiet in L;
      destruct L as (S & R & recs & L & F).
    + unfold LOGGER_log. simpl. rewrite S, R, L. repeat split.
      exists (recs ++ [summary_record (fst cs) (snd cs)]).
      rewrite <- app_assoc. split; [reflexivity|].
      apply Forall_app. split; [exact F | repeat constructor].
    + simpl. rewrite S, R. repeat split. exists recs. now split.
Qed.

End RawValues.
